(** * Shepherd backend: run registry and WebSocket hub

    A shallow embedding of [backend/app/main.py] (class [RunManager], the
    endpoints and [lifespan]), of [backend/app/ws_manager.py] (class
    [WebSocketManager]) and of [backend/app/ws_manager_cancel_run.py],
    together with the properties of the run life cycle, of the streaming
    hub and of the endpoints.

    Conventions.
    - Python dictionaries are [gmap]s, Python sets are [gset]s; a
      [defaultdict] access that creates the missing entry is written out.
    - [datetime.utcnow()] is an explicit argument [now], an integer number
      of microseconds; [total_seconds()] of a difference is the rational
      number of seconds (the source holds its float rounding).
    - Every coroutine of the source is run to completion as one step: the
      registry holds its lock for a whole method, and the hub methods are
      taken between two scheduling points of the event loop.  For
      [connect], which registers the socket before its awaited sends,
      [connect_with] has the scheduling points and what other tasks
      broadcast there; [connect] is [connect_with] when nothing is
      broadcast meanwhile.
    - What leaves the process (socket traffic, signals to the operating
      system) is appended to a trace, oldest event first; [print] is not
      modelled.
    - A loop over a Python set walks [elements] of the [gset]; the
      statements about sockets are made socket by socket and do not
      depend on that order.
    - What the code calls and the sources do not hold is an input: the
      answers of the operating system to a signal or a probe, the result
      of [launch_mas_interactive], the results of the functions of
      [models.db].  The statements hold for every such input. *)

From Stdlib Require Import ZArith QArith Lqa List Bool Lia Ascii.
From stdpp Require Import base gmap strings list fin_maps fin_sets pretty sorting.

#[local] Set Warnings "-clear-no-such-hyp".
#[local] Open Scope string_scope.
#[local] Open Scope list_scope.
#[local] Open Scope Z_scope.

(** ** JSON values and messages *)

#[local] Unset Elimination Schemes.
Inductive json : Type :=
  | JNull
  | JBool (b : bool)
  | JInt (n : Z)
  | JNum (q : Q)
  | JStr (s : string)
  | JArr (l : list json)
  | JObj (fields : list (string * json)).
#[local] Set Elimination Schemes.

(** A message handed to [send_json] is a Python [dict]. *)
Definition message : Type := list (string * json).

(** [d.get(k)] *)
Fixpoint dict_get (k : string) (d : list (string * json)) : option json :=
  match d with
  | [] => None
  | (k', v) :: rest => if String.eqb k k' then Some v else dict_get k rest
  end.

(** [d.get(k) == s] for a string literal [s] *)
Definition get_is_str (k : string) (d : list (string * json)) (s : string) : bool :=
  match dict_get k d with
  | Some (JStr s') => String.eqb s' s
  | _ => false
  end.

(** ** The run registry ([RunManager], main.py) *)

Inductive RunStatus : Type := RUNNING | COMPLETED | FAILED | CANCELLED.

(** [RunStatus] is a [str] enumeration: the value of each member. *)
Definition RunStatus_value (s : RunStatus) : string :=
  match s with
  | RUNNING => "running"
  | COMPLETED => "completed"
  | FAILED => "failed"
  | CANCELLED => "cancelled"
  end.

(** The dictionary stored per run; the keys [completed_at] and
    [cancelled_at] are absent until the run ends. *)
Record run_data : Type := RunData {
  rd_run_id : string;
  rd_status : RunStatus;
  rd_started_at : Z;
  rd_job_data : message;
  rd_completed_at : option Z;
  rd_cancelled_at : option Z
}.

Record RunManager : Type := MkRunManager {
  max_concurrent : Z;
  active_runs : gmap string run_data;
  completed_runs : gmap string run_data;
  process_pids : gmap string Z;
  (** contents of [active_pids.json], [None] when the file does not exist *)
  pid_file : option (gmap string Z)
}.

(** [RunManager.__init__] with [MAX_CONCURRENT_RUNS = c] and no pid file
    left by an earlier session. *)
Definition new_run_manager (c : Z) : RunManager :=
  {| max_concurrent := c; active_runs := ∅; completed_runs := ∅;
     process_pids := ∅; pid_file := None |}.

(** Events that leave the process. *)
Inductive event : Type :=
  | EvAccept (ws : nat)
  | EvSend (ws : nat) (m : message)        (* [send_json] delivered [m] *)
  | EvSendFail (ws : nat) (m : message)    (* [send_json] raised *)
  | EvClose (ws : nat) (code : Z) (reason : string)
  | EvCloseFail (ws : nat) (code : Z) (reason : string)
  | EvKill (pid : Z)                       (* [kill_process(pid)] *)
  | EvCancelRun (run_id : string).         (* entry of [RunManager.cancel_run] *)

(** The result dictionary of [add_run]. *)
Inductive add_result : Type :=
  | Started (run_id : string)
  | AtCapacity (msg : string).

Definition add_result_status (r : add_result) : string :=
  match r with
  | Started _ => "started"
  | AtCapacity _ => "at_capacity"
  end.

Definition can_start_run (rm : RunManager) : bool :=
  Z.of_nat (size (active_runs rm)) <? max_concurrent rm.

Definition add_run (run_id : string) (job_data : message) (now : Z)
    (rm : RunManager) : add_result * RunManager :=
  if Z.of_nat (size (active_runs rm)) <? max_concurrent rm then
    (Started run_id,
     {| max_concurrent := max_concurrent rm;
        active_runs :=
          <[run_id := {| rd_run_id := run_id; rd_status := RUNNING;
                         rd_started_at := now; rd_job_data := job_data;
                         rd_completed_at := None; rd_cancelled_at := None |}]>
            (active_runs rm);
        completed_runs := completed_runs rm;
        process_pids := process_pids rm;
        pid_file := pid_file rm |})
  else
    (AtCapacity "At capacity, please come back and try again.", rm).

Definition complete_run (run_id : string) (success : bool) (now : Z)
    (rm : RunManager) : RunManager :=
  match active_runs rm !! run_id with
  | Some rd =>
      {| max_concurrent := max_concurrent rm;
         active_runs := delete run_id (active_runs rm);
         completed_runs :=
           <[run_id := {| rd_run_id := rd_run_id rd;
                          rd_status := if success then COMPLETED else FAILED;
                          rd_started_at := rd_started_at rd;
                          rd_job_data := rd_job_data rd;
                          rd_completed_at := Some now;
                          rd_cancelled_at := rd_cancelled_at rd |}]>
             (completed_runs rm);
         process_pids := process_pids rm;
         pid_file := pid_file rm |}
  | None => rm
  end.

(** [save_active_pids]: the pid table is written through to the file. *)
Definition save_active_pids (rm : RunManager) : RunManager :=
  {| max_concurrent := max_concurrent rm;
     active_runs := active_runs rm;
     completed_runs := completed_runs rm;
     process_pids := process_pids rm;
     pid_file := Some (process_pids rm) |}.

Definition register_process (run_id : string) (pid : Z) (rm : RunManager)
    : RunManager :=
  save_active_pids
    {| max_concurrent := max_concurrent rm;
       active_runs := active_runs rm;
       completed_runs := completed_runs rm;
       process_pids := <[run_id := pid]> (process_pids rm);
       pid_file := pid_file rm |}.

Definition unregister_process (run_id : string) (rm : RunManager) : RunManager :=
  match process_pids rm !! run_id with
  | Some _ =>
      save_active_pids
        {| max_concurrent := max_concurrent rm;
           active_runs := active_runs rm;
           completed_runs := completed_runs rm;
           process_pids := delete run_id (process_pids rm);
           pid_file := pid_file rm |}
  | None => rm
  end.

(** [kill_process] returns [True] on each of its paths (signal delivered,
    process gone after the grace period, forced kill, process already
    dead); what it does to the operating system is one trace event. *)
Definition kill_process (pid : Z) : bool * list event := (true, [EvKill pid]).

(** [RunManager.cancel_run]: the answer, the registry afterwards and the
    events emitted. *)
Definition cancel_run (run_id : string) (now : Z) (rm : RunManager)
    : bool * RunManager * list event :=
  let '(rm1, evs) :=
    match process_pids rm !! run_id with
    | Some pid => (unregister_process run_id rm, snd (kill_process pid))
    | None => (rm, [])
    end in
  match active_runs rm1 !! run_id with
  | Some rd =>
      (true,
       {| max_concurrent := max_concurrent rm1;
          active_runs := delete run_id (active_runs rm1);
          completed_runs :=
            <[run_id := {| rd_run_id := rd_run_id rd;
                           rd_status := CANCELLED;
                           rd_started_at := rd_started_at rd;
                           rd_job_data := rd_job_data rd;
                           rd_completed_at := rd_completed_at rd;
                           rd_cancelled_at := Some now |}]>
              (completed_runs rm1);
          process_pids := process_pids rm1;
          pid_file := pid_file rm1 |},
       EvCancelRun run_id :: evs)
  | None => (false, rm1, EvCancelRun run_id :: evs)
  end.

(** [get_run_status]: the ["status"] entry of the answer. *)
Definition get_run_status (run_id : string) (rm : RunManager) : string :=
  match active_runs rm !! run_id with
  | Some _ => "running"
  | None =>
      match completed_runs rm !! run_id with
      | Some rd => RunStatus_value (rd_status rd)
      | None => "not_found"
      end
  end.

(** Calls on the registry, and a sequence of them run in order (the lock
    serialises them). *)
Inductive rm_op : Type :=
  | OpAdd (run_id : string) (job_data : message)
  | OpComplete (run_id : string) (success : bool)
  | OpCancel (run_id : string)
  | OpRegister (run_id : string) (pid : Z)
  | OpUnregister (run_id : string).

Definition rm_step (now : Z) (op : rm_op) (rm : RunManager) : RunManager :=
  match op with
  | OpAdd run_id job => snd (add_run run_id job now rm)
  | OpComplete run_id success => complete_run run_id success now rm
  | OpCancel run_id => snd (fst (cancel_run run_id now rm))
  | OpRegister run_id pid => register_process run_id pid rm
  | OpUnregister run_id => unregister_process run_id rm
  end.

(** The [i]-th call happens at clock value [now + i]. *)
Fixpoint rm_run (now : Z) (ops : list rm_op) (rm : RunManager) : RunManager :=
  match ops with
  | [] => rm
  | op :: rest => rm_run (now + 1) rest (rm_step now op rm)
  end.


(** ** Sockets and the event loop

    A [WebSocket] object is a number.  What the framework and the remote
    peer do is held in [World]: a socket in [failing] raises on every call
    (its peer is gone), a socket in [closed] was closed by this process and
    raises as well; [pending] holds the close tasks created with
    [asyncio.create_task] that the event loop has not run yet. *)

Record World : Type := MkWorld {
  failing : gset nat;
  closed : gset nat;
  pending : list nat;
  trace : list event
}.

Definition usable (ws : nat) (w : World) : bool :=
  bool_decide ((ws ∉ failing w) ∧ (ws ∉ closed w)).

Definition emit (evs : list event) (w : World) : World :=
  {| failing := failing w; closed := closed w; pending := pending w;
     trace := trace w ++ evs |}.

(** [await ws.accept()]; [false] stands for a raised exception. *)
Definition ws_accept (ws : nat) (w : World) : bool * World :=
  if usable ws w then (true, emit [EvAccept ws] w) else (false, w).

(** [await ws.send_json(m)] *)
Definition ws_send_json (ws : nat) (m : message) (w : World) : bool * World :=
  if usable ws w then (true, emit [EvSend ws m] w)
  else (false, emit [EvSendFail ws m] w).

(** [await ws.close(code=code, reason=reason)] *)
Definition ws_close (ws : nat) (code : Z) (reason : string) (w : World)
    : bool * World :=
  if usable ws w then
    (true,
     {| failing := failing w; closed := {[ws]} ∪ closed w;
        pending := pending w;
        trace := trace w ++ [EvClose ws code reason] |})
  else (false, emit [EvCloseFail ws code reason] w).

(** [asyncio.create_task(self._close_connection(ws))] *)
Definition create_close_task (ws : nat) (w : World) : World :=
  {| failing := failing w; closed := closed w; pending := pending w ++ [ws];
     trace := trace w |}.

(** [_close_connection]: the exception of a failed close is swallowed. *)
Definition _close_connection (ws : nat) (w : World) : World :=
  snd (ws_close ws 1001 "Run cancelled" w).

(** The event loop runs the close tasks created so far, oldest first. *)
Definition run_pending (w : World) : World :=
  fold_left (fun w' ws => _close_connection ws w') (pending w)
    {| failing := failing w; closed := closed w; pending := [];
       trace := trace w |}.

(** What one socket saw, in order. *)
Definition event_ws (e : event) : option nat :=
  match e with
  | EvAccept ws | EvSend ws _ | EvSendFail ws _ | EvClose ws _ _
  | EvCloseFail ws _ _ => Some ws
  | EvKill _ | EvCancelRun _ => None
  end.

Definition on_socket (ws : nat) (e : event) : bool :=
  match event_ws e with
  | Some ws' => Nat.eqb ws' ws
  | None => false
  end.

Definition ws_events (ws : nat) (tr : list event) : list event :=
  List.filter (on_socket ws) tr.

(** The messages delivered to one socket, in order. *)
Fixpoint received (ws : nat) (tr : list event) : list message :=
  match tr with
  | [] => []
  | EvSend ws' m :: rest =>
      if Nat.eqb ws' ws then m :: received ws rest else received ws rest
  | _ :: rest => received ws rest
  end.

(** ** The hub ([WebSocketManager], ws_manager.py) *)

Definition MAX_BUFFER : nat := 2000.

Record WebSocketManager : Type := MkWebSocketManager {
  IDLE_TIMEOUT_SECONDS : Z;
  _conns : gmap string (gset nat);
  _buffers : gmap string (list message);
  _last_activity : gmap string Z;
  (** whether [set_run_manager] has stored the registry *)
  _run_manager : bool
}.

Definition new_ws_manager (timeout : Z) : WebSocketManager :=
  {| IDLE_TIMEOUT_SECONDS := timeout; _conns := ∅; _buffers := ∅;
     _last_activity := ∅; _run_manager := false |}.

Definition set_run_manager (h : WebSocketManager) : WebSocketManager :=
  {| IDLE_TIMEOUT_SECONDS := IDLE_TIMEOUT_SECONDS h; _conns := _conns h;
     _buffers := _buffers h; _last_activity := _last_activity h;
     _run_manager := true |}.

(** [deque(maxlen=n).append(m)]: a full deque drops its oldest item. *)
Definition deque_append (maxlen : nat) (d : list message) (m : message)
    : list message :=
  if (maxlen =? 0)%nat then d
  else if (maxlen <=? length d)%nat then drop 1 d ++ [m]
  else d ++ [m].

Definition with_conns (c : gmap string (gset nat)) (h : WebSocketManager)
    : WebSocketManager :=
  {| IDLE_TIMEOUT_SECONDS := IDLE_TIMEOUT_SECONDS h; _conns := c;
     _buffers := _buffers h; _last_activity := _last_activity h;
     _run_manager := _run_manager h |}.

Definition with_buffers (b : gmap string (list message)) (h : WebSocketManager)
    : WebSocketManager :=
  {| IDLE_TIMEOUT_SECONDS := IDLE_TIMEOUT_SECONDS h; _conns := _conns h;
     _buffers := b; _last_activity := _last_activity h;
     _run_manager := _run_manager h |}.

Definition with_last_activity (a : gmap string Z) (h : WebSocketManager)
    : WebSocketManager :=
  {| IDLE_TIMEOUT_SECONDS := IDLE_TIMEOUT_SECONDS h; _conns := _conns h;
     _buffers := _buffers h; _last_activity := a;
     _run_manager := _run_manager h |}.

Definition connection_ack (run_id : string) : message :=
  [("type", JStr "connection_ack"); ("run_id", JStr run_id)].

(** [for msg in msgs: await ws.send_json(msg)]; the first failure raises. *)
Fixpoint send_each (ws : nat) (msgs : list message) (w : World) : bool * World :=
  match msgs with
  | [] => (true, w)
  | m :: rest =>
      let '(ok, w1) := ws_send_json ws m w in
      if ok then send_each ws rest w1 else (false, w1)
  end.

(** [connect]; the boolean is [false] when an exception left the method. *)
Definition connect (run_id : string) (ws : nat) (now : Z)
    (h : WebSocketManager) (w : World) : bool * WebSocketManager * World :=
  let '(ok, w1) := ws_accept ws w in
  if negb ok then (false, h, w1) else
  let h1 :=
    with_conns (<[run_id := {[ws]} ∪ default ∅ (_conns h !! run_id)]> (_conns h)) h in
  let h2 := with_last_activity (<[run_id := now]> (_last_activity h1)) h1 in
  let '(ok, w2) := ws_send_json ws (connection_ack run_id) w1 in
  if negb ok then (false, h2, w2) else
  let backlog := default [] (_buffers h2 !! run_id) in
  let h3 := with_buffers (<[run_id := backlog]> (_buffers h2)) h2 in
  let '(ok, w3) := send_each ws backlog w2 in
  (ok, h3, w3).

Definition disconnect (run_id : string) (ws : nat) (h : WebSocketManager)
    : WebSocketManager :=
  let h1 :=
    with_conns (<[run_id := default ∅ (_conns h !! run_id) ∖ {[ws]}]> (_conns h)) h in
  let no_more :=
    match _conns h1 !! run_id with
    | None => true
    | Some s => bool_decide (s = ∅)
    end in
  if no_more then
    with_buffers (delete run_id (_buffers h1))
      (with_last_activity (delete run_id (_last_activity h1)) h1)
  else h1.

(** The test in [send_log] for the cancellation message.  [None] is the
    [AttributeError] of [.get] on a ["data"] entry that is not a dict. *)
Definition close_signal (m : message) : option bool :=
  if get_is_str "type" m "run_cancelled" then
    match dict_get "data" m with
    | None => Some false
    | Some (JObj d) => Some (get_is_str "action" d "close_connection")
    | Some _ => None
    end
  else Some false.

(** The body of the loop of [send_log] for one socket: the answer tells
    whether the socket was appended to [disconnected]. *)
Definition deliver (ws : nat) (m : message) (w : World) : bool * World :=
  let '(ok, w1) := ws_send_json ws m w in
  if ok then
    match close_signal m with
    | Some true => (true, create_close_task ws w1)
    | Some false => (false, w1)
    | None => (true, w1)
    end
  else (true, w1).

Fixpoint deliver_all (m : message) (l : list nat) (w : World)
    : list nat * World :=
  match l with
  | [] => ([], w)
  | ws :: rest =>
      let '(gone, w1) := deliver ws m w in
      let '(d, w2) := deliver_all m rest w1 in
      (if gone then ws :: d else d, w2)
  end.

Definition disconnect_all (run_id : string) (l : list nat)
    (h : WebSocketManager) : WebSocketManager :=
  fold_left (fun h' ws => disconnect run_id ws h') l h.

Definition send_log (run_id : string) (m : message) (now : Z)
    (h : WebSocketManager) (w : World) : WebSocketManager * World :=
  let h1 := with_last_activity (<[run_id := now]> (_last_activity h)) h in
  let h2 :=
    with_buffers
      (<[run_id := deque_append MAX_BUFFER (default [] (_buffers h1 !! run_id)) m]>
         (_buffers h1)) h1 in
  match _conns h2 !! run_id with
  | Some s =>
      let '(disconnected, w1) := deliver_all m (elements s) w in
      (disconnect_all run_id disconnected h2, w1)
  | None => (h2, w)
  end.

Definition receive_activity (run_id : string) (now : Z) (h : WebSocketManager)
    : WebSocketManager :=
  with_last_activity (<[run_id := now]> (_last_activity h)) h.

(** The loop of [close_all_connections] over the copied list. *)
Fixpoint close_each (run_id : string) (reason : string) (l : list nat)
    (h : WebSocketManager) (w : World) : WebSocketManager * World :=
  match l with
  | [] => (h, w)
  | ws :: rest =>
      let w1 := snd (ws_close ws 1001 reason w) in
      close_each run_id reason rest (disconnect run_id ws h) w1
  end.

Definition close_all_connections (run_id : string) (reason : string)
    (h : WebSocketManager) (w : World) : WebSocketManager * World :=
  match _conns h !! run_id with
  | Some s =>
      let '(h1, w1) := close_each run_id reason (elements s) h w in
      (with_conns (delete run_id (_conns h1)) h1, w1)
  | None => (h, w)
  end.

(** ** [connect] with its scheduling points

    [connect] takes no lock.  It awaits [ws.accept()], the [send_json] of
    the acknowledgement and each [send_json] of the replay, and while it
    is suspended in one of these calls other tasks run.  The awaited call
    is taken to have had its effect when the other tasks run.  What the
    other tasks do here is to broadcast: a [broadcast] is one call of
    [send_log] made by another task.

    The socket is put into the connection set right after [accept], so
    from then on a broadcast to the run reaches it.  The replay iterates
    over the deque itself: once [send_log] has appended to the deque, the
    next step of the iteration raises [RuntimeError] (deque mutated
    during iteration), which leaves [connect] with the socket still in
    the connection set. *)

Record broadcast : Type := Broadcast {
  to_run : string;
  payload : message;
  sent_at : Z
}.

Definition run_broadcasts (bs : list broadcast) (h : WebSocketManager)
    (w : World) : WebSocketManager * World :=
  fold_left
    (fun st b => send_log (to_run b) (payload b) (sent_at b) (fst st) (snd st))
    bs (h, w).

(** One of the broadcasts appends to the deque of [run_id]. *)
Definition mutates (run_id : string) (bs : list broadcast) : bool :=
  existsb (fun b => String.eqb (to_run b) run_id) bs.

(** The loop [for msg in self._buffers[run_id]: await ws.send_json(msg)]
    over the messages still to come; [during] holds, for each [send_json]
    in turn, the broadcasts made while it is awaited. *)
Fixpoint replay (run_id : string) (ws : nat) (backlog : list message)
    (during : list (list broadcast)) (h : WebSocketManager) (w : World)
    : bool * WebSocketManager * World :=
  match backlog with
  | [] => (true, h, w)
  | m :: rest =>
      let '(ok, w1) := ws_send_json ws m w in
      if negb ok then (false, h, w1) else
      let bs := List.hd [] during in
      let '(h2, w2) := run_broadcasts bs h w1 in
      if mutates run_id bs then (false, h2, w2)
      else replay run_id ws rest (List.tl during) h2 w2
  end.

(** [connect] while other tasks broadcast: [after_accept] while
    [ws.accept()] is awaited, [after_ack] while the acknowledgement is
    sent, [during] while the messages of the replay are sent. *)
Definition connect_with (after_accept after_ack : list broadcast)
    (during : list (list broadcast)) (run_id : string) (ws : nat) (now : Z)
    (h : WebSocketManager) (w : World) : bool * WebSocketManager * World :=
  let '(ok, w1) := ws_accept ws w in
  if negb ok then (false, h, w1) else
  let '(ha, wa) := run_broadcasts after_accept h w1 in
  let h1 :=
    with_conns
      (<[run_id := {[ws]} ∪ default ∅ (_conns ha !! run_id)]> (_conns ha)) ha in
  let h2 := with_last_activity (<[run_id := now]> (_last_activity h1)) h1 in
  let '(ok, w2) := ws_send_json ws (connection_ack run_id) wa in
  if negb ok then (false, h2, w2) else
  let '(hb, wb) := run_broadcasts after_ack h2 w2 in
  let backlog := default [] (_buffers hb !! run_id) in
  let h3 := with_buffers (<[run_id := backlog]> (_buffers hb)) hb in
  replay run_id ws backlog during h3 wb.

(** ** The process: registry, hub, input queues and the world

    The module-level objects [run_manager], [ws_manager] and
    [input_queues] of main.py.  Of each input queue only its presence in
    the dictionary is kept. *)

Record System : Type := MkSystem {
  run_manager : RunManager;
  ws_manager : WebSocketManager;
  input_queues : gset string;
  world : World
}.

(** [(current_time - last_activity).total_seconds()] *)
Definition idle_duration (now last : Z) : Q := Qmake (now - last) 1000000.

(** [idle_duration > self.IDLE_TIMEOUT_SECONDS] *)
Definition exceeds_timeout (d : Q) (timeout : Z) : bool :=
  negb (Qle_bool d (inject_Z timeout)).

(** The test of the scanning loop for one entry of [_last_activity]. *)
Definition is_idle (now : Z) (h : WebSocketManager) (entry : string * Z) : bool :=
  exceeds_timeout (idle_duration now (snd entry)) (IDLE_TIMEOUT_SECONDS h)
  && match _conns h !! fst entry with
     | Some s => negb (bool_decide (s = ∅))
     | None => false
     end.

(** The list [idle_runs] built by the first loop of the monitor.  The
    source walks the dictionary in insertion order, the model in the
    order of [map_to_list]. *)
Definition find_idle_runs (now : Z) (h : WebSocketManager) : list (string * Q) :=
  List.map (fun e => (fst e, idle_duration now (snd e)))
    (List.filter (is_idle now h) (map_to_list (_last_activity h))).

Definition idle_timeout_message (timeout : Z) (d : Q) (run_id : string)
    : message :=
  [("type", JStr "idle_timeout");
   ("data", JObj [("message",
                   JStr ("Run cancelled due to inactivity ("
                         +:+ pretty timeout +:+ "s timeout)"));
                  ("idle_duration", JNum d);
                  ("run_id", JStr run_id)])].

(** The body of the second loop of the monitor for one idle run. *)
Definition cancel_idle_run (now : Z) (r : string * Q) (sys : System) : System :=
  let run_id := fst r in
  let '(h1, w1) :=
    send_log run_id
      (idle_timeout_message (IDLE_TIMEOUT_SECONDS (ws_manager sys)) (snd r) run_id)
      now (ws_manager sys) (world sys) in
  let '(rm1, w2) :=
    if _run_manager h1 then
      let '(_, rm', evs) := cancel_run run_id now (run_manager sys) in
      (rm', emit evs w1)
    else (run_manager sys, w1) in
  let '(h2, w3) := close_all_connections run_id "Idle timeout" h1 w2 in
  let h3 :=
    match _last_activity h2 !! run_id with
    | Some _ => with_last_activity (delete run_id (_last_activity h2)) h2
    | None => h2
    end in
  {| run_manager := rm1; ws_manager := h3; input_queues := input_queues sys;
     world := w3 |}.

Definition cancel_idle_runs (now : Z) (l : list (string * Q)) (sys : System)
    : System :=
  fold_left (fun s r => cancel_idle_run now r s) l sys.

(** One turn of the loop of [_monitor_idle_connections], after its sleep. *)
Definition monitor_cycle (now : Z) (sys : System) : System :=
  cancel_idle_runs now (find_idle_runs now (ws_manager sys)) sys.

Definition run_cancelled_message (run_id : string) : message :=
  [("type", JStr "run_cancelled");
   ("data", JObj [("message", JStr "Run has been cancelled");
                  ("run_id", JStr run_id);
                  ("action", JStr "close_connection")])].

(** The endpoint [DELETE /runs/{run_id}/cancel]; the boolean is the
    ["success"] entry of the answer. *)
Definition cancel_run_endpoint (run_id : string) (now : Z) (sys : System)
    : bool * System :=
  let '(success, rm1, evs) := cancel_run run_id now (run_manager sys) in
  let w1 := emit evs (world sys) in
  if success then
    let '(h1, w2) :=
      send_log run_id (run_cancelled_message run_id) now (ws_manager sys) w1 in
    (true,
     {| run_manager := rm1;
        ws_manager := with_conns (delete run_id (_conns h1)) h1;
        input_queues := input_queues sys ∖ {[run_id]};
        world := w2 |})
  else
    (false,
     {| run_manager := rm1; ws_manager := ws_manager sys;
        input_queues := input_queues sys; world := w1 |}).

(** The first statement of the endpoint [/ws/{run_id}]:
    [await ws_manager.connect(run_id, ws)]. *)
Definition run_logs_ws_connect (run_id : string) (ws : nat) (now : Z)
    (sys : System) : bool * System :=
  let '(ok, h1, w1) := connect run_id ws now (ws_manager sys) (world sys) in
  (ok,
   {| run_manager := run_manager sys; ws_manager := h1;
      input_queues := input_queues sys; world := w1 |}).

(** The event loop takes a turn: the close tasks created so far run. *)
Definition event_loop_turn (sys : System) : System :=
  {| run_manager := run_manager sys; ws_manager := ws_manager sys;
     input_queues := input_queues sys; world := run_pending (world sys) |}.

Definition quiet_world : World :=
  {| failing := ∅; closed := ∅; pending := []; trace := [] |}.

Definition new_system (ceiling timeout : Z) : System :=
  {| run_manager := new_run_manager ceiling;
     ws_manager := set_run_manager (new_ws_manager timeout);
     input_queues := ∅; world := quiet_world |}.

(** * Notions used in the statements *)

Section Notions.

Implicit Types (rm : RunManager) (h : WebSocketManager) (w : World)
  (sys : System) (run_id : string) (ws : nat) (m : message) (now : Z).

(** ** Registry *)

(** The run is in one of the two collections at least. *)
Definition tracked rm run_id : Prop :=
  is_Some (active_runs rm !! run_id) ∨ is_Some (completed_runs rm !! run_id).

(** The run is in one collection and not in the other. *)
Definition in_exactly_one rm run_id : Prop :=
  (is_Some (active_runs rm !! run_id) ∧ completed_runs rm !! run_id = None)
  ∨ (active_runs rm !! run_id = None ∧ is_Some (completed_runs rm !! run_id)).

(** A call of [complete_run] or [cancel_run], as made by the two racing
    parties on one run. *)
Inductive end_call : Type :=
  | Complete (success : bool)
  | Cancel.

(** The call on the registry, and the status it records when it finds
    the run active. *)
Definition end_op run_id (c : end_call) : rm_op :=
  match c with
  | Complete success => OpComplete run_id success
  | Cancel => OpCancel run_id
  end.

Definition end_status (c : end_call) : RunStatus :=
  match c with
  | Complete true => COMPLETED
  | Complete false => FAILED
  | Cancel => CANCELLED
  end.

(** The entries of one run in the two collections after a call. *)
Definition step_lookup now (op : rm_op) rm run_id
    : option run_data * option run_data :=
  match op with
  | OpAdd id job =>
      if Z.of_nat (size (active_runs rm)) <? max_concurrent rm then
        (if decide (id = run_id) then
           Some {| rd_run_id := id; rd_status := RUNNING;
                   rd_started_at := now; rd_job_data := job;
                   rd_completed_at := None; rd_cancelled_at := None |}
         else active_runs rm !! run_id,
         completed_runs rm !! run_id)
      else (active_runs rm !! run_id, completed_runs rm !! run_id)
  | OpComplete id success =>
      match active_runs rm !! id with
      | Some rd =>
          if decide (id = run_id) then
            (None,
             Some {| rd_run_id := rd_run_id rd;
                     rd_status := if success then COMPLETED else FAILED;
                     rd_started_at := rd_started_at rd;
                     rd_job_data := rd_job_data rd;
                     rd_completed_at := Some now;
                     rd_cancelled_at := rd_cancelled_at rd |})
          else (active_runs rm !! run_id, completed_runs rm !! run_id)
      | None => (active_runs rm !! run_id, completed_runs rm !! run_id)
      end
  | OpCancel id =>
      match active_runs rm !! id with
      | Some rd =>
          if decide (id = run_id) then
            (None,
             Some {| rd_run_id := rd_run_id rd;
                     rd_status := CANCELLED;
                     rd_started_at := rd_started_at rd;
                     rd_job_data := rd_job_data rd;
                     rd_completed_at := rd_completed_at rd;
                     rd_cancelled_at := Some now |})
          else (active_runs rm !! run_id, completed_runs rm !! run_id)
      | None => (active_runs rm !! run_id, completed_runs rm !! run_id)
      end
  | OpRegister _ _ | OpUnregister _ =>
      (active_runs rm !! run_id, completed_runs rm !! run_id)
  end.

(** ** Hub *)

(** The event of one [send_json] on socket [ws] in world [w]. *)
Definition send_event ws m w : event :=
  if usable ws w then EvSend ws m else EvSendFail ws m.

(** A message that is not the cancellation signal and does not make the
    test for it raise. *)
Definition plain m : bool :=
  match close_signal m with Some false => true | _ => false end.

(** The cancellation signal: [run_cancelled] with
    [action = close_connection]. *)
Definition closing m : bool :=
  match close_signal m with Some true => true | _ => false end.

(** The hub once the connection set of [run_id] has become [s]: an empty
    set takes the activity clock and the buffer of the run with it. *)
Definition drop_viewers run_id (s : gset nat) h : WebSocketManager :=
  {| IDLE_TIMEOUT_SECONDS := IDLE_TIMEOUT_SECONDS h;
     _conns := <[run_id := s]> (_conns h);
     _buffers :=
       if bool_decide (s = ∅) then delete run_id (_buffers h) else _buffers h;
     _last_activity :=
       if bool_decide (s = ∅) then delete run_id (_last_activity h)
       else _last_activity h;
     _run_manager := _run_manager h |}.

(** The hub after the first two statements of [send_log]. *)
Definition stamp_and_buffer run_id m now h : WebSocketManager :=
  {| IDLE_TIMEOUT_SECONDS := IDLE_TIMEOUT_SECONDS h;
     _conns := _conns h;
     _buffers :=
       <[run_id := deque_append MAX_BUFFER (default [] (_buffers h !! run_id)) m]>
         (_buffers h);
     _last_activity := <[run_id := now]> (_last_activity h);
     _run_manager := _run_manager h |}.

(** The sockets of [s] that leave the set during the broadcast of [m]. *)
Definition leavers m w (s : gset nat) : list nat :=
  List.filter (fun ws => negb (usable ws w && plain m)) (elements s).

(** The world after the loop of [send_log] over the sockets [l]. *)
Definition after_delivery m w (l : list nat) : World :=
  {| failing := failing w; closed := closed w;
     pending :=
       pending w
       ++ (if closing m then List.filter (fun ws => usable ws w) l else []);
     trace := trace w ++ List.map (fun ws => send_event ws m w) l |}.

(** The last [n] items of a list. *)
Definition last_n {A : Type} (n : nat) (l : list A) : list A :=
  drop (length l - n) l.

(** Broadcasts made one after the other, one clock tick apart. *)
Fixpoint send_logs run_id (msgs : list message) now h w
    : WebSocketManager * World :=
  match msgs with
  | [] => (h, w)
  | m :: rest =>
      let '(h1, w1) := send_log run_id m now h w in
      send_logs run_id rest (now + 1) h1 w1
  end.

(** No broadcast of [msgs] can empty the connection set of the run: the
    run has no viewer at all, or it has one on a working socket and every
    message is a plain one. *)
Definition viewers_stay run_id (msgs : list message) h w : Prop :=
  match _conns h !! run_id with
  | None => True
  | Some s =>
      s = ∅
      ∨ (Forall (fun m => plain m = true) msgs
         ∧ ∃ ws, ws ∈ s ∧ usable ws w = true)
  end.

(** An ordinary output message carrying a number. *)
Definition numbered (n : Z) : message :=
  [("type", JStr "log"); ("data", JInt n)].

(** The [n] messages numbered [a], [a + 1], ... *)
Definition numbered_from_to (a n : nat) : list message :=
  List.map (fun i => numbered (Z.of_nat i)) (seq a n).

(** The socket is in no connection set: it has not been connected. *)
Definition unconnected ws h : Prop :=
  ∀ run_id, ws ∉ default (∅ : gset nat) (_conns h !! run_id).

(** No task broadcasts to the run. *)
Definition spares run_id (bs : list broadcast) : Prop :=
  mutates run_id bs = false.

(** The hub after a [connect] that ran to its end. *)
Definition joined run_id ws now h : WebSocketManager :=
  {| IDLE_TIMEOUT_SECONDS := IDLE_TIMEOUT_SECONDS h;
     _conns := <[run_id := {[ws]} ∪ default ∅ (_conns h !! run_id)]> (_conns h);
     _buffers := <[run_id := default [] (_buffers h !! run_id)]> (_buffers h);
     _last_activity := <[run_id := now]> (_last_activity h);
     _run_manager := _run_manager h |}.

(** The process with another registry in place of its own. *)
Definition with_run_manager (rm : RunManager) (sys : System) : System :=
  {| run_manager := rm; ws_manager := ws_manager sys;
     input_queues := input_queues sys; world := world sys |}.


(** [h'] differs from [h] at most in the entries of [run_id]. *)
Definition hub_frame run_id h h' : Prop :=
  IDLE_TIMEOUT_SECONDS h' = IDLE_TIMEOUT_SECONDS h
  ∧ _run_manager h' = _run_manager h
  ∧ ∀ other, other ≠ run_id →
      _conns h' !! other = _conns h !! other
      ∧ _last_activity h' !! other = _last_activity h !! other
      ∧ _buffers h' !! other = _buffers h !! other.

(** The world after the sockets [l], all open, were closed in turn. *)
Definition after_closing reason w (l : list nat) : World :=
  {| failing := failing w; closed := list_to_set l ∪ closed w;
     pending := pending w;
     trace := trace w ++ List.map (fun ws => EvClose ws 1001 reason) l |}.

(** ** Process *)

(** The signal [cancel_run] sends for the run, if a pid is registered. *)
Definition kill_events (rm : RunManager) run_id : list event :=
  match process_pids rm !! run_id with
  | Some pid => [EvKill pid]
  | None => []
  end.

(** The notice the monitor broadcasts for the entry [r] of [idle_runs]. *)
Definition idle_notice sys (r : string * Q) : message :=
  idle_timeout_message (IDLE_TIMEOUT_SECONDS (ws_manager sys)) (snd r) (fst r).

(** The connection set of the run, empty when the run has none. *)
Definition viewers sys run_id : gset nat :=
  default ∅ (_conns (ws_manager sys) !! run_id).

(** The viewers of the run on which the send of [msg] succeeds. *)
Definition takers sys run_id (msg : message) : gset nat :=
  viewers sys run_id
  ∖ list_to_set (leavers msg (world sys) (viewers sys run_id)).

(** What [cancel_idle_run] appends to the trace. *)
Definition idle_run_events sys (r : string * Q) : list event :=
  List.map (fun ws => send_event ws (idle_notice sys r) (world sys))
    (elements (viewers sys (fst r)))
  ++ (if _run_manager (ws_manager sys)
      then EvCancelRun (fst r) :: kill_events (run_manager sys) (fst r)
      else [])
  ++ List.map (fun ws => EvClose ws 1001 "Idle timeout")
       (elements (takers sys (fst r) (idle_notice sys r))).

(** Run "x" is active with pid 42 and has the viewers 3 and 4, run "z"
    is unknown to the registry and has the viewer 5; all joined at time 1
    (in microseconds).  The timeout is 600 s and the monitor runs at
    700 s. *)
Definition idle_example : System :=
  let sys0 := new_system 1 600 in
  let rm := register_process "x" 42 (snd (add_run "x" [] 0 (run_manager sys0))) in
  let sys1 := with_run_manager rm sys0 in
  let sys2 := snd (run_logs_ws_connect "x" 3 1 sys1) in
  let sys3 := snd (run_logs_ws_connect "x" 4 1 sys2) in
  snd (run_logs_ws_connect "z" 5 1 sys3).

End Notions.

(** * The rest of the registry and its callers *)

(** ** [get_system_status] *)

Record active_info : Type := ActiveInfo {
  ai_run_id : string;
  ai_status : RunStatus;
  ai_started_at : Z;
  ai_github_url : option json
}.

Record completed_info : Type := CompletedInfo {
  ci_run_id : string;
  ci_status : RunStatus;
  ci_completed_at : option Z;
  ci_github_url : option json
}.

Record system_status : Type := SystemStatus {
  ss_max_concurrent : Z;
  ss_active_runs_count : nat;
  ss_available_slots : Z;
  ss_system_status : string;
  ss_active_runs : list active_info;
  ss_recent_completed : list completed_info
}.

(** The sort key [x[1].get("completed_at", "")].  The source compares the
    ISO strings of the time stamps; the empty string of a run without
    [completed_at] is below each of them, and so is [None] here. *)
Definition completed_key (e : string * run_data) : option Z :=
  rd_completed_at (snd e).

Definition key_le (a b : option Z) : bool :=
  match a, b with
  | None, _ => true
  | Some _, None => false
  | Some x, Some y => x <=? y
  end.

(** [sorted(..., key=..., reverse=True)]: a stable sort, largest key
    first; of two entries with the same key the earlier one stays first. *)
Fixpoint insert_desc (x : string * run_data) (l : list (string * run_data))
    : list (string * run_data) :=
  match l with
  | [] => [x]
  | y :: rest =>
      if key_le (completed_key y) (completed_key x) then x :: y :: rest
      else y :: insert_desc x rest
  end.

Definition sorted_desc (l : list (string * run_data)) : list (string * run_data) :=
  foldr insert_desc [] l.

Definition get_system_status (rm : RunManager) : system_status :=
  {| ss_max_concurrent := max_concurrent rm;
     ss_active_runs_count := size (active_runs rm);
     ss_available_slots := max_concurrent rm - Z.of_nat (size (active_runs rm));
     ss_system_status :=
       if max_concurrent rm <=? Z.of_nat (size (active_runs rm))
       then "at_capacity" else "available";
     ss_active_runs :=
       List.map
         (fun e =>
            {| ai_run_id := fst e; ai_status := rd_status (snd e);
               ai_started_at := rd_started_at (snd e);
               ai_github_url := dict_get "github_url" (rd_job_data (snd e)) |})
         (map_to_list (active_runs rm));
     ss_recent_completed :=
       List.map
         (fun e =>
            {| ci_run_id := fst e; ci_status := rd_status (snd e);
               ci_completed_at := rd_completed_at (snd e);
               ci_github_url := dict_get "github_url" (rd_job_data (snd e)) |})
         (take 5 (sorted_desc (map_to_list (completed_runs rm)))) |}.

(** ** Signals: [is_process_running] and [kill_process] in full

    What the operating system answers to [os.kill] is not in the source:
    [os_kill history pid sig] tells whether the call returns ([true]) or
    raises [OSError] ([false]), given what was done before. *)

Module Os.

Inductive signal : Type := SIGTERM | SIGKILL | SIG0.

Inductive os_event : Type :=
  | Kill (pid : Z) (sig : signal) (delivered : bool)
  | Sleep.

Section Oracle.

Variable os_kill : list os_event → Z → signal → bool.

(** [is_process_running]: the answer and the history afterwards. *)
Definition is_process_running (pid : Z) (history : list os_event)
    : bool * list os_event :=
  let ok := os_kill history pid SIG0 in
  (ok, history ++ [Kill pid SIG0 ok]).

(** The polling loop of [kill_process] with [n] rounds left; [true] when
    the loop ran out with the process still there. *)
Fixpoint wait_for_exit (n : nat) (pid : Z) (history : list os_event)
    : bool * list os_event :=
  match n with
  | O => (true, history)
  | S n' =>
      let '(running, h1) := is_process_running pid history in
      if running then wait_for_exit n' pid (h1 ++ [Sleep])
      else (false, h1)
  end.

(** [kill_process(pid, timeout)]: the value returned and the history. *)
Definition kill_process (pid : Z) (timeout : Z) (history : list os_event)
    : bool * list os_event :=
  let ok := os_kill history pid SIGTERM in
  let h1 := history ++ [Kill pid SIGTERM ok] in
  if ok then
    let '(still_there, h2) := wait_for_exit (Z.to_nat (timeout * 10)) pid h1 in
    if still_there then
      (true, h2 ++ [Kill pid SIGKILL (os_kill h2 pid SIGKILL)])
    else (true, h2)
  else (true, h1).

End Oracle.

End Os.

(** ** Orphans of an earlier session, start and stop of the service *)

(** One round of the loop of [load_orphaned_pids]; [running] is the answer
    of [is_process_running] given the events so far. *)
Definition reap_orphan (running : list event → Z → bool) (evs : list event)
    (entry : string * Z) : list event :=
  if running evs (snd entry) then evs ++ snd (kill_process (snd entry))
  else evs.

(** [load_orphaned_pids].  [readable] tells whether opening and parsing
    the file succeed; when they do not, the exception is swallowed and the
    file stays. *)
Definition load_orphaned_pids (readable : bool)
    (running : list event → Z → bool) (rm : RunManager)
    : RunManager * list event :=
  match pid_file rm with
  | Some orphaned_pids =>
      if readable then
        ({| max_concurrent := max_concurrent rm;
            active_runs := active_runs rm;
            completed_runs := completed_runs rm;
            process_pids := process_pids rm;
            pid_file := None |},
         fold_left (reap_orphan running) (map_to_list orphaned_pids) [])
      else (rm, [])
  | None => (rm, [])
  end.

(** [RunManager.__init__] in a directory where the pid file holds [file]. *)
Definition init_run_manager (c : Z) (file : option (gmap string Z))
    (readable : bool) (running : list event → Z → bool)
    : RunManager * list event :=
  load_orphaned_pids readable running
    {| max_concurrent := c; active_runs := ∅; completed_runs := ∅;
       process_pids := ∅; pid_file := file |}.

(** The part of [lifespan] that runs when the service stops: every
    registered process is killed and the pid file removed. *)
Definition shutdown (sys : System) : System :=
  let rm := run_manager sys in
  let evs :=
    List.flat_map (fun e => snd (kill_process (snd e)))
      (map_to_list (process_pids rm)) in
  {| run_manager :=
       {| max_concurrent := max_concurrent rm;
          active_runs := active_runs rm;
          completed_runs := completed_runs rm;
          process_pids := process_pids rm;
          pid_file := None |};
     ws_manager := ws_manager sys;
     input_queues := input_queues sys;
     world := emit evs (world sys) |}.

(** ** Starting a run and its completion *)

(** The answer of [POST /runs/{run_id}]: the status code. *)
Definition start_run (run_id : string) (job : message) (now : Z) (sys : System)
    : Z * add_result * System :=
  let '(result, rm1) := add_run run_id job now (run_manager sys) in
  match result with
  | Started _ =>
      (202, result,
       {| run_manager := rm1; ws_manager := ws_manager sys;
          input_queues := {[run_id]} ∪ input_queues sys;
          world := world sys |})
  | AtCapacity _ =>
      (503, result,
       {| run_manager := rm1; ws_manager := ws_manager sys;
          input_queues := input_queues sys; world := world sys |})
  end.

(** Python's truth value of a JSON value. *)
Definition truthy (v : json) : bool :=
  match v with
  | JNull => false
  | JBool b => b
  | JInt n => negb (n =? 0)
  | JNum q => negb (Qnum q =? 0)
  | JStr s => negb (String.eqb s "")
  | JArr l => match l with [] => false | _ => true end
  | JObj d => match d with [] => false | _ => true end
  end.

(** What the awaited [launch_mas_interactive] came back with: an
    exception that [except Exception] catches, an exception that it does
    not catch (a [BaseException] such as [asyncio.CancelledError], raised
    when the task is cancelled), or a dictionary of which the keys [pid]
    and [success] are read. *)
Inductive launch_outcome : Type :=
  | LaunchRaised
  | LaunchCancelled
  | LaunchReturned (pid : option Z) (success : option json).

(** [run_with_completion] from the return of the launch on: the pid is
    registered if there is one, then unregistered, the run is completed
    and its input queue removed.  The local variable [success] is bound
    in the [try] and in the [except] clause; when neither got that far
    ([None]), the [finally] clause unregisters the pid and then raises
    [UnboundLocalError] on reading [success], before [complete_run] and
    before the input queue is removed. *)
Definition run_with_completion (run_id : string) (outcome : launch_outcome)
    (now : Z) (sys : System) : System :=
  let '(rm1, success) :=
    match outcome with
    | LaunchRaised => (run_manager sys, Some false)
    | LaunchCancelled => (run_manager sys, None)
    | LaunchReturned pid success =>
        (match pid with
         | Some p => register_process run_id p (run_manager sys)
         | None => run_manager sys
         end,
         Some match success with
              | Some v => truthy v
              | None => false
              end)
    end in
  let rm2 := unregister_process run_id rm1 in
  match success with
  | Some success =>
      {| run_manager := complete_run run_id success now rm2;
         ws_manager := ws_manager sys;
         input_queues := input_queues sys ∖ {[run_id]}; world := world sys |}
  | None =>
      {| run_manager := rm2; ws_manager := ws_manager sys;
         input_queues := input_queues sys; world := world sys |}
  end.

(** * The rest of the hub, the endpoints, and further notions *)

(** The pid file holds what the pid table holds; before the first write
    there is no file and the table is empty. *)
Definition pid_file_current (rm : RunManager) : Prop :=
  pid_file rm = Some (process_pids rm)
  ∨ (pid_file rm = None ∧ process_pids rm = ∅).

(** Later in the list means not completed later. *)
Definition not_later (a b : completed_info) : Prop :=
  key_le (ci_completed_at b) (ci_completed_at a) = true.

(** [n] rounds of the polling loop that found the process running. *)
Definition rounds (n : nat) (pid : Z) : list Os.os_event :=
  List.concat (replicate n [Os.Kill pid Os.SIG0 true; Os.Sleep]).

(** Whether the launch counts as a success for [complete_run]. *)
Definition launch_succeeded (outcome : launch_outcome) : bool :=
  match outcome with
  | LaunchReturned _ (Some v) => truthy v
  | _ => false
  end.

(** The order of the sorted list of completed runs: the later entry was
    not completed later. *)
Definition desc (x y : string * run_data) : Prop :=
  key_le (completed_key y) (completed_key x) = true.

(** ** [get_idle_status] *)

Record idle_info : Type := IdleInfo {
  ii_last_activity : Z;
  ii_idle_seconds : Q;
  ii_will_timeout_in : Q;
  ii_connection_count : nat
}.

(** [max(0, self.IDLE_TIMEOUT_SECONDS - idle_duration)]: [max] gives its
    first argument unless the second is greater. *)
Definition will_timeout_in (timeout : Z) (idle : Q) : Q :=
  let remaining := (inject_Z timeout - idle)%Q in
  if Qle_bool remaining 0 then 0%Q else remaining.

Definition get_idle_status (now : Z) (h : WebSocketManager)
    : gmap string idle_info :=
  map_imap
    (fun run_id last_activity =>
       Some {| ii_last_activity := last_activity;
               ii_idle_seconds := idle_duration now last_activity;
               ii_will_timeout_in :=
                 will_timeout_in (IDLE_TIMEOUT_SECONDS h)
                   (idle_duration now last_activity);
               ii_connection_count :=
                 size (default (∅ : gset nat) (_conns h !! run_id)) |})
    (_last_activity h).

(** ** The endpoint [/ws/{run_id}] after [connect]

    One turn of the loop of [run_logs_ws] takes the text received from
    the client; [parsed] is what [json.loads] makes of it, [None] when it
    raises [JSONDecodeError].  Which exception a failed [send_json]
    raises is left open ([send_failure]). *)

Inductive exn : Type := WebSocketDisconnect | OtherException.

Inductive loop_step : Type :=
  | Continue
  | Raised (e : exn).

Definition error_message (text : string) : message :=
  [("type", JStr "error"); ("data", JStr text)].

Definition pong : message := [("type", JStr "pong")].

Definition with_hub_world (h : WebSocketManager) (w : World) (sys : System)
    : System :=
  {| run_manager := run_manager sys; ws_manager := h;
     input_queues := input_queues sys; world := w |}.

(** [await ws.send_json(m)] inside the loop. *)
Definition reply (send_failure : exn) (ws : nat) (m : message)
    (h : WebSocketManager) (sys : System) : loop_step * System :=
  let '(ok, w1) := ws_send_json ws m (world sys) in
  (if ok then Continue else Raised send_failure, with_hub_world h w1 sys).

(** The body of the loop: how the turn ends, the value put on the input
    queue of the run if any, and the state. *)
Definition on_text (send_failure : exn) (run_id : string) (ws : nat) (now : Z)
    (parsed : option json) (sys : System) : loop_step * option json * System :=
  let h1 := receive_activity run_id now (ws_manager sys) in
  match parsed with
  | None =>
      let '(step, sys1) :=
        reply send_failure ws (error_message "Invalid JSON message") h1 sys in
      (step, None, sys1)
  | Some (JObj d) =>
      if get_is_str "type" d "input" then
        if bool_decide (run_id ∈ input_queues sys) then
          (Continue, Some (default (JStr "") (dict_get "data" d)),
           with_hub_world h1 (world sys) sys)
        else
          let '(step, sys1) :=
            reply send_failure ws
              (error_message "Run not found or not ready for input") h1 sys in
          (step, None, sys1)
      else if get_is_str "type" d "ping" then
        let '(step, sys1) := reply send_failure ws pong h1 sys in
        match step with
        | Continue =>
            (Continue, None,
             with_hub_world (receive_activity run_id now (ws_manager sys1))
               (world sys1) sys1)
        | Raised e => (Raised e, None, sys1)
        end
      else (Continue, None, with_hub_world h1 (world sys) sys)
  | Some _ => (Raised OtherException, None, with_hub_world h1 (world sys) sys)
  end.

(** The two [except] clauses of [run_logs_ws]. *)
Definition on_exception (e : exn) (run_id : string) (ws : nat) (sys : System)
    : System :=
  let h1 := disconnect run_id ws (ws_manager sys) in
  let no_viewer :=
    match _conns h1 !! run_id with
    | None => true
    | Some s => bool_decide (s = ∅)
    end in
  {| run_manager := run_manager sys; ws_manager := h1;
     input_queues :=
       match e with
       | WebSocketDisconnect =>
           if bool_decide (run_id ∈ input_queues sys) && no_viewer
           then input_queues sys ∖ {[run_id]} else input_queues sys
       | OtherException => input_queues sys
       end;
     world := world sys |}.

(** One text from the client: whether the handler goes on, the value put
    on the input queue, and the state. *)
Definition client_text (send_failure : exn) (run_id : string) (ws : nat)
    (now : Z) (parsed : option json) (sys : System)
    : bool * option json * System :=
  let '(step, put, sys1) := on_text send_failure run_id ws now parsed sys in
  match step with
  | Continue => (true, put, sys1)
  | Raised e => (false, put, on_exception e run_id ws sys1)
  end.

(** The client has gone: [receive_text] raises [WebSocketDisconnect]. *)
Definition client_left (run_id : string) (ws : nat) (sys : System) : System :=
  on_exception WebSocketDisconnect run_id ws sys.

(** ** The service as a whole

    What happens to the process between two scheduling points: a request
    on one of the endpoints, a text from a client, the end of a launch, a
    message broadcast by the launcher, a cycle of the monitor, a turn of
    the event loop for the close tasks, or the loss of a peer. *)

Inductive server_op : Type :=
  | DoStartRun (run_id : string) (job : message)
  | DoCompletion (run_id : string) (outcome : launch_outcome)
  | DoCancel (run_id : string)
  | DoConnect (run_id : string) (ws : nat)
  | DoClientText (run_id : string) (ws : nat) (parsed : option json)
  | DoClientLeft (run_id : string) (ws : nat)
  | DoBroadcast (run_id : string) (m : message)
  | DoMonitor
  | DoLoopTurn
  | DoPeerGone (ws : nat).

Definition peer_gone (ws : nat) (sys : System) : System :=
  let w := world sys in
  {| run_manager := run_manager sys; ws_manager := ws_manager sys;
     input_queues := input_queues sys;
     world := {| failing := {[ws]} ∪ failing w; closed := closed w;
                 pending := pending w; trace := trace w |} |}.

Definition server_step (send_failure : exn) (now : Z) (op : server_op)
    (sys : System) : System :=
  match op with
  | DoStartRun run_id job => snd (start_run run_id job now sys)
  | DoCompletion run_id outcome => run_with_completion run_id outcome now sys
  | DoCancel run_id => snd (cancel_run_endpoint run_id now sys)
  | DoConnect run_id ws => snd (run_logs_ws_connect run_id ws now sys)
  | DoClientText run_id ws parsed =>
      snd (client_text send_failure run_id ws now parsed sys)
  | DoClientLeft run_id ws => client_left run_id ws sys
  | DoBroadcast run_id m =>
      let '(h1, w1) := send_log run_id m now (ws_manager sys) (world sys) in
      with_hub_world h1 w1 sys
  | DoMonitor => monitor_cycle now sys
  | DoLoopTurn => event_loop_turn sys
  | DoPeerGone ws => peer_gone ws sys
  end.

(** The [i]-th step happens at clock value [now + i]. *)
Fixpoint server_run (send_failure : exn) (now : Z) (ops : list server_op)
    (sys : System) : System :=
  match ops with
  | [] => sys
  | op :: rest =>
      server_run send_failure (now + 1) rest (server_step send_failure now op sys)
  end.

(** The event of one [close] on socket [ws] in world [w]. *)
Definition close_event (ws : nat) (reason : string) (w : World) : event :=
  if usable ws w then EvClose ws 1001 reason else EvCloseFail ws 1001 reason.

Definition is_kill (e : event) : bool :=
  match e with EvKill _ => true | _ => false end.

(** No process is sent a signal in the events [tr]. *)
Definition no_signal (tr : list event) : Prop := ∀ pid, EvKill pid ∉ tr.

(** What holds of the service between two steps. *)
Definition between_steps (c : Z) (sys : System) : Prop :=
  max_concurrent (run_manager sys) = c
  ∧ process_pids (run_manager sys) = ∅
  ∧ (pid_file (run_manager sys) = None ∨ pid_file (run_manager sys) = Some ∅)
  ∧ Z.of_nat (size (active_runs (run_manager sys))) ≤ Z.max 0 c
  ∧ no_signal (trace (world sys)).

(** ** The hub of ws_manager_cancel_run.py

    An earlier [WebSocketManager]: connection sets and buffers, no
    activity clock.  Its [send_log] stores nothing in the buffer.  The
    module does not import [asyncio], so the call
    [asyncio.create_task(...)] in [send_log] raises [NameError] before a
    close task exists; the [except Exception] clause catches it and the
    socket is appended to [disconnected]. *)

Module CancelRun.

Record WebSocketManager : Type := MkWebSocketManager {
  _conns : gmap string (gset nat);
  _buffers : gmap string (list message)
}.

Definition new_ws_manager : WebSocketManager :=
  {| _conns := ∅; _buffers := ∅ |}.

(** [connect]; the boolean is [false] when an exception left the method. *)
Definition connect (run_id : string) (ws : nat) (h : WebSocketManager)
    (w : World) : bool * WebSocketManager * World :=
  let '(ok, w1) := ws_accept ws w in
  if negb ok then (false, h, w1) else
  let h1 :=
    {| _conns := <[run_id := {[ws]} ∪ default ∅ (_conns h !! run_id)]> (_conns h);
       _buffers := _buffers h |} in
  let '(ok, w2) := ws_send_json ws (connection_ack run_id) w1 in
  if negb ok then (false, h1, w2) else
  let backlog := default [] (_buffers h1 !! run_id) in
  let h2 :=
    {| _conns := _conns h1;
       _buffers := <[run_id := backlog]> (_buffers h1) |} in
  let '(ok, w3) := send_each ws backlog w2 in
  (ok, h2, w3).

Definition disconnect (run_id : string) (ws : nat) (h : WebSocketManager)
    : WebSocketManager :=
  {| _conns := <[run_id := default ∅ (_conns h !! run_id) ∖ {[ws]}]> (_conns h);
     _buffers := _buffers h |}.

(** The body of the loop of [send_log] for one socket: the answer tells
    whether the socket was appended to [disconnected]. *)
Definition deliver (ws : nat) (m : message) (w : World) : bool * World :=
  let '(ok, w1) := ws_send_json ws m w in
  if ok then
    match close_signal m with
    | Some true => (true, w1)     (* [NameError] at [asyncio.create_task] *)
    | Some false => (false, w1)
    | None => (true, w1)
    end
  else (true, w1).

Fixpoint deliver_all (m : message) (l : list nat) (w : World)
    : list nat * World :=
  match l with
  | [] => ([], w)
  | ws :: rest =>
      let '(gone, w1) := deliver ws m w in
      let '(d, w2) := deliver_all m rest w1 in
      (if gone then ws :: d else d, w2)
  end.

Definition send_log (run_id : string) (m : message) (h : WebSocketManager)
    (w : World) : WebSocketManager * World :=
  match _conns h !! run_id with
  | Some s =>
      let '(disconnected, w1) := deliver_all m (elements s) w in
      (fold_left (fun h' ws => disconnect run_id ws h') disconnected h, w1)
  | None => (h, w)
  end.

(** Calls on the hub, run in order. *)
Inductive hub_op : Type :=
  | Connect (run_id : string) (ws : nat)
  | Disconnect (run_id : string) (ws : nat)
  | SendLog (run_id : string) (m : message).

Definition hub_step (op : hub_op) (st : WebSocketManager * World)
    : WebSocketManager * World :=
  match op with
  | Connect run_id ws =>
      let '(_, h1, w1) := connect run_id ws (fst st) (snd st) in (h1, w1)
  | Disconnect run_id ws => (disconnect run_id ws (fst st), snd st)
  | SendLog run_id m => send_log run_id m (fst st) (snd st)
  end.

Definition hub_run (ops : list hub_op) (st : WebSocketManager * World)
    : WebSocketManager * World :=
  fold_left (fun st' op => hub_step op st') ops st.

End CancelRun.

(** A close or a failed close. *)
Definition is_close (e : event) : bool :=
  match e with EvClose _ _ _ | EvCloseFail _ _ _ => true | _ => false end.

(** ** The repository-analysis endpoints (main.py)

    The functions of [models.db] are not part of the sources at hand.
    Each endpoint is given what its calls of them come back with ([None]
    when the call raises) and answers with its response and the calls it
    made, in order. *)

Inductive http_answer : Type :=
  | JSONResponse (status_code : Z) (content : message)
  | HTTPException (status_code : Z).

Definition status_code_of (a : http_answer) : Z :=
  match a with
  | JSONResponse c _ => c
  | HTTPException c => c
  end.

Record RepositoryAnalysisRequest : Type := MkRepositoryAnalysisRequest {
  repository_url : string;
  project_description : string;
  environment : string;
  user_id : option string;
  reference_files : option (list string)
}.

Record RepositoryUpdateRequest : Type := MkRepositoryUpdateRequest {
  upd_repository_url : option string;
  upd_project_description : option string;
  upd_environment : option string;
  upd_reference_files : option (list string)
}.

Inductive db_call : Type :=
  | CreateRepositoryAnalysis (repository_url project_description
                              environment : string)
                             (user_id : option string)
                             (reference_files : option (list string))
  | GetRepositoryAnalysis (run_id : string)
  | UpdateAnalysisStatus (run_id : string) (status : json) (update_data : message)
  | ListUserAnalyses (user_id : string) (limit : Z)
  | DeleteRepositoryAnalysis (run_id : string).

(** [environment not in ["local", "testnet"]] *)
Definition unknown_environment (e : string) : bool :=
  negb (String.eqb e "local" || String.eqb e "testnet").

(** [POST /api/repository-analysis].  The [HTTPException] with code 400
    is raised inside the [try] and caught by its [except Exception]. *)
Definition create_repository_analysis_endpoint
    (request : RepositoryAnalysisRequest) (created : option message)
    : http_answer * list db_call :=
  if unknown_environment (environment request) then (HTTPException 500, [])
  else
    let calls :=
      [CreateRepositoryAnalysis (repository_url request)
         (project_description request) (environment request)
         (user_id request) (reference_files request)] in
    match created with
    | None => (HTTPException 500, calls)
    | Some analysis_record =>
        match dict_get "run_id" analysis_record with
        | None => (HTTPException 500, calls)            (* [KeyError] *)
        | Some run_id =>
            (JSONResponse 201
               [("success", JBool true);
                ("run_id", run_id);
                ("message", JStr "Repository analysis created successfully");
                ("data", JObj analysis_record)],
             calls)
        end
    end.

(** [not analysis] for what [get_repository_analysis] returned: [None]
    or an empty dictionary. *)
Definition no_analysis (analysis : option message) : bool :=
  match analysis with
  | Some (_ :: _) => false
  | _ => true
  end.

Definition json_of_analysis (analysis : option message) : json :=
  match analysis with
  | Some a => JObj a
  | None => JNull
  end.

(** [GET /api/repository-analysis/{run_id}] *)
Definition get_repository_analysis_endpoint (run_id : string)
    (found : option (option message)) : http_answer * list db_call :=
  let calls := [GetRepositoryAnalysis run_id] in
  match found with
  | None => (HTTPException 500, calls)
  | Some analysis =>
      if no_analysis analysis then (HTTPException 404, calls)
      else
        (JSONResponse 200
           [("success", JBool true); ("data", json_of_analysis analysis)],
         calls)
  end.

(** [str.split(sep)] for a separator of one character. *)
Fixpoint split (sep : Ascii.ascii) (s : string) : list string :=
  match s with
  | EmptyString => [EmptyString]
  | String c rest =>
      if Ascii.eqb c sep then EmptyString :: split sep rest
      else
        match split sep rest with
        | x :: xs => String c x :: xs
        | [] => [String c EmptyString]
        end
  end.

(** [repo["repository_url"].split("/")[-1] if repo["repository_url"]
    else "Unknown"]; [None] is the [AttributeError] of a value that is
    true and not a string. *)
Definition repository_name (url : json) : option string :=
  if truthy url then
    match url with
    | JStr s => Some (List.last (split "/"%char s) EmptyString)
    | _ => None
    end
  else Some "Unknown".

(** The dictionary appended to [formatted_repos]; [None] is a
    [KeyError] or the [AttributeError] of [repository_name]. *)
Definition format_repo (repo : message) : option message :=
  match dict_get "repository_url" repo with
  | None => None
  | Some url =>
      match repository_name url, dict_get "run_id" repo,
            dict_get "environment" repo, dict_get "status" repo,
            dict_get "created_at" repo, dict_get "updated_at" repo with
      | Some repo_name, Some run_id, Some env, Some status,
        Some created_at, Some updated_at =>
          Some [("run_id", run_id);
                ("repository_url", url);
                ("repository_name", JStr repo_name);
                ("environment", env);
                ("status", status);
                ("created_at", created_at);
                ("updated_at", updated_at)]
      | _, _, _, _, _, _ => None
      end
  end.

(** The loop over [repositories]: the first row that raises ends it. *)
Fixpoint format_repos (repositories : list message) : option (list message) :=
  match repositories with
  | [] => Some []
  | repo :: rest =>
      match format_repo repo with
      | None => None
      | Some f =>
          match format_repos rest with
          | None => None
          | Some fs => Some (f :: fs)
          end
      end
  end.

(** [GET /api/my-repositories] *)
Definition get_my_repositories (user_id : string) (limit : Z)
    (listed : option (list message)) : http_answer * list db_call :=
  let calls := [ListUserAnalyses user_id limit] in
  match listed with
  | None => (HTTPException 500, calls)
  | Some repositories =>
      match format_repos repositories with
      | None => (HTTPException 500, calls)
      | Some formatted_repos =>
          (JSONResponse 200
             [("success", JBool true);
              ("data", JArr (List.map JObj formatted_repos))],
           calls)
      end
  end.

(** The dictionary [update_data]; [None] is the [HTTPException] with
    code 400 for an unknown environment. *)
Definition update_data_of (request : RepositoryUpdateRequest) : option message :=
  let url :=
    match upd_repository_url request with
    | Some u => [("repository_url", JStr u)]
    | None => []
    end in
  let description :=
    match upd_project_description request with
    | Some d => [("project_description", JStr d)]
    | None => []
    end in
  let files :=
    match upd_reference_files request with
    | Some l => [("reference_files", JArr (List.map JStr l))]
    | None => []
    end in
  match upd_environment request with
  | Some e =>
      if unknown_environment e then None
      else Some (url ++ description ++ [("environment", JStr e)] ++ files)
  | None => Some (url ++ description ++ files)
  end.

(** [PUT /api/repository-analysis/{run_id}]: [found] is the answer of
    the first [get_repository_analysis], [updated] tells whether
    [update_analysis_status] returned, [found_again] is the answer of the
    second [get_repository_analysis]. *)
Definition update_repository_analysis_endpoint (run_id : string)
    (request : RepositoryUpdateRequest) (found : option (option message))
    (updated : bool) (found_again : option (option message))
    : http_answer * list db_call :=
  let get := GetRepositoryAnalysis run_id in
  match found with
  | None => (HTTPException 500, [get])
  | Some existing =>
      if no_analysis existing then (HTTPException 404, [get])
      else
        match update_data_of request with
        | None => (HTTPException 400, [get])
        | Some update_data =>
            match dict_get "status" (default [] existing) with
            | None => (HTTPException 500, [get])        (* [KeyError] *)
            | Some status =>
                let update := UpdateAnalysisStatus run_id status update_data in
                if negb updated then (HTTPException 500, [get; update])
                else
                  match found_again with
                  | None => (HTTPException 500, [get; update; get])
                  | Some updated_analysis =>
                      (JSONResponse 200
                         [("success", JBool true);
                          ("message",
                           JStr "Repository analysis updated successfully");
                          ("data", json_of_analysis updated_analysis)],
                       [get; update; get])
                  end
            end
        end
  end.

(** [DELETE /api/repository-analysis/{run_id}]: [deleted] is the truth
    value of what [delete_repository_analysis] returned. *)
Definition delete_repository_analysis_endpoint (run_id : string)
    (found : option (option message)) (deleted : option bool)
    : http_answer * list db_call :=
  let get := GetRepositoryAnalysis run_id in
  match found with
  | None => (HTTPException 500, [get])
  | Some existing =>
      if no_analysis existing then (HTTPException 404, [get])
      else
        let calls := [get; DeleteRepositoryAnalysis run_id] in
        match deleted with
        | None => (HTTPException 500, calls)
        | Some false => (HTTPException 500, calls)
        | Some true =>
            (JSONResponse 200
               [("success", JBool true);
                ("message", JStr "Repository analysis deleted successfully")],
             calls)
        end
  end.

(** The text has no [sep] in it. *)
Fixpoint free_of (sep : Ascii.ascii) (s : string) : bool :=
  match s with
  | EmptyString => true
  | String c rest => negb (Ascii.eqb c sep) && free_of sep rest
  end.

(** The text is empty or ends with [sep]. *)
Fixpoint closed_by (sep : Ascii.ascii) (s : string) : bool :=
  match s with
  | EmptyString => true
  | String c EmptyString => Ascii.eqb c sep
  | String _ rest => closed_by sep rest
  end.

(** * Properties of the run registry *)

Section Registry.

Implicit Types (rm : RunManager) (run_id : string) (now : Z).

Lemma rm_step_max_concurrent now op rm :
  max_concurrent (rm_step now op rm) = max_concurrent rm.
Proof.
  destruct op as [id job|id ok|id|id pid|id]; simpl.
  - unfold add_run. by destruct (_ <? _).
  - unfold complete_run. by destruct (active_runs rm !! id).
  - unfold cancel_run, unregister_process.
    destruct (process_pids rm !! id); simpl;
      by destruct (active_runs rm !! id).
  - done.
  - unfold unregister_process. by destruct (process_pids rm !! id).
Qed.

Lemma unregister_process_active run_id rm :
  active_runs (unregister_process run_id rm) = active_runs rm.
Proof. unfold unregister_process. by destruct (process_pids rm !! run_id). Qed.

Lemma unregister_process_completed run_id rm :
  completed_runs (unregister_process run_id rm) = completed_runs rm.
Proof. unfold unregister_process. by destruct (process_pids rm !! run_id). Qed.

Lemma unregister_process_pids run_id rm :
  process_pids (unregister_process run_id rm) = delete run_id (process_pids rm).
Proof.
  unfold unregister_process.
  destruct (process_pids rm !! run_id) eqn:E; simpl; [done|].
  by rewrite delete_id.
Qed.

(** The registry [cancel_run] sees after the pid of the run, if any, was
    killed and unregistered. *)
Lemma cancel_run_unfold run_id now rm :
  cancel_run run_id now rm =
  let rm1 := unregister_process run_id rm in
  let evs :=
    match process_pids rm !! run_id with
    | Some pid => [EvCancelRun run_id; EvKill pid]
    | None => [EvCancelRun run_id]
    end in
  match active_runs rm !! run_id with
  | Some rd =>
      (true,
       {| max_concurrent := max_concurrent rm1;
          active_runs := delete run_id (active_runs rm);
          completed_runs :=
            <[run_id := {| rd_run_id := rd_run_id rd;
                           rd_status := CANCELLED;
                           rd_started_at := rd_started_at rd;
                           rd_job_data := rd_job_data rd;
                           rd_completed_at := rd_completed_at rd;
                           rd_cancelled_at := Some now |}]>
              (completed_runs rm);
          process_pids := process_pids rm1;
          pid_file := pid_file rm1 |},
       evs)
  | None => (false, rm1, evs)
  end.
Proof.
  unfold cancel_run, unregister_process.
  destruct (process_pids rm !! run_id); simpl;
    by destruct (active_runs rm !! run_id).
Qed.

Lemma size_delete_le (m : gmap string run_data) run_id :
  (size (delete run_id m) ≤ size m)%nat.
Proof.
  rewrite map_size_delete. destruct (m !! run_id); simpl; lia.
Qed.

Lemma size_insert_le (m : gmap string run_data) run_id rd :
  (size (<[run_id := rd]> m) ≤ S (size m))%nat.
Proof.
  rewrite map_size_insert. destruct (m !! run_id); simpl; lia.
Qed.

Lemma rm_step_ceiling now op rm :
  Z.of_nat (size (active_runs rm)) ≤ max_concurrent rm →
  Z.of_nat (size (active_runs (rm_step now op rm)))
    ≤ max_concurrent (rm_step now op rm).
Proof.
  intros Hle. rewrite rm_step_max_concurrent.
  destruct op as [id job|id ok|id|id pid|id]; simpl.
  - unfold add_run. destruct (_ <? _) eqn:E; simpl; [|done].
    apply Z.ltb_lt in E.
    pose proof (size_insert_le (active_runs rm) id
      {| rd_run_id := id; rd_status := RUNNING; rd_started_at := now;
         rd_job_data := job; rd_completed_at := None;
         rd_cancelled_at := None |}). lia.
  - unfold complete_run. destruct (active_runs rm !! id); simpl; [|done].
    pose proof (size_delete_le (active_runs rm) id). lia.
  - rewrite cancel_run_unfold. simpl.
    destruct (active_runs rm !! id); simpl.
    + pose proof (size_delete_le (active_runs rm) id). lia.
    + by rewrite unregister_process_active.
  - done.
  - by rewrite unregister_process_active.
Qed.

Lemma rm_run_ceiling ops : ∀ now rm,
  Z.of_nat (size (active_runs rm)) ≤ max_concurrent rm →
  Z.of_nat (size (active_runs (rm_run now ops rm)))
    ≤ max_concurrent (rm_run now ops rm).
Proof.
  induction ops as [|op ops IH]; intros now rm Hle; simpl; [done|].
  by apply IH, rm_step_ceiling.
Qed.

Lemma rm_run_max_concurrent ops : ∀ now rm,
  max_concurrent (rm_run now ops rm) = max_concurrent rm.
Proof.
  induction ops as [|op ops IH]; intros now rm; simpl; [done|].
  by rewrite IH, rm_step_max_concurrent.
Qed.

(** C1.  With a ceiling [c] that is not negative, whatever calls
    ([add_run], [complete_run], [cancel_run], [register_process],
    [unregister_process]) are made on a fresh registry, in whatever order,
    the number of active runs never exceeds [c].  [add_run] stores the run
    as running and answers ["started"] when the number of active runs is
    strictly below the ceiling; otherwise it answers ["at_capacity"] and
    leaves the registry as it was.  With ceiling 1: "a" is started, "b" is
    at capacity, and once "a" is complete "b" is started. *)
Theorem add_run_respects_ceiling :
  (∀ (c now : Z) (ops : list rm_op),
     0 ≤ c →
     Z.of_nat (size (active_runs (rm_run now ops (new_run_manager c)))) ≤ c)
  ∧ (∀ rm run_id job now,
       Z.of_nat (size (active_runs rm)) < max_concurrent rm →
       let '(r, rm') := add_run run_id job now rm in
       r = Started run_id
       ∧ add_result_status r = "started"
       ∧ active_runs rm' =
           <[run_id := {| rd_run_id := run_id; rd_status := RUNNING;
                          rd_started_at := now; rd_job_data := job;
                          rd_completed_at := None;
                          rd_cancelled_at := None |}]> (active_runs rm)
       ∧ completed_runs rm' = completed_runs rm)
  ∧ (∀ rm run_id job now,
       max_concurrent rm ≤ Z.of_nat (size (active_runs rm)) →
       let '(r, rm') := add_run run_id job now rm in
       add_result_status r = "at_capacity" ∧ rm' = rm)
  ∧ (∀ job_a job_b job_b' t1 t2 t3 t4,
       let rm0 := new_run_manager 1 in
       let '(r1, rm1) := add_run "a" job_a t1 rm0 in
       let '(r2, rm2) := add_run "b" job_b t2 rm1 in
       let rm3 := complete_run "a" true t3 rm2 in
       let '(r3, rm4) := add_run "b" job_b' t4 rm3 in
       add_result_status r1 = "started"
       ∧ add_result_status r2 = "at_capacity"
       ∧ add_result_status r3 = "started"
       ∧ dom (active_runs rm4) = {["b"]}).
Proof.
  split; [|split; [|split]].
  - intros c now ops Hc.
    pose proof (rm_run_ceiling ops now (new_run_manager c)) as H.
    rewrite rm_run_max_concurrent in H. simpl in H.
    apply H. rewrite map_size_empty. simpl. lia.
  - intros rm run_id job now Hlt. unfold add_run.
    apply Z.ltb_lt in Hlt. by rewrite Hlt.
  - intros rm run_id job now Hge. unfold add_run.
    apply Z.ltb_ge in Hge. by rewrite Hge.
  - intros. vm_compute. done.
Qed.

(** A ceiling of 2 and five calls. *)
Lemma add_run_respects_ceiling_witness :
  Z.of_nat (size (active_runs
    (rm_run 0 [OpAdd "a" []; OpAdd "b" []; OpAdd "c" []; OpCancel "a";
               OpAdd "d" []] (new_run_manager 2)))) ≤ 2
  ∧ dom (active_runs (snd (add_run "a" [] 0 (new_run_manager 2)))) = {["a"]}
  ∧ snd (add_run "a" [] 0 (new_run_manager 0)) = new_run_manager 0.
Proof.
  destruct add_run_respects_ceiling as (Hinv & Hadd & Hfull & _).
  split; [|split].
  - apply (Hinv 2 0); lia.
  - assert (Z.of_nat (size (active_runs (new_run_manager 2)))
              < max_concurrent (new_run_manager 2)) as Hlt
      by (simpl; rewrite map_size_empty; simpl; lia).
    pose proof (Hadd (new_run_manager 2) "a" [] 0 Hlt) as H.
    destruct (add_run "a" [] 0 (new_run_manager 2)) as [r rm'].
    destruct H as (_ & _ & H & _). simpl. rewrite H. simpl.
    by rewrite insert_empty, dom_singleton_L.
  - specialize (Hfull (new_run_manager 0) "a" [] 0).
    destruct (add_run "a" [] 0 (new_run_manager 0)) as [r rm'] eqn:E.
    simpl. apply Hfull. simpl. rewrite map_size_empty. simpl. lia.
Defined.

(** ** Active and completed collections *)

Lemma rm_step_lookup now op rm run_id :
  (active_runs (rm_step now op rm) !! run_id,
   completed_runs (rm_step now op rm) !! run_id)
  = step_lookup now op rm run_id.
Proof.
  destruct op as [id job|id ok|id|id pid|id]; simpl.
  - unfold add_run. destruct (_ <? _); simpl; [|done].
    by rewrite lookup_insert.
  - unfold complete_run. destruct (active_runs rm !! id); simpl; [|done].
    rewrite lookup_insert, lookup_delete. by case_decide.
  - rewrite cancel_run_unfold. simpl.
    destruct (active_runs rm !! id); simpl.
    + rewrite lookup_insert, lookup_delete. by case_decide.
    + by rewrite unregister_process_active, unregister_process_completed.
  - done.
  - by rewrite unregister_process_active, unregister_process_completed.
Qed.

Lemma rm_step_active now op rm run_id :
  active_runs (rm_step now op rm) !! run_id
  = fst (step_lookup now op rm run_id).
Proof. by rewrite <- rm_step_lookup. Qed.

Lemma rm_step_completed now op rm run_id :
  completed_runs (rm_step now op rm) !! run_id
  = snd (step_lookup now op rm run_id).
Proof. by rewrite <- rm_step_lookup. Qed.

Lemma rm_step_tracked now op rm run_id :
  tracked rm run_id → tracked (rm_step now op rm) run_id.
Proof.
  unfold tracked. intros H.
  rewrite rm_step_active, rm_step_completed. unfold step_lookup.
  destruct op as [id job|id ok|id|id pid|id];
    repeat case_match; subst; simpl; eauto.
Qed.

Lemma rm_step_exactly_one now op rm run_id :
  (∀ job, op = OpAdd run_id job → completed_runs rm !! run_id = None) →
  in_exactly_one rm run_id → in_exactly_one (rm_step now op rm) run_id.
Proof.
  unfold in_exactly_one. intros Hadd H.
  rewrite rm_step_active, rm_step_completed. unfold step_lookup.
  destruct op as [id job|id ok|id|id pid|id];
    repeat case_match; subst; simpl; eauto.
Qed.

(** Once a run is no longer active, [complete_run] and [cancel_run] on it
    leave both collections alone. *)
Lemma end_op_inactive now c rm run_id :
  active_runs rm !! run_id = None →
  active_runs (rm_step now (end_op run_id c) rm) = active_runs rm
  ∧ completed_runs (rm_step now (end_op run_id c) rm) = completed_runs rm.
Proof.
  intros Hn. destruct c as [ok|]; simpl.
  - unfold complete_run. by rewrite Hn.
  - rewrite cancel_run_unfold, Hn. simpl.
    by rewrite unregister_process_active, unregister_process_completed.
Qed.

Lemma end_ops_inactive cs : ∀ now rm run_id,
  active_runs rm !! run_id = None →
  active_runs (rm_run now (List.map (end_op run_id) cs) rm) = active_runs rm
  ∧ completed_runs (rm_run now (List.map (end_op run_id) cs) rm)
    = completed_runs rm.
Proof.
  induction cs as [|c cs IH]; intros now rm run_id Hn; simpl; [done|].
  destruct (end_op_inactive now c rm run_id Hn) as [Ha Hc].
  destruct (IH (now + 1) (rm_step now (end_op run_id c) rm) run_id) as [Ha' Hc'].
  { by rewrite Ha. }
  by rewrite Ha', Hc', Ha, Hc.
Qed.

Lemma end_op_active now c rm run_id :
  is_Some (active_runs rm !! run_id) →
  active_runs (rm_step now (end_op run_id c) rm) !! run_id = None
  ∧ rd_status <$> completed_runs (rm_step now (end_op run_id c) rm) !! run_id
    = Some (end_status c).
Proof.
  intros [rd Hrd].
  rewrite rm_step_active, rm_step_completed. unfold step_lookup.
  destruct c as [[|]|]; simpl; rewrite Hrd;
    by rewrite decide_True by done.
Qed.

(** C2, the failing case: with ceiling 1, after "a" was added and
    completed it is in exactly one collection; adding "a" again puts it
    in both. *)
Lemma run_added_again_in_both :
  let rm := rm_run 0 [OpAdd "a" []; OpComplete "a" true] (new_run_manager 1) in
  let rm' := rm_step 2 (OpAdd "a" []) rm in
  in_exactly_one rm "a"
  ∧ is_Some (active_runs rm' !! "a")
  ∧ is_Some (completed_runs rm' !! "a")
  ∧ ¬ in_exactly_one rm' "a".
Proof.
  cbv zeta. split; [|split; [|split]].
  - right. split; vm_compute; eauto.
  - vm_compute. eauto.
  - vm_compute. eauto.
  - intros [[_ Hn]|[Hn _]]; vm_compute in Hn; discriminate.
Qed.

(** C2, as the code has it.  A run that is in a collection stays in at
    least one of them under every call, and [add_run] that answers
    ["started"] puts the run in the active collection.  Every call keeps a
    run in exactly one collection, provided that [add_run] is not given
    the id of a run that is already in the completed collection.  For an
    active run, any non-empty interleaving of [complete_run] and
    [cancel_run] calls on its id takes it out of the active collection and
    records exactly one terminal status, the one of the first call. *)
Theorem run_in_one_collection :
  (∀ now op rm run_id, tracked rm run_id → tracked (rm_step now op rm) run_id)
  ∧ (∀ now job rm run_id,
       fst (add_run run_id job now rm) = Started run_id →
       is_Some (active_runs (snd (add_run run_id job now rm)) !! run_id))
  ∧ (∀ now op rm run_id,
       (∀ job, op = OpAdd run_id job → completed_runs rm !! run_id = None) →
       in_exactly_one rm run_id →
       in_exactly_one (rm_step now op rm) run_id)
  ∧ (∀ now rm run_id (c : end_call) (cs : list end_call),
       is_Some (active_runs rm !! run_id) →
       let rm' := rm_run now (List.map (end_op run_id) (c :: cs)) rm in
       active_runs rm' !! run_id = None
       ∧ rd_status <$> completed_runs rm' !! run_id = Some (end_status c)).
Proof.
  split; [|split; [|split]].
  - apply rm_step_tracked.
  - intros now job rm run_id. unfold add_run.
    destruct (_ <? _); simpl; [|done]. intros _.
    rewrite lookup_insert_eq. eauto.
  - apply rm_step_exactly_one.
  - intros now rm run_id c cs Hact. simpl.
    destruct (end_op_active now c rm run_id Hact) as [Ha Hc].
    destruct (end_ops_inactive cs (now + 1)
                (rm_step now (end_op run_id c) rm) run_id Ha) as [Ha' Hc'].
    by rewrite Ha', Hc'.
Qed.

(** Run "a" is added, then completed and cancelled in both orders. *)
Lemma run_in_one_collection_witness :
  let rm := snd (add_run "a" [] 0 (new_run_manager 1)) in
  tracked (rm_step 1 (OpCancel "a") rm) "a"
  ∧ is_Some (active_runs rm !! "a")
  ∧ in_exactly_one (rm_step 1 (OpComplete "a" false) rm) "a"
  ∧ rd_status <$> completed_runs
      (rm_run 1 (List.map (end_op "a") [Cancel; Complete true]) rm) !! "a"
    = Some CANCELLED
  ∧ rd_status <$> completed_runs
      (rm_run 1 (List.map (end_op "a") [Complete true; Cancel]) rm) !! "a"
    = Some COMPLETED.
Proof.
  destruct run_in_one_collection as (Htr & Hadd & Hone & Hrace).
  assert (is_Some (active_runs (snd (add_run "a" [] 0 (new_run_manager 1)))
                     !! "a")) as Ha
    by (apply Hadd; vm_compute; reflexivity).
  cbv zeta. split; [|split; [|split; [|split]]].
  - apply (Htr 1 (OpCancel "a")). left. exact Ha.
  - exact Ha.
  - apply (Hone 1 (OpComplete "a" false)); [discriminate|].
    left. split; [exact Ha|]. vm_compute. reflexivity.
  - apply (Hrace 1 _ "a" Cancel [Complete true] Ha).
  - apply (Hrace 1 _ "a" (Complete true) [Cancel] Ha).
Defined.

(** ** Cancellation *)

Lemma cancel_run_answer run_id now rm :
  fst (fst (cancel_run run_id now rm))
  = bool_decide (is_Some (active_runs rm !! run_id)).
Proof.
  rewrite cancel_run_unfold. cbv zeta.
  destruct (active_runs rm !! run_id) eqn:E; cbn [fst].
  - symmetry. apply bool_decide_eq_true. eauto.
  - symmetry. apply bool_decide_eq_false. by intros [? ?].
Qed.

Lemma cancel_run_active_after run_id now rm :
  active_runs (snd (fst (cancel_run run_id now rm))) !! run_id = None.
Proof.
  rewrite cancel_run_unfold. simpl.
  destruct (active_runs rm !! run_id) eqn:E; simpl.
  - apply lookup_delete_eq.
  - by rewrite unregister_process_active.
Qed.

(** C3, the failing case: a pid is registered for "x", which is not an
    active run; [cancel_run] kills and unregisters the process and
    answers [False]. *)
Lemma cancel_run_pid_only :
  let rm := register_process "x" 5 (new_run_manager 1) in
  process_pids rm !! "x" = Some 5
  ∧ active_runs rm !! "x" = None
  ∧ fst (fst (cancel_run "x" 0 rm)) = false
  ∧ snd (cancel_run "x" 0 rm) = [EvCancelRun "x"; EvKill 5]
  ∧ process_pids (snd (fst (cancel_run "x" 0 rm))) !! "x" = None.
Proof. cbv zeta. repeat split; vm_compute; reflexivity. Qed.

(** C3, as the code has it.  [cancel_run] answers whether the run was in
    the active collection; a pid registered for the run is killed and
    unregistered first and does not count for the answer.  On an active
    run two calls answer [True] then [False].  On a run that is not active
    (completed already, or unknown) the answer is [False], the two
    collections and the ceiling are as before, the pid of the run, if one
    was registered, is killed and removed from the pid table, and with no
    such pid the registry is unchanged and no process is signalled. *)
Theorem cancel_run_idempotent :
  (∀ run_id now rm,
     fst (fst (cancel_run run_id now rm))
     = bool_decide (is_Some (active_runs rm !! run_id)))
  ∧ (∀ run_id t1 t2 rm,
       is_Some (active_runs rm !! run_id) →
       let '(first, rm1, _) := cancel_run run_id t1 rm in
       let '(second, rm2, _) := cancel_run run_id t2 rm1 in
       first = true ∧ second = false
       ∧ rd_status <$> completed_runs rm2 !! run_id = Some CANCELLED)
  ∧ (∀ run_id now rm,
       active_runs rm !! run_id = None →
       let '(answer, rm', evs) := cancel_run run_id now rm in
       answer = false
       ∧ active_runs rm' = active_runs rm
       ∧ completed_runs rm' = completed_runs rm
       ∧ max_concurrent rm' = max_concurrent rm
       ∧ process_pids rm' = delete run_id (process_pids rm)
       ∧ match process_pids rm !! run_id with
         | Some pid => evs = [EvCancelRun run_id; EvKill pid]
         | None => evs = [EvCancelRun run_id] ∧ rm' = rm
         end).
Proof.
  split; [|split].
  - apply cancel_run_answer.
  - intros run_id t1 t2 rm [rd Hrd].
    pose proof (cancel_run_answer run_id t1 rm) as H1.
    pose proof (cancel_run_active_after run_id t1 rm) as Hn.
    pose proof (rm_step_completed t1 (OpCancel run_id) rm run_id) as Hc.
    simpl in Hc. rewrite Hrd in Hc. rewrite decide_True in Hc by done.
    simpl in Hc.
    destruct (cancel_run run_id t1 rm) as [[first rm1] evs1]. simpl in *.
    pose proof (cancel_run_answer run_id t2 rm1) as H2.
    pose proof (end_op_inactive t2 Cancel rm1 run_id Hn) as [_ Hc2].
    simpl in Hc2.
    destruct (cancel_run run_id t2 rm1) as [[second rm2] evs2]. simpl in *.
    split; [|split].
    + rewrite H1. apply bool_decide_eq_true. rewrite Hrd. eauto.
    + rewrite H2. apply bool_decide_eq_false. rewrite Hn. by intros [? ?].
    + by rewrite Hc2, Hc.
  - intros run_id now rm Hn. rewrite cancel_run_unfold, Hn. cbv zeta beta iota.
    rewrite unregister_process_active, unregister_process_completed,
      unregister_process_pids.
    unfold unregister_process.
    destruct (process_pids rm !! run_id); simpl; done.
Qed.

(** Run "a" is active with pid 7 registered; run "b" is unknown. *)
Lemma cancel_run_idempotent_witness :
  let rm := register_process "a" 7 (snd (add_run "a" [] 0 (new_run_manager 1))) in
  (let '(first, rm1, _) := cancel_run "a" 1 rm in
   let '(second, rm2, _) := cancel_run "a" 2 rm1 in
   first = true ∧ second = false
   ∧ rd_status <$> completed_runs rm2 !! "a" = Some CANCELLED)
  ∧ (let '(answer, rm', evs) := cancel_run "b" 1 rm in
     answer = false
     ∧ active_runs rm' = active_runs rm
     ∧ completed_runs rm' = completed_runs rm
     ∧ max_concurrent rm' = max_concurrent rm
     ∧ process_pids rm' = delete "b" (process_pids rm)
     ∧ match process_pids rm !! "b" with
       | Some pid => evs = [EvCancelRun "b"; EvKill pid]
       | None => evs = [EvCancelRun "b"] ∧ rm' = rm
       end).
Proof.
  destruct cancel_run_idempotent as (_ & Htwice & Hnone).
  cbv zeta. split.
  - apply (Htwice "a" 1 2). vm_compute. eauto.
  - apply (Hnone "b" 1). vm_compute. reflexivity.
Defined.

End Registry.

(** * Properties of the hub *)

Section Hub.

Implicit Types (h : WebSocketManager) (w : World) (run_id : string)
  (ws : nat) (m : message) (now : Z).

(** ** Sockets *)

Lemma usable_same ws w w' :
  failing w' = failing w → closed w' = closed w → usable ws w' = usable ws w.
Proof. unfold usable. by intros -> ->. Qed.

Lemma usable_emit ws evs w : usable ws (emit evs w) = usable ws w.
Proof. done. Qed.

Lemma emit_emit evs1 evs2 w : emit evs2 (emit evs1 w) = emit (evs1 ++ evs2) w.
Proof. unfold emit. simpl. by rewrite <- app_assoc. Qed.

Lemma emit_nil w : emit [] w = w.
Proof. destruct w. unfold emit. simpl. by rewrite app_nil_r. Qed.

Lemma ws_send_json_eq ws m w :
  ws_send_json ws m w = (usable ws w, emit [send_event ws m w] w).
Proof. unfold ws_send_json, send_event. by destruct (usable ws w). Qed.

Lemma received_app ws (t1 t2 : list event) :
  received ws (t1 ++ t2) = received ws t1 ++ received ws t2.
Proof.
  induction t1 as [|e t1 IH]; simpl; [done|].
  destruct e; try done. destruct (Nat.eqb _ _); simpl; by rewrite IH.
Qed.

Lemma ws_events_app ws (t1 t2 : list event) :
  ws_events ws (t1 ++ t2) = ws_events ws t1 ++ ws_events ws t2.
Proof. apply List.filter_app. Qed.

Lemma received_sends ws (msgs : list message) :
  received ws (List.map (EvSend ws) msgs) = msgs.
Proof.
  induction msgs as [|m msgs IH]; simpl; [done|].
  by rewrite Nat.eqb_refl, IH.
Qed.

Lemma send_each_usable ws (msgs : list message) : ∀ w,
  usable ws w = true →
  send_each ws msgs w = (true, emit (List.map (EvSend ws) msgs) w).
Proof.
  induction msgs as [|m msgs IH]; intros w Hu; simpl.
  - by rewrite emit_nil.
  - rewrite ws_send_json_eq, Hu. rewrite IH by done.
    unfold send_event. by rewrite Hu, emit_emit.
Qed.

(** ** Delivery of one broadcast *)

Lemma deliver_eq ws m w :
  deliver ws m w =
  (negb (usable ws w && plain m),
   {| failing := failing w; closed := closed w;
      pending := pending w ++ (if usable ws w && closing m then [ws] else []);
      trace := trace w ++ [send_event ws m w] |}).
Proof.
  unfold deliver, plain, closing. rewrite ws_send_json_eq.
  destruct (usable ws w); simpl.
  - by destruct (close_signal m) as [[|]|]; simpl; rewrite ?app_nil_r.
  - by rewrite app_nil_r.
Qed.

Lemma deliver_all_eq m (l : list nat) : ∀ w,
  deliver_all m l w =
  (List.filter (fun ws => negb (usable ws w && plain m)) l,
   {| failing := failing w; closed := closed w;
      pending :=
        pending w
        ++ (if closing m then List.filter (fun ws => usable ws w) l else []);
      trace := trace w ++ List.map (fun ws => send_event ws m w) l |}).
Proof.
  induction l as [|ws l IH]; intros w; simpl.
  - destruct w. simpl. destruct (closing m); by rewrite !app_nil_r.
  - rewrite deliver_eq, IH. unfold send_event, usable. simpl.
    rewrite <- !app_assoc. simpl.
    destruct (bool_decide _) eqn:Hu; simpl;
      destruct (plain m), (closing m); simpl; by rewrite ?app_nil_r.
Qed.

Lemma received_send_events ws m w (l : list nat) :
  NoDup l →
  received ws (List.map (fun ws' => send_event ws' m w) l)
  = if bool_decide (ws ∈ l) && usable ws w then [m] else [].
Proof.
  induction 1 as [|x l Hx Hl IH]; simpl.
  - done.
  - unfold send_event at 1. destruct (decide (x = ws)) as [->|Hne].
    + rewrite bool_decide_eq_true_2 by (by left). simpl.
      rewrite IH. rewrite (bool_decide_eq_false_2 (ws ∈ l)) by done. simpl.
      destruct (usable ws w); simpl; [|done]. by rewrite Nat.eqb_refl.
    + rewrite IH.
      assert (bool_decide (ws ∈ x :: l) = bool_decide (ws ∈ l)) as ->.
      { apply bool_decide_ext. rewrite elem_of_cons.
        split; [intros [E|E]; [by subst|done]|by right]. }
      destruct (usable x w); simpl; [|done].
      apply Nat.eqb_neq in Hne. by rewrite Hne.
Qed.

(** ** Removing connections *)

Lemma disconnect_eq run_id ws h :
  disconnect run_id ws h
  = drop_viewers run_id (default ∅ (_conns h !! run_id) ∖ {[ws]}) h.
Proof.
  unfold disconnect, drop_viewers. simpl. rewrite lookup_insert_eq.
  by destruct (bool_decide _).
Qed.

Lemma drop_viewers_twice run_id (s1 s2 : gset nat) h :
  s2 ⊆ s1 →
  drop_viewers run_id s2 (drop_viewers run_id s1 h) = drop_viewers run_id s2 h.
Proof.
  intros Hsub. unfold drop_viewers. simpl. rewrite insert_insert_eq.
  destruct (bool_decide (s2 = ∅)) eqn:E2; [|apply bool_decide_eq_false in E2].
  - destruct (bool_decide (s1 = ∅)); by rewrite ?delete_delete_eq.
  - rewrite (bool_decide_eq_false_2 (s1 = ∅)); [done|].
    intros ->. apply E2. by apply (anti_symm (⊆)); [|apply empty_subseteq].
Qed.

Lemma disconnect_all_cons run_id (d : list nat) : ∀ ws h,
  disconnect_all run_id (ws :: d) h
  = drop_viewers run_id
      (default ∅ (_conns h !! run_id) ∖ list_to_set (ws :: d)) h.
Proof.
  unfold disconnect_all.
  induction d as [|ws' d IH]; intros ws h.
  - simpl. rewrite disconnect_eq. f_equal. set_solver.
  - change (fold_left _ (ws :: ws' :: d) h)
      with (fold_left (fun h' ws0 => disconnect run_id ws0 h') (ws' :: d)
              (disconnect run_id ws h)).
    rewrite IH, disconnect_eq. simpl. rewrite lookup_insert_eq. simpl.
    rewrite drop_viewers_twice by set_solver. f_equal. set_solver.
Qed.

(** ** [send_log] in closed form *)

Lemma send_log_eq run_id m now h w :
  send_log run_id m now h w =
  match _conns h !! run_id with
  | Some s =>
      (match leavers m w s with
       | [] => stamp_and_buffer run_id m now h
       | _ :: _ =>
           drop_viewers run_id (s ∖ list_to_set (leavers m w s))
             (stamp_and_buffer run_id m now h)
       end,
       after_delivery m w (elements s))
  | None => (stamp_and_buffer run_id m now h, w)
  end.
Proof.
  unfold send_log. simpl.
  change (with_buffers _ (with_last_activity _ h))
    with (stamp_and_buffer run_id m now h).
  destruct (_conns h !! run_id) as [s|] eqn:E; [|done].
  rewrite deliver_all_eq. fold (leavers m w s). fold (after_delivery m w (elements s)).
  destruct (leavers m w s) as [|ws d] eqn:El; [done|].
  rewrite disconnect_all_cons. simpl. by rewrite E.
Qed.

Lemma elem_of_leavers ws m w (s : gset nat) :
  ws ∈ leavers m w s ↔ ws ∈ s ∧ usable ws w && plain m = false.
Proof.
  unfold leavers. rewrite list_elem_of_In, List.filter_In, <- list_elem_of_In.
  rewrite elem_of_elements, negb_true_iff. done.
Qed.

(** The connection set of the run after a broadcast: the sockets that
    took the message, provided the message is a plain one. *)
Lemma send_log_conns run_id m now h w (s : gset nat) :
  _conns h !! run_id = Some s →
  _conns (fst (send_log run_id m now h w)) !! run_id
  = Some (s ∖ list_to_set (leavers m w s)).
Proof.
  intros E. rewrite send_log_eq, E. simpl.
  destruct (leavers m w s) as [|ws d]; simpl.
  - rewrite E. f_equal. set_solver.
  - by rewrite lookup_insert_eq.
Qed.

Lemma send_log_conns_other run_id run_id' m now h w :
  run_id ≠ run_id' →
  _conns (fst (send_log run_id m now h w)) !! run_id' = _conns h !! run_id'.
Proof.
  intros Hne. rewrite send_log_eq.
  destruct (_conns h !! run_id) as [s|]; simpl; [|done].
  destruct (leavers m w s); simpl; [done|]. by rewrite lookup_insert_ne.
Qed.

Lemma send_log_world run_id m now h w :
  snd (send_log run_id m now h w)
  = after_delivery m w (elements (default ∅ (_conns h !! run_id))).
Proof.
  rewrite send_log_eq. destruct (_conns h !! run_id) as [s|]; simpl; [done|].
  rewrite elements_empty. unfold after_delivery. simpl.
  destruct w. simpl. destruct (closing m); by rewrite !app_nil_r.
Qed.

Lemma send_log_trace run_id m now h w :
  trace (snd (send_log run_id m now h w))
  = trace w
    ++ List.map (fun ws => send_event ws m w)
         (elements (default ∅ (_conns h !! run_id))).
Proof. by rewrite send_log_world. Qed.

Lemma send_log_received run_id m now h w (s : gset nat) ws :
  _conns h !! run_id = Some s →
  received ws (trace (snd (send_log run_id m now h w)))
  = received ws (trace w)
    ++ (if bool_decide (ws ∈ s) && usable ws w then [m] else []).
Proof.
  intros E. rewrite send_log_trace, E, received_app. simpl.
  rewrite received_send_events by apply NoDup_elements.
  by rewrite (bool_decide_ext _ _ (elem_of_elements s ws)).
Qed.



(** ** The replay buffer *)

Lemma last_n_all {A : Type} (n : nat) (l : list A) :
  (length l ≤ n)%nat → last_n n l = l.
Proof. intros H. unfold last_n. by replace (length l - n)%nat with 0%nat by lia. Qed.

Lemma length_last_n {A : Type} (n : nat) (l : list A) :
  length (last_n n l) = (length l `min` n)%nat.
Proof. unfold last_n. rewrite length_drop. lia. Qed.

Lemma last_n_app {A : Type} (n : nat) (l r : list A) :
  last_n n (last_n n l ++ r) = last_n n (l ++ r).
Proof.
  unfold last_n. rewrite !length_app, length_drop, !drop_app, drop_drop.
  rewrite length_drop. f_equal; f_equal; lia.
Qed.

Lemma deque_append_last_n (n : nat) (b : list message) m :
  (0 < n)%nat → (length b ≤ n)%nat →
  deque_append n b m = last_n n (b ++ [m]).
Proof.
  intros Hn Hb. unfold deque_append, last_n.
  destruct (Nat.eqb_spec n 0) as [->|_]; [lia|].
  rewrite length_app. simpl.
  destruct (Nat.leb_spec n (length b)).
  - replace (length b + 1 - n)%nat with 1%nat by lia.
    rewrite drop_app_le; [done|]. lia.
  - by replace (length b + 1 - n)%nat with 0%nat by lia.
Qed.

Lemma after_delivery_nil m w : after_delivery m w [] = w.
Proof.
  destruct w. unfold after_delivery. simpl.
  destruct (closing m); by rewrite !app_nil_r.
Qed.

Lemma send_log_viewers_stay run_id m (rest : list message) now h w :
  viewers_stay run_id (m :: rest) h w →
  _buffers (fst (send_log run_id m now h w))
  = <[run_id := deque_append MAX_BUFFER (default [] (_buffers h !! run_id)) m]>
      (_buffers h)
  ∧ viewers_stay run_id rest (fst (send_log run_id m now h w))
      (snd (send_log run_id m now h w)).
Proof.
  unfold viewers_stay. intros Hst.
  pose proof (send_log_conns run_id m now h w) as Hc.
  rewrite send_log_eq in *.
  destruct (_conns h !! run_id) as [s|] eqn:E; simpl in *.
  - specialize (Hc s eq_refl).
    destruct Hst as [->|[Hpl (ws & Hws & Hu)]].
    + unfold leavers in *. rewrite elements_empty in *. simpl in *.
      rewrite E. split; [done|]. by left.
    + apply Forall_cons in Hpl as [Hm Hrest].
      assert (ws ∈ s ∖ list_to_set (leavers m w s)) as Hstay.
      { apply elem_of_difference. split; [done|].
        rewrite elem_of_list_to_set, elem_of_leavers, Hu, Hm.
        by intros [_ ?]. }
      rewrite Hc. split.
      * destruct (leavers m w s); simpl; [done|].
        rewrite bool_decide_eq_false_2; [done|]. set_solver.
      * right. split; [done|]. exists ws. split; [done|].
        by rewrite <- Hu.
  - by rewrite E.
Qed.

Lemma send_logs_buffer run_id (msgs : list message) : ∀ now h w,
  viewers_stay run_id msgs h w →
  (length (default [] (_buffers h !! run_id)) ≤ MAX_BUFFER)%nat →
  default [] (_buffers (fst (send_logs run_id msgs now h w)) !! run_id)
  = last_n MAX_BUFFER (default [] (_buffers h !! run_id) ++ msgs)
  ∧ (msgs ≠ [] →
     is_Some (_buffers (fst (send_logs run_id msgs now h w)) !! run_id)).
Proof.
  induction msgs as [|m rest IH]; intros now h w Hst Hlen; simpl.
  - rewrite app_nil_r, last_n_all by done. done.
  - destruct (send_log_viewers_stay run_id m rest now h w Hst) as [Hb Hst'].
    destruct (send_log run_id m now h w) as [h1 w1]. simpl in *.
    assert (_buffers h1 !! run_id
            = Some (last_n MAX_BUFFER (default [] (_buffers h !! run_id) ++ [m])))
      as Hb1.
    { rewrite Hb, lookup_insert_eq. f_equal.
      apply deque_append_last_n; [unfold MAX_BUFFER; lia|done]. }
    destruct (IH (now + 1) h1 w1 Hst') as [IH1 IH2].
    { rewrite Hb1. simpl. rewrite length_last_n. lia. }
    split.
    + rewrite IH1, Hb1. simpl. rewrite last_n_app.
      by rewrite <- app_assoc.
    + intros _. destruct rest as [|m' rest'].
      * simpl. rewrite Hb1. eauto.
      * by apply IH2.
Qed.

(** C7, the failing cases.  (1) The only viewer of run "r" sits on a
    socket whose peer is gone: the broadcast of one message removes the
    viewer and with it the buffer, which then holds nothing.  (2) Run "r"
    has one viewer on a working socket; 2000 output messages are followed
    by the cancellation message: the buffer is dropped with the viewer and
    does not hold the last 2000 messages. *)
Lemma buffer_dropped_with_last_viewer :
  (let h := with_conns {[ "r" := {[1%nat]} ]} (new_ws_manager 600) in
   let w := {| failing := {[1%nat]}; closed := ∅; pending := []; trace := [] |} in
   _buffers (fst (send_logs "r" [numbered 1] 0 h w)) !! "r" = None)
  ∧ (let h := with_conns {[ "r" := {[1%nat]} ]} (new_ws_manager 600) in
     let msgs := numbered_from_to 1 2000 ++ [run_cancelled_message "r"] in
     length msgs = 2001%nat
     ∧ _buffers (fst (send_logs "r" msgs 0 h quiet_world)) !! "r" = None).
Proof. cbv zeta. repeat split; vm_compute; reflexivity. Qed.

(** C7, as the code has it.  As long as no broadcast empties the
    connection set of the run (see [viewers_stay]), the buffer after the
    broadcasts holds the last 2000 of the messages it held before followed
    by the new ones, in order.  Starting from an empty buffer: more than
    2000 messages leave exactly the most recent 2000, at most 2000
    messages are all kept. *)
Theorem replay_buffer_keeps_last run_id (msgs : list message) now h w :
  viewers_stay run_id msgs h w →
  (length (default [] (_buffers h !! run_id)) ≤ MAX_BUFFER)%nat →
  msgs ≠ [] →
  let before := default [] (_buffers h !! run_id) in
  let h' := fst (send_logs run_id msgs now h w) in
  _buffers h' !! run_id = Some (last_n MAX_BUFFER (before ++ msgs))
  ∧ (before = [] → (MAX_BUFFER < length msgs)%nat →
     _buffers h' !! run_id = Some (drop (length msgs - 2000) msgs)
     ∧ length (drop (length msgs - 2000) msgs) = 2000%nat)
  ∧ (before = [] → (length msgs ≤ MAX_BUFFER)%nat →
     _buffers h' !! run_id = Some msgs).
Proof.
  intros Hst Hlen Hne. cbv zeta.
  destruct (send_logs_buffer run_id msgs now h w Hst Hlen) as [Hb Hsome].
  destruct (Hsome Hne) as [b Eb]. rewrite Eb in Hb. simpl in Hb. subst b.
  split; [done|split].
  - intros Hb0 Hlong. rewrite Hb0 in Eb. simpl in Eb. split.
    + rewrite Eb. unfold last_n, MAX_BUFFER. done.
    + rewrite length_drop. unfold MAX_BUFFER in Hlong. lia.
  - intros Hb0 Hshort. rewrite Hb0 in Eb. simpl in Eb.
    by rewrite Eb, last_n_all.
Qed.

(** Run "r" has two viewers, one of them on a dead socket, and three
    messages in its buffer. *)
Lemma replay_buffer_keeps_last_witness :
  let h :=
    with_buffers {[ "r" := numbered_from_to 1 3 ]}
      (with_conns {[ "r" := {[1%nat; 2%nat]} ]} (new_ws_manager 600)) in
  let w := {| failing := {[2%nat]}; closed := ∅; pending := []; trace := [] |} in
  _buffers (fst (send_logs "r" (numbered_from_to 4 2) 0 h w)) !! "r"
  = Some (last_n MAX_BUFFER (numbered_from_to 1 3 ++ numbered_from_to 4 2)).
Proof.
  cbv zeta.
  refine (proj1 (replay_buffer_keeps_last "r" (numbered_from_to 4 2) 0
    (with_buffers {[ "r" := numbered_from_to 1 3 ]}
       (with_conns {[ "r" := {[1%nat; 2%nat]} ]} (new_ws_manager 600)))
    {| failing := {[2%nat]}; closed := ∅; pending := []; trace := [] |}
    _ _ _)).
  - unfold viewers_stay. simpl. rewrite lookup_singleton_eq. right. split.
    + repeat constructor.
    + exists 1%nat. split; [set_solver|]. vm_compute. reflexivity.
  - vm_compute. lia.
  - discriminate.
Defined.

(** ** Joining a run *)

Lemma connect_usable run_id ws now h w :
  usable ws w = true →
  connect run_id ws now h w
  = (true, joined run_id ws now h,
     emit (EvAccept ws :: EvSend ws (connection_ack run_id)
           :: List.map (EvSend ws) (default [] (_buffers h !! run_id))) w).
Proof.
  intros Hu. unfold connect, ws_accept. rewrite Hu. simpl.
  rewrite ws_send_json_eq, usable_emit, Hu. simpl.
  rewrite send_each_usable by done.
  unfold send_event. rewrite usable_emit, Hu, !emit_emit. done.
Qed.

Lemma connect_unusable run_id ws now h w :
  usable ws w = false → connect run_id ws now h w = (false, h, w).
Proof. intros Hu. unfold connect, ws_accept. by rewrite Hu. Qed.



Lemma received_join ws run_id (backlog : list message) :
  received ws
    (EvAccept ws :: EvSend ws (connection_ack run_id)
     :: List.map (EvSend ws) backlog)
  = connection_ack run_id :: backlog.
Proof. simpl. by rewrite Nat.eqb_refl, received_sends. Qed.

Lemma send_logs_no_viewers run_id (msgs : list message) : ∀ now h w,
  default ∅ (_conns h !! run_id) = ∅ →
  snd (send_logs run_id msgs now h w) = w
  ∧ viewers_stay run_id msgs h w.
Proof.
  assert (∀ h w, default ∅ (_conns h !! run_id) = ∅ →
            ∀ l, viewers_stay run_id l h w) as Hst.
  { intros h w He l. unfold viewers_stay.
    destruct (_conns h !! run_id); simpl in *; [by left|done]. }
  induction msgs as [|m rest IH]; intros now h w He; simpl.
  - split; [done|]. by apply Hst.
  - split; [|by apply Hst].
    pose proof (send_log_world run_id m now h w) as Hw.
    pose proof (send_log_conns run_id m now h w) as Hc.
    pose proof (send_log_eq run_id m now h w) as Heq.
    destruct (send_log run_id m now h w) as [h1 w1]. simpl in *.
    rewrite He, elements_empty, after_delivery_nil in Hw. subst w1.
    apply IH.
    destruct (_conns h !! run_id) as [s|] eqn:E; simpl in *.
    + subst s. rewrite (Hc ∅ eq_refl). simpl. set_solver.
    + injection Heq as ->. simpl. by rewrite E.
Qed.

(** ** [connect] while other tasks broadcast *)

Lemma ws_events_send_events ws m w (l : list nat) :
  NoDup l →
  ws_events ws (List.map (fun ws' => send_event ws' m w) l)
  = if bool_decide (ws ∈ l) then [send_event ws m w] else [].
Proof.
  induction 1 as [|x l Hx Hl IH]; simpl; [done|].
  change (List.filter (on_socket ws) (List.map (fun ws' => send_event ws' m w) l))
    with (ws_events ws (List.map (fun ws' => send_event ws' m w) l)).
  rewrite IH.
  assert (on_socket ws (send_event x m w) = Nat.eqb x ws) as ->
    by (unfold send_event; by destruct (usable x w)).
  destruct (Nat.eqb_spec x ws) as [->|Hne].
  - rewrite (bool_decide_eq_true_2 (ws ∈ ws :: l)) by (by left).
    by rewrite (bool_decide_eq_false_2 (ws ∈ l)).
  - rewrite (bool_decide_ext (ws ∈ x :: l) (ws ∈ l)); [done|].
    rewrite elem_of_cons.
    split; [intros [E|E]; [by subst|done]|by right].
Qed.

Lemma run_broadcasts_cons b (bs : list broadcast) h w :
  run_broadcasts (b :: bs) h w
  = run_broadcasts bs (fst (send_log (to_run b) (payload b) (sent_at b) h w))
      (snd (send_log (to_run b) (payload b) (sent_at b) h w)).
Proof.
  unfold run_broadcasts. simpl.
  by destruct (send_log (to_run b) (payload b) (sent_at b) h w).
Qed.

Lemma replay_quiet run_id ws (msgs : list message) : ∀ h w,
  replay run_id ws msgs [] h w
  = (fst (send_each ws msgs w), h, snd (send_each ws msgs w)).
Proof.
  induction msgs as [|m msgs IH]; intros h w; simpl; [done|].
  destruct (ws_send_json ws m w) as [[|] w1]; simpl; [apply IH|done].
Qed.

(** [connect] is [connect_with] when no task broadcasts meanwhile. *)
Lemma connect_with_quiet run_id ws now h w :
  connect_with [] [] [] run_id ws now h w = connect run_id ws now h w.
Proof.
  unfold connect_with, connect. destruct (ws_accept ws w) as [[|] w1]; [|done].
  cbn [negb run_broadcasts fold_left fst snd].
  destruct (ws_send_json ws (connection_ack run_id) w1) as [[|] w2]; [|done].
  cbn [negb]. rewrite replay_quiet. by destruct (send_each _ _ _).
Qed.

Lemma send_log_other_run r run_id (m : message) t h w :
  r ≠ run_id →
  _conns (fst (send_log r m t h w)) !! run_id = _conns h !! run_id
  ∧ _buffers (fst (send_log r m t h w)) !! run_id = _buffers h !! run_id
  ∧ _last_activity (fst (send_log r m t h w)) !! run_id
    = _last_activity h !! run_id.
Proof.
  intros Hne. rewrite send_log_eq.
  destruct (_conns h !! r) as [s|]; simpl.
  - destruct (leavers m w s) as [|x l]; simpl.
    + by rewrite !lookup_insert_ne.
    + rewrite lookup_insert_ne by done.
      destruct (bool_decide _); by rewrite ?lookup_delete_ne, !lookup_insert_ne.
  - by rewrite !lookup_insert_ne.
Qed.

(** A broadcast to a run the socket is not connected to. *)
Lemma send_log_elsewhere r (m : message) t h w ws :
  ws ∉ default (∅ : gset nat) (_conns h !! r) →
  ws_events ws (trace (snd (send_log r m t h w))) = ws_events ws (trace w)
  ∧ received ws (trace (snd (send_log r m t h w))) = received ws (trace w)
  ∧ (∀ x, usable x (snd (send_log r m t h w)) = usable x w)
  ∧ (∀ r', default (∅ : gset nat) (_conns (fst (send_log r m t h w)) !! r')
           ⊆ default (∅ : gset nat) (_conns h !! r')).
Proof.
  intros Hnin. split; [|split; [|split]].
  - rewrite send_log_trace, ws_events_app.
    rewrite ws_events_send_events by apply NoDup_elements.
    rewrite bool_decide_eq_false_2; [by rewrite app_nil_r|].
    by rewrite elem_of_elements.
  - rewrite send_log_trace, received_app.
    rewrite received_send_events by apply NoDup_elements.
    rewrite bool_decide_eq_false_2; [by rewrite app_nil_r|].
    by rewrite elem_of_elements.
  - intros x. by rewrite send_log_world.
  - intros r'. destruct (decide (r = r')) as [<-|Hne].
    + destruct (_conns h !! r) as [s|] eqn:E.
      * rewrite (send_log_conns r m t h w s E). simpl. set_solver.
      * rewrite send_log_eq, E. simpl. by rewrite E.
    + by rewrite send_log_conns_other.
Qed.

Lemma run_broadcasts_elsewhere ws (bs : list broadcast) : ∀ h w,
  (∀ b, b ∈ bs → ws ∉ default (∅ : gset nat) (_conns h !! to_run b)) →
  ws_events ws (trace (snd (run_broadcasts bs h w))) = ws_events ws (trace w)
  ∧ received ws (trace (snd (run_broadcasts bs h w))) = received ws (trace w)
  ∧ (∀ x, usable x (snd (run_broadcasts bs h w)) = usable x w)
  ∧ (∀ r', default (∅ : gset nat) (_conns (fst (run_broadcasts bs h w)) !! r')
           ⊆ default (∅ : gset nat) (_conns h !! r')).
Proof.
  induction bs as [|b bs IH]; intros h w Hbs; [done|].
  rewrite run_broadcasts_cons.
  destruct (send_log_elsewhere (to_run b) (payload b) (sent_at b) h w ws)
    as (He & Hr & Hu & Hc); [apply Hbs; by left|].
  destruct (IH (fst (send_log (to_run b) (payload b) (sent_at b) h w))
              (snd (send_log (to_run b) (payload b) (sent_at b) h w)))
    as (He' & Hr' & Hu' & Hc').
  { intros b' Hb' Hin. apply (Hbs b'); [by right|]. by apply Hc. }
  split; [congruence|]. split; [congruence|]. split.
  - intros x. by rewrite Hu', Hu.
  - intros r'. etrans; [apply Hc'|apply Hc].
Qed.

Lemma spares_elem run_id (bs : list broadcast) b :
  spares run_id bs → b ∈ bs → to_run b ≠ run_id.
Proof.
  unfold spares, mutates. intros Hs Hin Heq.
  assert (existsb (fun b0 => String.eqb (to_run b0) run_id) bs = true)
    as Ht; [|congruence].
  apply List.existsb_exists. exists b. split; [by apply list_elem_of_In|].
  rewrite Heq. apply String.eqb_refl.
Qed.

Lemma run_broadcasts_spares run_id (bs : list broadcast) : ∀ h w,
  spares run_id bs →
  _conns (fst (run_broadcasts bs h w)) !! run_id = _conns h !! run_id
  ∧ _buffers (fst (run_broadcasts bs h w)) !! run_id = _buffers h !! run_id.
Proof.
  induction bs as [|b bs IH]; intros h w Hs; [done|].
  rewrite run_broadcasts_cons.
  assert (to_run b ≠ run_id) as Hne by (apply (spares_elem _ _ _ Hs); by left).
  assert (spares run_id bs) as Hs'.
  { unfold spares, mutates in *. simpl in Hs.
    by apply orb_false_iff in Hs as [_ ?]. }
  destruct (IH (fst (send_log (to_run b) (payload b) (sent_at b) h w))
              (snd (send_log (to_run b) (payload b) (sent_at b) h w)) Hs')
    as [-> ->].
  destruct (send_log_other_run (to_run b) run_id (payload b) (sent_at b) h w Hne)
    as (-> & -> & _).
  done.
Qed.

(** The socket is connected to no run but [run_id]. *)
Lemma replay_spared run_id ws (backlog : list message) : ∀ during h w,
  usable ws w = true →
  (∀ r, r ≠ run_id → ws ∉ default (∅ : gset nat) (_conns h !! r)) →
  Forall (spares run_id) during →
  fst (fst (replay run_id ws backlog during h w)) = true
  ∧ ws_events ws (trace (snd (replay run_id ws backlog during h w)))
    = ws_events ws (trace w) ++ List.map (EvSend ws) backlog
  ∧ received ws (trace (snd (replay run_id ws backlog during h w)))
    = received ws (trace w) ++ backlog
  ∧ usable ws (snd (replay run_id ws backlog during h w)) = true
  ∧ _conns (snd (fst (replay run_id ws backlog during h w))) !! run_id
    = _conns h !! run_id.
Proof.
  induction backlog as [|m rest IH]; intros during h w Hu Hinv Hd.
  - simpl. by rewrite !app_nil_r.
  - cbn [replay]. rewrite ws_send_json_eq, Hu. cbn [negb].
    set (bs := List.hd [] during).
    set (w1 := emit [send_event ws m w] w).
    assert (spares run_id bs ∧ Forall (spares run_id) (List.tl during))
      as [Hbs Htl].
    { unfold bs. destruct during as [|x l]; simpl; [by split|].
      inversion Hd; by subst. }
    destruct (run_broadcasts_elsewhere ws bs h w1) as (He & Hr & Hu' & Hc).
    { intros b Hb. apply Hinv. by apply (spares_elem run_id bs). }
    destruct (run_broadcasts_spares run_id bs h w1 Hbs) as [Hconns _].
    destruct (run_broadcasts bs h w1) as [h2 w2] eqn:E. cbn [fst snd] in *.
    rewrite Hbs.
    destruct (IH (List.tl during) h2 w2) as (Hok & He2 & Hr2 & Hu2 & Hc2).
    { by rewrite Hu'. }
    { intros r Hr0 Hin. apply (Hinv r Hr0). by apply Hc. }
    { done. }
    split; [done|]. split; [|split; [|split]].
    + rewrite He2, He. unfold w1. simpl. rewrite ws_events_app.
      unfold send_event. rewrite Hu. simpl. unfold on_socket. simpl.
      rewrite Nat.eqb_refl. by rewrite <- app_assoc.
    + rewrite Hr2, Hr. unfold w1. simpl. rewrite received_app.
      unfold send_event. rewrite Hu. simpl. rewrite Nat.eqb_refl.
      by rewrite <- app_assoc.
    + done.
    + by rewrite Hc2.
Qed.

Lemma connect_with_spared run_id ws now h w
    (after_accept after_ack : list broadcast) (during : list (list broadcast)) :
  usable ws w = true →
  unconnected ws h →
  spares run_id after_ack →
  Forall (spares run_id) during →
  let ha := fst (run_broadcasts after_accept h (snd (ws_accept ws w))) in
  let backlog := default [] (_buffers ha !! run_id) in
  let st := connect_with after_accept after_ack during run_id ws now h w in
  fst (fst st) = true
  ∧ ws_events ws (trace (snd st))
    = ws_events ws (trace w)
      ++ EvAccept ws :: EvSend ws (connection_ack run_id)
         :: List.map (EvSend ws) backlog
  ∧ received ws (trace (snd st))
    = received ws (trace w) ++ connection_ack run_id :: backlog
  ∧ usable ws (snd st) = true
  ∧ _conns (snd (fst st)) !! run_id
    = Some ({[ws]} ∪ default ∅ (_conns ha !! run_id)).
Proof.
  intros Hu Hun Hack Hdur. cbv zeta. unfold connect_with, ws_accept.
  rewrite Hu. cbn [negb snd].
  set (w1 := emit [EvAccept ws] w).
  destruct (run_broadcasts_elsewhere ws after_accept h w1)
    as (He & Hr & Hu1 & Hc).
  { intros b _. apply Hun. }
  destruct (run_broadcasts after_accept h w1) as [ha wa] eqn:Ea.
  cbn [fst snd] in *.
  assert (unconnected ws ha) as Hun_a.
  { intros r Hin. apply (Hun r). by apply Hc. }
  assert (usable ws wa = true) as Hua.
  { rewrite Hu1. unfold w1. by rewrite usable_emit. }
  rewrite ws_send_json_eq, Hua. cbn [negb].
  set (h2 := with_last_activity _ _).
  set (w2 := emit [send_event ws (connection_ack run_id) wa] wa).
  assert (∀ r, r ≠ run_id → ws ∉ default (∅ : gset nat) (_conns h2 !! r))
    as Hinv2.
  { intros r Hne. unfold h2. simpl. rewrite lookup_insert_ne by done.
    apply Hun_a. }
  destruct (run_broadcasts_elsewhere ws after_ack h2 w2) as (He' & Hr' & Hu' & Hc').
  { intros b Hb. apply Hinv2. by apply (spares_elem run_id after_ack). }
  destruct (run_broadcasts_spares run_id after_ack h2 w2 Hack) as [Hcb Hbb].
  destruct (run_broadcasts after_ack h2 w2) as [hb wb] eqn:Eb.
  cbn [fst snd] in *.
  assert (_buffers hb !! run_id = _buffers ha !! run_id) as Hbuf
    by (by rewrite Hbb).
  rewrite Hbuf.
  set (backlog := default [] (_buffers ha !! run_id)).
  set (h3 := with_buffers _ hb).
  assert (usable ws wb = true) as Hub.
  { rewrite Hu'. unfold w2. by rewrite usable_emit. }
  destruct (replay_spared run_id ws backlog during h3 wb Hub)
    as (Hok & He3 & Hr3 & Hu3 & Hc3); [|done|].
  { intros r Hne Hin. apply (Hinv2 r Hne). by apply Hc'. }
  assert (send_event ws (connection_ack run_id) wa
          = EvSend ws (connection_ack run_id)) as Hsend.
  { unfold send_event. by rewrite Hua. }
  split; [done|]. split; [|split; [|split; [done|]]].
  - rewrite He3, He'. unfold w2. simpl. rewrite ws_events_app, He, Hsend.
    unfold w1. simpl. rewrite ws_events_app. simpl. unfold on_socket. simpl.
    rewrite Nat.eqb_refl. by rewrite <- !app_assoc.
  - rewrite Hr3, Hr'. unfold w2. simpl. rewrite received_app, Hr, Hsend.
    unfold w1. simpl. rewrite received_app. simpl. rewrite Nat.eqb_refl.
    rewrite app_nil_r. by rewrite <- !app_assoc.
  - rewrite Hc3. unfold h3. simpl. rewrite Hcb. unfold h2. simpl.
    apply lookup_insert_eq.
Qed.

Lemma send_logs_unconnected ws run_id (msgs : list message) : ∀ now h w,
  unconnected ws h → unconnected ws (fst (send_logs run_id msgs now h w)).
Proof.
  induction msgs as [|m rest IH]; intros now h w Hun; simpl; [done|].
  destruct (send_log_elsewhere run_id m now h w ws (Hun run_id))
    as (_ & _ & _ & Hc).
  destruct (send_log run_id m now h w) as [h1 w1]. simpl in *.
  apply IH. intros r Hin. apply (Hun r). by apply Hc.
Qed.

(** C4, the failing cases.  (1) Socket 1 views run "y" while the messages
    1, 2, 3 are broadcast and then leaves: socket 2, which joins after
    these three messages, receives the acknowledgement and nothing else.
    (2) 2001 messages are broadcast to run "y", which has no viewer:
    socket 7 joins and receives the acknowledgement and the messages 2 to
    2001; message 1 is missing.  (3) The messages 1, 2, 3 are broadcast to
    run "y", which has no viewer; socket 7 joins, and message 4 is
    broadcast while the acknowledgement is sent: the socket receives
    message 4 before the replay and once more at its end.  (4) As before,
    with message 4 broadcast while message 1 of the replay is sent: the
    socket receives message 1, then message 4, and the replay ends there
    with an exception; the messages 2 and 3 are never delivered, and the
    socket stays in the connection set. *)
Lemma late_joiner_misses_messages :
  (let h0 := new_ws_manager 600 in
   let '(_, h1, w1) := connect "y" 1 0 h0 quiet_world in
   let '(h2, w2) := send_logs "y" (numbered_from_to 1 3) 1 h1 w1 in
   let h3 := disconnect "y" 1 h2 in
   let '(ok, h4, w4) := connect "y" 2 9 h3 w2 in
   ok = true ∧ received 2 (trace w4) = [connection_ack "y"])
  ∧ (let h0 := new_ws_manager 600 in
     let '(h1, w1) := send_logs "y" (numbered_from_to 1 2001) 0 h0 quiet_world in
     let '(ok, h2, w2) := connect "y" 7 9999 h1 w1 in
     ok = true
     ∧ received 7 (trace w2) = connection_ack "y" :: numbered_from_to 2 2000)
  ∧ (let h0 := new_ws_manager 600 in
     let '(h1, w1) := send_logs "y" (numbered_from_to 1 3) 0 h0 quiet_world in
     let '(ok, h2, w2) :=
       connect_with [] [Broadcast "y" (numbered 4) 6] [] "y" 7 5 h1 w1 in
     ok = true
     ∧ received 7 (trace w2)
       = [connection_ack "y"; numbered 4; numbered 1; numbered 2; numbered 3;
          numbered 4])
  ∧ (let h0 := new_ws_manager 600 in
     let '(h1, w1) := send_logs "y" (numbered_from_to 1 3) 0 h0 quiet_world in
     let '(ok, h2, w2) :=
       connect_with [] [] [[Broadcast "y" (numbered 4) 6]] "y" 7 5 h1 w1 in
     ok = false
     ∧ received 7 (trace w2) = [connection_ack "y"; numbered 1; numbered 4]
     ∧ _conns h2 !! "y" = Some {[7%nat]}).
Proof.
  split; [|split; [|split]]; vm_compute; repeat split; reflexivity.
Qed.

(** C4, as the code has it.  A socket that is not connected yet and works
    joins a run while other tasks broadcast.  Provided that none of them
    broadcasts to this run between the registration of the socket (right
    after [accept]) and the end of the replay, the socket receives first
    the acknowledgement carrying the run id, then the content the replay
    buffer of the run had at the registration, in order, and after these
    the next message broadcast to the run; nothing is delivered twice and
    no live message comes before the end of the replay.  The buffer of a
    run that never had a viewer holds the last 2000 of the messages
    broadcast so far: a socket joining after [N ≤ 2000] broadcasts
    receives exactly the messages 1 to [N]. *)
Theorem connect_replays_backlog :
  (∀ run_id ws now h w (after_accept after_ack : list broadcast)
     (during : list (list broadcast)),
     usable ws w = true →
     unconnected ws h →
     spares run_id after_ack →
     Forall (spares run_id) during →
     let backlog :=
       default []
         (_buffers (fst (run_broadcasts after_accept h (snd (ws_accept ws w))))
          !! run_id) in
     let '(ok, h1, w1) :=
       connect_with after_accept after_ack during run_id ws now h w in
     ok = true
     ∧ ws_events ws (trace w1)
       = ws_events ws (trace w)
         ++ EvAccept ws :: EvSend ws (connection_ack run_id)
            :: List.map (EvSend ws) backlog
     ∧ dict_get "run_id" (connection_ack run_id) = Some (JStr run_id)
     ∧ ∀ m now',
         received ws (trace (snd (send_log run_id m now' h1 w1)))
         = received ws (trace w) ++ connection_ack run_id :: backlog ++ [m])
  ∧ (∀ run_id ws now h w,
       connect_with [] [] [] run_id ws now h w = connect run_id ws now h w)
  ∧ (∀ run_id (msgs : list message) ws t0 t1 h w
       (after_accept after_ack : list broadcast)
       (during : list (list broadcast)),
       default ∅ (_conns h !! run_id) = ∅ →
       _buffers h !! run_id = None →
       usable ws w = true →
       unconnected ws h →
       spares run_id after_accept →
       spares run_id after_ack →
       Forall (spares run_id) during →
       let '(h1, w1) := send_logs run_id msgs t0 h w in
       let '(ok, h2, w2) :=
         connect_with after_accept after_ack during run_id ws t1 h1 w1 in
       ok = true
       ∧ received ws (trace w2)
         = received ws (trace w)
           ++ connection_ack run_id :: last_n MAX_BUFFER msgs
       ∧ ((length msgs ≤ MAX_BUFFER)%nat →
          received ws (trace w2)
          = received ws (trace w) ++ connection_ack run_id :: msgs)).
Proof.
  split; [|split].
  - intros run_id ws now h w after_accept after_ack during Hu Hun Hack Hdur.
    cbv zeta.
    destruct (connect_with_spared run_id ws now h w after_accept after_ack
                during Hu Hun Hack Hdur) as (Hok & He & Hr & Hu' & Hc).
    destruct (connect_with after_accept after_ack during run_id ws now h w)
      as [[ok h1] w1]. cbn [fst snd] in *.
    split; [done|]. split; [done|]. split; [done|]. intros m now'.
    rewrite (send_log_received run_id m now' h1 w1 _ ws Hc).
    rewrite Hu', bool_decide_eq_true_2 by set_solver.
    simpl. rewrite Hr. by rewrite <- app_assoc.
  - apply connect_with_quiet.
  - intros run_id msgs ws t0 t1 h w after_accept after_ack during
      He Hb Hu Hun Hacc Hack Hdur.
    destruct (send_logs_no_viewers run_id msgs t0 h w He) as [Hw Hst].
    destruct (send_logs_buffer run_id msgs t0 h w Hst) as [Hbuf _].
    { rewrite Hb. simpl. lia. }
    rewrite Hb in Hbuf. simpl in Hbuf.
    pose proof (send_logs_unconnected ws run_id msgs t0 h w Hun) as Hun1.
    destruct (send_logs run_id msgs t0 h w) as [h1 w1]. simpl in *. subst w1.
    destruct (connect_with_spared run_id ws t1 h1 w after_accept after_ack
                during Hu Hun1 Hack Hdur) as (Hok & _ & Hr & _).
    destruct (run_broadcasts_spares run_id after_accept h1
                (snd (ws_accept ws w)) Hacc) as [_ Hba].
    rewrite Hba, Hbuf in Hr.
    destruct (connect_with after_accept after_ack during run_id ws t1 h1 w)
      as [[ok h2] w2]. cbn [fst snd] in *.
    split; [done|]. split; [done|]. intros Hlen. by rewrite Hr, last_n_all.
Qed.

(** The late joiner: the messages 1, 2, 3 are broadcast to run "y", which
    has no viewer; socket 7 joins while two messages are broadcast to run
    "z"; message 4 follows. *)
Lemma connect_replays_backlog_witness :
  let '(h1, w1) :=
    send_logs "y" (numbered_from_to 1 3) 0 (new_ws_manager 600) quiet_world in
  let '(ok, h2, w2) :=
    connect_with [] [Broadcast "z" (numbered 8) 6]
      [[Broadcast "z" (numbered 9) 7]] "y" 7 5 h1 w1 in
  (ok = true
   ∧ received 7 (trace w2)
     = received 7 (trace quiet_world)
       ++ connection_ack "y" :: last_n MAX_BUFFER (numbered_from_to 1 3)
   ∧ ((length (numbered_from_to 1 3) ≤ MAX_BUFFER)%nat →
      received 7 (trace w2)
      = received 7 (trace quiet_world)
        ++ connection_ack "y" :: numbered_from_to 1 3))
  ∧ received 7 (trace (snd (send_log "y" (numbered 4) 8 h2 w2)))
    = connection_ack "y" :: numbered_from_to 1 4.
Proof.
  destruct connect_replays_backlog as (Hjoin & _ & Hlate).
  assert (unconnected 7 (new_ws_manager 600)) as Hun0.
  { intros r. simpl. rewrite lookup_empty. apply not_elem_of_empty. }
  assert (spares "y" [Broadcast "z" (numbered 8) 6]) as Hack by reflexivity.
  assert (Forall (spares "y") [[Broadcast "z" (numbered 9) 7]]) as Hdur
    by (constructor; [reflexivity|constructor]).
  pose proof (Hlate "y" (numbered_from_to 1 3) 7%nat 0 5 (new_ws_manager 600)
                quiet_world [] [Broadcast "z" (numbered 8) 6]
                [[Broadcast "z" (numbered 9) 7]]
                eq_refl eq_refl eq_refl Hun0 eq_refl Hack Hdur) as H1.
  pose proof (send_logs_unconnected 7 "y" (numbered_from_to 1 3) 0
                (new_ws_manager 600) quiet_world Hun0) as Hun1.
  destruct (send_logs "y" (numbered_from_to 1 3) 0 (new_ws_manager 600)
              quiet_world) as [h1 w1] eqn:E1.
  cbn [fst] in Hun1.
  assert (usable 7 w1 = true) as Hu
    by (injection E1 as <- <-; vm_compute; reflexivity).
  pose proof (Hjoin "y" 7%nat 5 h1 w1 [] [Broadcast "z" (numbered 8) 6]
                [[Broadcast "z" (numbered 9) 7]] Hu Hun1 Hack Hdur) as H2.
  cbv zeta in H2.
  destruct (connect_with [] [Broadcast "z" (numbered 8) 6]
              [[Broadcast "z" (numbered 9) 7]] "y" 7 5 h1 w1) as [[ok h2] w2].
  split; [exact H1|].
  destruct H2 as (_ & _ & _ & H2). rewrite H2.
  injection E1 as <- <-. vm_compute. reflexivity.
Defined.

(** ** Leaving a run *)

(** C8.  [disconnect] takes the socket out of the connection set of the
    run.  When no other socket is left in the set, the activity clock and
    the replay buffer of the run are dropped; when another socket is left,
    both are kept; other runs are not touched.  Hence, after the last
    viewer of a run has left, a message is broadcast and a working socket
    joins: the socket receives the acknowledgement and that message, and
    none of the messages broadcast before. *)
Theorem disconnect_last_drops_buffer :
  (∀ run_id ws h,
     let before := default ∅ (_conns h !! run_id) in
     let h' := disconnect run_id ws h in
     _conns h' !! run_id = Some (before ∖ {[ws]})
     ∧ (before ⊆ {[ws]} →
        _last_activity h' !! run_id = None ∧ _buffers h' !! run_id = None)
     ∧ (before ⊈ {[ws]} →
        _last_activity h' = _last_activity h ∧ _buffers h' = _buffers h)
     ∧ (∀ other, other ≠ run_id →
        _conns h' !! other = _conns h !! other
        ∧ _last_activity h' !! other = _last_activity h !! other
        ∧ _buffers h' !! other = _buffers h !! other))
  ∧ (∀ run_id ws1 ws2 m t1 t2 h w,
       default ∅ (_conns h !! run_id) ⊆ {[ws1]} →
       usable ws2 w = true →
       let h1 := disconnect run_id ws1 h in
       let '(h2, w2) := send_log run_id m t1 h1 w in
       let '(ok, h3, w3) := connect run_id ws2 t2 h2 w2 in
       ok = true
       ∧ trace w3
         = trace w
           ++ [EvAccept ws2; EvSend ws2 (connection_ack run_id); EvSend ws2 m]
       ∧ received ws2 (trace w3)
         = received ws2 (trace w) ++ [connection_ack run_id; m]).
Proof.
  split.
  - intros run_id ws h. cbv zeta. rewrite disconnect_eq.
    unfold drop_viewers. simpl. split; [|split; [|split]].
    + apply lookup_insert_eq.
    + intros Hsub. rewrite bool_decide_eq_true_2 by set_solver.
      by rewrite !lookup_delete_eq.
    + intros Hsub. rewrite bool_decide_eq_false_2; [done|].
      intros He. apply Hsub. intros x Hx.
      destruct (decide (x = ws)) as [->|Hne]; [by apply elem_of_singleton|].
      assert (x ∈ default ∅ (_conns h !! run_id) ∖ {[ws]}) as Hin.
      { apply elem_of_difference. split; [done|].
        by rewrite elem_of_singleton. }
      rewrite He in Hin. by apply not_elem_of_empty in Hin.
    + intros other Hne. rewrite lookup_insert_ne by done.
      destruct (bool_decide _); by rewrite ?lookup_delete_ne.
  - intros run_id ws1 ws2 m t1 t2 h w Hsub Hu. cbv zeta.
    assert (default ∅ (_conns h !! run_id) ∖ {[ws1]} = (∅ : gset nat)) as He
      by set_solver.
    rewrite send_log_eq, disconnect_eq. unfold drop_viewers at 1. simpl.
    rewrite lookup_insert_eq, He.
    unfold leavers. rewrite elements_empty. simpl.
    rewrite after_delivery_nil, connect_usable by done. simpl.
    rewrite lookup_insert_eq, bool_decide_eq_true_2 by done.
    rewrite lookup_delete_eq. simpl.
    split; [done|]. split; [done|].
    rewrite received_app. simpl. by rewrite !Nat.eqb_refl.
Qed.

(** Socket 1 joins run "x", the messages 1, 2, 3 are broadcast, socket 1
    leaves, message 4 is broadcast, socket 2 joins. *)
Lemma disconnect_last_drops_buffer_witness :
  let '(_, h1, w1) := connect "x" 1 0 (new_ws_manager 600) quiet_world in
  let '(h2, w2) := send_logs "x" (numbered_from_to 1 3) 1 h1 w1 in
  let h3 := disconnect "x" 1 h2 in
  let '(h4, w4) := send_log "x" (numbered 4) 5 h3 w2 in
  let '(ok, h5, w5) := connect "x" 2 6 h4 w4 in
  (_last_activity h3 !! "x" = None ∧ _buffers h3 !! "x" = None)
  ∧ ok = true
  ∧ received 2 (trace w5) = [connection_ack "x"; numbered 4].
Proof.
  destruct disconnect_last_drops_buffer as [Hdrop Hrejoin].
  destruct (connect "x" 1 0 (new_ws_manager 600) quiet_world)
    as [[ok1 h1] w1] eqn:E1.
  destruct (send_logs "x" (numbered_from_to 1 3) 1 h1 w1) as [h2 w2] eqn:E2.
  cbv zeta.
  assert (default ∅ (_conns h2 !! "x") ⊆ ({[1%nat]} : gset nat)) as Hsub.
  { injection E1 as <- <- <-. injection E2 as <- <-.
    vm_compute. set_solver. }
  assert (usable 2 w2 = true) as Hu.
  { injection E1 as <- <- <-. injection E2 as <- <-.
    vm_compute. reflexivity. }
  assert (received 2 (trace w2) = []) as Hr.
  { injection E1 as <- <- <-. injection E2 as <- <-.
    vm_compute. reflexivity. }
  pose proof (Hrejoin "x" 1%nat 2%nat (numbered 4) 5 6 h2 w2 Hsub Hu) as H.
  cbv zeta in H.
  destruct (send_log "x" (numbered 4) 5 (disconnect "x" 1 h2) w2) as [h4 w4].
  destruct (connect "x" 2 6 h4 w4) as [[ok h5] w5].
  destruct H as (Hok & _ & Hrec).
  split; [|split; [exact Hok|]].
  - destruct (Hdrop "x" 1%nat h2) as (_ & Hlast & _). by apply Hlast.
  - rewrite Hrec, Hr. reflexivity.
Defined.

(** ** Close tasks *)

Lemma usable_after_close ws p code reason w :
  usable ws (snd (ws_close p code reason w))
  = usable ws w && negb (Nat.eqb p ws && usable p w).
Proof.
  unfold ws_close. destruct (usable p w) eqn:Hp; simpl.
  - unfold usable in *. simpl.
    destruct (Nat.eqb_spec p ws) as [->|Hne]; simpl.
    + rewrite andb_false_r. apply bool_decide_eq_false. set_solver.
    + rewrite andb_true_r. apply bool_decide_ext. set_solver.
  - by rewrite andb_false_r, andb_true_r.
Qed.





(** ** What an operation on one run leaves alone *)

Lemma hub_frame_refl run_id h : hub_frame run_id h h.
Proof. by repeat split. Qed.

Lemma hub_frame_trans run_id h1 h2 h3 :
  hub_frame run_id h1 h2 → hub_frame run_id h2 h3 → hub_frame run_id h1 h3.
Proof.
  intros (Ht & Hr & H12) (Ht' & Hr' & H23).
  split; [congruence|]. split; [congruence|].
  intros other Hne.
  destruct (H12 other Hne) as (? & ? & ?).
  destruct (H23 other Hne) as (? & ? & ?).
  repeat split; congruence.
Qed.

Lemma hub_frame_stamp run_id m now h :
  hub_frame run_id h (stamp_and_buffer run_id m now h).
Proof.
  split; [done|]. split; [done|]. intros other Hne. simpl.
  by rewrite !lookup_insert_ne.
Qed.

Lemma hub_frame_drop_viewers run_id (s : gset nat) h :
  hub_frame run_id h (drop_viewers run_id s h).
Proof.
  split; [done|]. split; [done|]. intros other Hne. simpl.
  rewrite lookup_insert_ne by done.
  destruct (bool_decide (s = ∅)); by rewrite ?lookup_delete_ne.
Qed.

Lemma hub_frame_disconnect_all run_id (d : list nat) h :
  hub_frame run_id h (disconnect_all run_id d h).
Proof.
  destruct d as [|ws d]; [apply hub_frame_refl|].
  rewrite disconnect_all_cons. apply hub_frame_drop_viewers.
Qed.

Lemma hub_frame_send_log run_id m now h w :
  hub_frame run_id h (fst (send_log run_id m now h w)).
Proof.
  rewrite send_log_eq.
  destruct (_conns h !! run_id) as [s|]; simpl;
    [|apply hub_frame_stamp].
  destruct (leavers m w s); [apply hub_frame_stamp|].
  eapply hub_frame_trans; [apply hub_frame_stamp|apply hub_frame_drop_viewers].
Qed.

(** ** Closing every connection of a run *)

Lemma close_each_hub run_id reason (l : list nat) : ∀ h w,
  fst (close_each run_id reason l h w) = disconnect_all run_id l h.
Proof.
  induction l as [|ws l IH]; intros h w; simpl; [done|]. by rewrite IH.
Qed.

Lemma close_each_world run_id reason (l : list nat) : ∀ h w,
  NoDup l →
  (∀ ws, ws ∈ l → usable ws w = true) →
  snd (close_each run_id reason l h w) = after_closing reason w l.
Proof.
  induction l as [|p l IH]; intros h w Hnd Hu; simpl.
  - unfold after_closing. destruct w. simpl. f_equal.
    + set_solver.
    + by rewrite app_nil_r.
  - apply NoDup_cons in Hnd as [Hp Hnd].
    rewrite IH; [|done|].
    + unfold ws_close. rewrite Hu by (by left). unfold after_closing. simpl.
      f_equal; [set_solver|]. by rewrite <- app_assoc.
    + intros ws Hws. rewrite usable_after_close, Hu by (by right). simpl.
      destruct (Nat.eqb_spec p ws) as [->|Hne]; [done|]. simpl. done.
Qed.

Lemma close_all_connections_conns run_id reason h w :
  _conns (fst (close_all_connections run_id reason h w)) !! run_id = None.
Proof.
  unfold close_all_connections.
  destruct (_conns h !! run_id) as [s|] eqn:E; [|done].
  destruct (close_each run_id reason (elements s) h w). simpl.
  apply lookup_delete_eq.
Qed.

Lemma hub_frame_close_all_connections run_id reason h w :
  hub_frame run_id h (fst (close_all_connections run_id reason h w)).
Proof.
  unfold close_all_connections.
  destruct (_conns h !! run_id) as [s|] eqn:E; [|apply hub_frame_refl].
  pose proof (close_each_hub run_id reason (elements s) h w) as Hh.
  destruct (close_each run_id reason (elements s) h w) as [h1 w1].
  simpl in *. subst h1.
  destruct (hub_frame_disconnect_all run_id (elements s) h) as (Ht & Hr & Ho).
  split; [done|]. split; [done|]. intros other Hne. simpl.
  rewrite lookup_delete_ne by done. by apply Ho.
Qed.

Lemma close_all_connections_world run_id reason h w (s : gset nat) :
  _conns h !! run_id = Some s →
  (∀ ws, ws ∈ s → usable ws w = true) →
  snd (close_all_connections run_id reason h w)
  = after_closing reason w (elements s).
Proof.
  intros E Hu. unfold close_all_connections. rewrite E.
  pose proof (close_each_world run_id reason (elements s) h w
                (NoDup_elements s)) as Hw.
  destruct (close_each run_id reason (elements s) h w) as [h1 w1].
  simpl in *. apply Hw. intros ws Hws. apply Hu. by apply elem_of_elements.
Qed.

End Hub.

(** * Properties of the process *)

Section Process.

Implicit Types (sys : System) (run_id : string) (ws : nat) (now : Z).

(** ** Cancellation through the endpoint *)

Lemma cancel_run_events run_id now rm :
  snd (cancel_run run_id now rm) = EvCancelRun run_id :: kill_events rm run_id.
Proof.
  rewrite cancel_run_unfold. unfold kill_events. cbv zeta.
  destruct (active_runs rm !! run_id), (process_pids rm !! run_id); done.
Qed.






(** ** One idle run in the monitor *)

Lemma elem_of_takers sys run_id (msg : message) ws :
  plain msg = true →
  ws ∈ takers sys run_id msg
  ↔ ws ∈ viewers sys run_id ∧ usable ws (world sys) = true.
Proof.
  intros Hp. unfold takers.
  rewrite elem_of_difference, elem_of_list_to_set, elem_of_leavers, Hp.
  rewrite andb_true_r. destruct (usable ws (world sys)); naive_solver.
Qed.

Lemma send_log_conns_none run_id (m : message) now h w :
  _conns h !! run_id = None →
  _conns (fst (send_log run_id m now h w)) !! run_id = None.
Proof. intros E. by rewrite send_log_eq, E. Qed.

Lemma cancel_idle_run_world now (r : string * Q) sys :
  world (cancel_idle_run now r sys)
  = {| failing := failing (world sys);
       closed :=
         list_to_set (elements (takers sys (fst r) (idle_notice sys r)))
         ∪ closed (world sys);
       pending := pending (world sys);
       trace := trace (world sys) ++ idle_run_events sys r |}.
Proof.
  destruct r as [run_id d].
  unfold cancel_idle_run, idle_run_events, idle_notice. simpl.
  set (msg := idle_timeout_message _ _ _).
  assert (plain msg = true) as Hplain by done.
  assert (closing msg = false) as Hclosing by done.
  pose proof (send_log_world run_id msg now (ws_manager sys) (world sys)) as Hw.
  pose proof (send_log_conns run_id msg now (ws_manager sys) (world sys)) as Hc.
  pose proof (send_log_conns_none run_id msg now (ws_manager sys) (world sys))
    as Hn.
  destruct (hub_frame_send_log run_id msg now (ws_manager sys) (world sys))
    as (_ & Hflag & _).
  destruct (send_log run_id msg now (ws_manager sys) (world sys)) as [h1 w1].
  simpl in Hw, Hc, Hn, Hflag. subst w1. rewrite Hflag.
  fold (viewers sys run_id) in *.
  set (evs := if _run_manager (ws_manager sys)
              then EvCancelRun run_id :: kill_events (run_manager sys) run_id
              else []).
  set (w1 := after_delivery msg (world sys) (elements (viewers sys run_id))).
  assert (∃ rm1, (if _run_manager (ws_manager sys) then
                    let '(_, rm', evs') := cancel_run run_id now (run_manager sys) in
                    (rm', emit evs' w1)
                  else (run_manager sys, w1)) = (rm1, emit evs w1)) as [rm1 ->].
  { unfold evs. destruct (_run_manager (ws_manager sys)).
    - pose proof (cancel_run_events run_id now (run_manager sys)) as Hev.
      destruct (cancel_run run_id now (run_manager sys)) as [[ok rm'] evs'].
      simpl in Hev. subst evs'. eauto.
    - rewrite emit_nil. eauto. }
  assert (snd (close_all_connections run_id "Idle timeout" h1 (emit evs w1))
          = after_closing "Idle timeout" (emit evs w1)
              (elements (takers sys run_id msg))) as Hclose.
  { pose proof (elem_of_takers sys run_id msg) as Htk.
    unfold takers, viewers in *.
    destruct (_conns (ws_manager sys) !! run_id) as [s|] eqn:E; simpl in *.
    - apply close_all_connections_world; [by apply Hc|].
      intros ws Hws. by apply (Htk ws Hplain).
    - unfold close_all_connections. rewrite (Hn eq_refl). simpl.
      unfold leavers. rewrite elements_empty. simpl.
      rewrite difference_diag_L, elements_empty.
      unfold after_closing; destruct (emit evs w1); simpl.
      f_equal; [set_solver|by rewrite app_nil_r]. }
  destruct (close_all_connections run_id "Idle timeout" h1 (emit evs w1))
    as [h2 w3].
  simpl in Hclose. subst w3. simpl.
  unfold after_closing, w1, after_delivery. simpl.
  by rewrite app_nil_r, <- !app_assoc.
Qed.

Lemma cancel_idle_run_hub now (r : string * Q) sys :
  hub_frame (fst r) (ws_manager sys) (ws_manager (cancel_idle_run now r sys))
  ∧ _conns (ws_manager (cancel_idle_run now r sys)) !! fst r = None
  ∧ _last_activity (ws_manager (cancel_idle_run now r sys)) !! fst r = None.
Proof.
  destruct r as [run_id d]. unfold cancel_idle_run. simpl.
  set (msg := idle_timeout_message _ _ _).
  pose proof (hub_frame_send_log run_id msg now (ws_manager sys) (world sys))
    as Hf1.
  destruct (send_log run_id msg now (ws_manager sys) (world sys)) as [h1 w1].
  simpl in Hf1.
  destruct (if _run_manager h1 then _ else _) as [rm1 w2].
  pose proof (hub_frame_close_all_connections run_id "Idle timeout" h1 w2)
    as Hf2.
  pose proof (close_all_connections_conns run_id "Idle timeout" h1 w2) as Hc.
  destruct (close_all_connections run_id "Idle timeout" h1 w2) as [h2 w3].
  simpl in *.
  pose proof (hub_frame_trans _ _ _ _ Hf1 Hf2) as (Ht & Hr & Ho).
  destruct (_last_activity h2 !! run_id) eqn:El; simpl.
  - split; [|split; [done|apply lookup_delete_eq]].
    split; [done|]. split; [done|]. intros other Hne. simpl.
    rewrite lookup_delete_ne by done. by apply Ho.
  - split; [|done]. by split.
Qed.

Lemma cancel_run_pids run_id now rm :
  process_pids (snd (fst (cancel_run run_id now rm)))
  = delete run_id (process_pids rm).
Proof.
  rewrite cancel_run_unfold. cbv zeta.
  destruct (active_runs rm !! run_id); simpl;
    by rewrite unregister_process_pids.
Qed.

Lemma cancel_idle_run_registry now (r : string * Q) sys :
  run_manager (cancel_idle_run now r sys)
  = if _run_manager (ws_manager sys)
    then snd (fst (cancel_run (fst r) now (run_manager sys)))
    else run_manager sys.
Proof.
  destruct r as [run_id d]. unfold cancel_idle_run. simpl.
  set (msg := idle_timeout_message _ _ _).
  destruct (hub_frame_send_log run_id msg now (ws_manager sys) (world sys))
    as (_ & Hflag & _).
  destruct (send_log run_id msg now (ws_manager sys) (world sys)) as [h1 w1].
  simpl in Hflag. rewrite Hflag.
  destruct (_run_manager (ws_manager sys)).
  - destruct (cancel_run run_id now (run_manager sys)) as [[ok rm'] evs].
    by destruct (close_all_connections run_id "Idle timeout" h1 (emit evs w1)).
  - by destruct (close_all_connections run_id "Idle timeout" h1 w1).
Qed.

(** The entries of the other runs in the registry are left alone. *)
Lemma cancel_idle_run_registry_frame now (r : string * Q) sys other :
  other ≠ fst r →
  active_runs (run_manager (cancel_idle_run now r sys)) !! other
    = active_runs (run_manager sys) !! other
  ∧ completed_runs (run_manager (cancel_idle_run now r sys)) !! other
    = completed_runs (run_manager sys) !! other
  ∧ process_pids (run_manager (cancel_idle_run now r sys)) !! other
    = process_pids (run_manager sys) !! other.
Proof.
  intros Hne. rewrite cancel_idle_run_registry.
  destruct (_run_manager (ws_manager sys)); [|done].
  pose proof (rm_step_active now (OpCancel (fst r)) (run_manager sys) other) as Ha.
  pose proof (rm_step_completed now (OpCancel (fst r)) (run_manager sys) other)
    as Hc.
  simpl in Ha, Hc. rewrite Ha, Hc, cancel_run_pids.
  rewrite lookup_delete_ne by done.
  destruct (active_runs (run_manager sys) !! fst r); [|done].
  by rewrite decide_False by done.
Qed.



(** ** The scan of the monitor *)

Lemma exceeds_timeout_spec now last timeout :
  exceeds_timeout (idle_duration now last) timeout = true
  ↔ timeout * 1000000 < now - last.
Proof.
  unfold exceeds_timeout, idle_duration, Qle_bool. simpl.
  rewrite negb_true_iff, Z.leb_gt. lia.
Qed.

Lemma is_idle_spec now h run_id last :
  is_idle now h (run_id, last) = true
  ↔ IDLE_TIMEOUT_SECONDS h * 1000000 < now - last
    ∧ ∃ s : gset nat, _conns h !! run_id = Some s ∧ s ≠ ∅.
Proof.
  unfold is_idle. simpl. rewrite andb_true_iff, exceeds_timeout_spec.
  destruct (_conns h !! run_id) as [s|].
  - rewrite negb_true_iff, bool_decide_eq_false. naive_solver.
  - naive_solver.
Qed.

Lemma elem_of_find_idle_runs now h run_id (d : Q) :
  (run_id, d) ∈ find_idle_runs now h
  ↔ ∃ last, _last_activity h !! run_id = Some last
            ∧ d = idle_duration now last
            ∧ is_idle now h (run_id, last) = true.
Proof.
  unfold find_idle_runs. rewrite list_elem_of_In, List.in_map_iff. split.
  - intros ([id last] & Heq & Hin). simpl in Heq. injection Heq as -> <-.
    apply List.filter_In in Hin as [Hin Hidle].
    apply list_elem_of_In, elem_of_map_to_list in Hin. eauto.
  - intros (last & Hla & -> & Hidle). exists (run_id, last). split; [done|].
    apply List.filter_In. split; [|done].
    by apply list_elem_of_In, elem_of_map_to_list.
Qed.



(** ** The second loop of the monitor *)

Lemma cancel_idle_runs_frame now (l : list (string * Q)) : ∀ sys other,
  other ∉ List.map fst l →
  let sys' := cancel_idle_runs now l sys in
  _conns (ws_manager sys') !! other = _conns (ws_manager sys) !! other
  ∧ _last_activity (ws_manager sys') !! other
    = _last_activity (ws_manager sys) !! other
  ∧ active_runs (run_manager sys') !! other
    = active_runs (run_manager sys) !! other
  ∧ completed_runs (run_manager sys') !! other
    = completed_runs (run_manager sys) !! other
  ∧ process_pids (run_manager sys') !! other
    = process_pids (run_manager sys) !! other.
Proof.
  induction l as [|r l IH]; intros sys other Hnin; simpl; [done|].
  simpl in Hnin. apply not_elem_of_cons in Hnin as [Hne Hnin].
  destruct (IH (cancel_idle_run now r sys) other Hnin)
    as (-> & -> & -> & -> & ->).
  destruct (cancel_idle_run_hub now r sys) as ((_ & _ & Ho) & _).
  destruct (Ho other Hne) as (-> & -> & _).
  by destruct (cancel_idle_run_registry_frame now r sys other Hne)
    as (-> & -> & ->).
Qed.


Lemma elem_of_idle_run_events sys (r : string * Q) run_id :
  EvCancelRun run_id ∈ idle_run_events sys r → run_id = fst r.
Proof.
  unfold idle_run_events. rewrite !elem_of_app.
  intros [Hin|[Hin|Hin]].
  - apply list_elem_of_In, List.in_map_iff in Hin as (ws & Heq & _).
    unfold send_event in Heq. by destruct (usable ws (world sys)).
  - destruct (_run_manager (ws_manager sys)); [|by apply elem_of_nil in Hin].
    apply elem_of_cons in Hin as [Heq|Hin]; [congruence|].
    unfold kill_events in Hin.
    destruct (process_pids (run_manager sys) !! fst r);
      [|by apply elem_of_nil in Hin].
    apply list_elem_of_singleton in Hin. discriminate.
  - apply list_elem_of_In, List.in_map_iff in Hin as (ws & Heq & _).
    discriminate.
Qed.

Lemma cancel_idle_runs_trace now (l : list (string * Q)) : ∀ sys,
  ∃ delta,
    trace (world (cancel_idle_runs now l sys)) = trace (world sys) ++ delta
    ∧ ∀ run_id, EvCancelRun run_id ∈ delta → run_id ∈ List.map fst l.
Proof.
  induction l as [|r l IH]; intros sys; simpl.
  - exists []. rewrite app_nil_r. split; [done|].
    intros run_id Hin. by apply elem_of_nil in Hin.
  - destruct (IH (cancel_idle_run now r sys)) as (delta & Ht & Hd).
    exists (idle_run_events sys r ++ delta). split.
    + rewrite Ht, cancel_idle_run_world. simpl. by rewrite <- app_assoc.
    + intros run_id [Hin|Hin]%elem_of_app; apply elem_of_cons.
      * left. by apply (elem_of_idle_run_events sys).
      * right. by apply Hd.
Qed.








End Process.

(** * More on the registry *)

Section RegistryMore.

Implicit Types (rm : RunManager) (run_id : string) (now : Z).

(** ** The pid file *)

Lemma unregister_process_pid_file run_id rm :
  pid_file_current rm → pid_file_current (unregister_process run_id rm).
Proof.
  unfold unregister_process. destruct (process_pids rm !! run_id); [|done].
  intros _. by left.
Qed.

Lemma rm_step_pid_file now op rm :
  pid_file_current rm → pid_file_current (rm_step now op rm).
Proof.
  intros H. destruct op as [id job|id ok|id|id pid|id]; simpl.
  - unfold add_run. by destruct (_ <? _).
  - unfold complete_run. by destruct (active_runs rm !! id).
  - rewrite cancel_run_unfold. cbv zeta.
    pose proof (unregister_process_pid_file id rm H) as H'.
    by destruct (active_runs rm !! id).
  - by left.
  - by apply unregister_process_pid_file.
Qed.

Lemma rm_run_pid_file ops : ∀ now rm,
  pid_file_current rm → pid_file_current (rm_run now ops rm).
Proof.
  induction ops as [|op ops IH]; intros now rm H; simpl; [done|].
  by apply IH, rm_step_pid_file.
Qed.

Lemma new_run_manager_pid_file c : pid_file_current (new_run_manager c).
Proof. by right. Qed.

(** X1.  Whatever calls are made on a fresh registry, the pid file is
    written through: it holds exactly the pid table, or it does not exist
    yet and the table is still empty.  After [register_process] the file
    exists and holds the new pid. *)
Theorem pid_file_written_through (c now : Z) (ops : list rm_op) :
  let rm := rm_run now ops (new_run_manager c) in
  pid_file_current rm
  ∧ ∀ run_id pid,
      let rm' := register_process run_id pid rm in
      ∃ file, pid_file rm' = Some file ∧ file !! run_id = Some pid
              ∧ file = process_pids rm'.
Proof.
  cbv zeta. split.
  - apply rm_run_pid_file, new_run_manager_pid_file.
  - intros run_id pid. eexists. split; [done|]. split; [|done].
    simpl. apply lookup_insert_eq.
Qed.

(** ** The status of the system *)

(** X2.  The status of the system tells what [add_run] will answer: it is
    ["available"] exactly when [add_run] starts the run, which is when
    [can_start_run] holds and when the number of free slots is positive;
    it is ["at_capacity"] exactly when [add_run] refuses.  The active
    count and the free slots add up to the ceiling. *)
Theorem system_status_tells_add_run rm run_id (job : message) now :
  let st := get_system_status rm in
  (ss_system_status st = "available"
   ↔ fst (add_run run_id job now rm) = Started run_id)
  ∧ (ss_system_status st = "at_capacity"
     ↔ add_result_status (fst (add_run run_id job now rm)) = "at_capacity")
  ∧ (ss_system_status st = "available" ↔ can_start_run rm = true)
  ∧ (ss_system_status st = "available" ↔ 0 < ss_available_slots st)
  ∧ Z.of_nat (ss_active_runs_count st) + ss_available_slots st
    = ss_max_concurrent st
  ∧ length (ss_active_runs st) = ss_active_runs_count st.
Proof.
  cbv zeta. unfold get_system_status, add_run, can_start_run. simpl.
  destruct (Z.leb_spec (max_concurrent rm) (Z.of_nat (size (active_runs rm))))
    as [Hle|Hlt].
  - rewrite (proj2 (Z.ltb_ge _ _) Hle). simpl.
    repeat split; try done; try lia.
    by rewrite length_map, length_map_to_list.
  - rewrite (proj2 (Z.ltb_lt _ _) Hlt). simpl.
    repeat split; try done; try lia.
    by rewrite length_map, length_map_to_list.
Qed.

(** ** The recently completed runs *)

Lemma key_le_total (a b : option Z) : key_le a b = true ∨ key_le b a = true.
Proof. destruct a, b; simpl; try tauto. lia. Qed.

Lemma key_le_trans (a b c : option Z) :
  key_le a b = true → key_le b c = true → key_le a c = true.
Proof. destruct a, b, c; simpl; try done. lia. Qed.

Lemma insert_desc_perm x (l : list (string * run_data)) :
  insert_desc x l ≡ₚ x :: l.
Proof.
  induction l as [|y l IH]; simpl; [done|].
  destruct (key_le _ _); [done|]. rewrite IH. apply Permutation_swap.
Qed.

Lemma sorted_desc_perm (l : list (string * run_data)) : sorted_desc l ≡ₚ l.
Proof.
  induction l as [|x l IH]; simpl; [done|].
  by rewrite insert_desc_perm, IH.
Qed.

Lemma insert_desc_sorted x (l : list (string * run_data)) :
  StronglySorted desc l → StronglySorted desc (insert_desc x l).
Proof.
  induction 1 as [|y l Hl IH Hy]; simpl.
  - repeat constructor.
  - destruct (key_le (completed_key y) (completed_key x)) eqn:E.
    + constructor; [by constructor|]. constructor; [done|].
      eapply Forall_impl; [exact Hy|]. intros z Hz. unfold desc in *.
      by eapply key_le_trans.
    + constructor; [done|]. rewrite insert_desc_perm. constructor; [|done].
      unfold desc. destruct (key_le_total (completed_key x) (completed_key y));
        [done|congruence].
Qed.

Lemma sorted_desc_sorted (l : list (string * run_data)) :
  StronglySorted desc (sorted_desc l).
Proof.
  induction l as [|x l IH]; simpl; [constructor|].
  by apply insert_desc_sorted.
Qed.

(** X3.  The list of recently completed runs has five entries, or as many
    as there are completed runs if these are fewer.  Each entry is a run
    of [completed_runs] with its status and time of completion, no run is
    listed twice, and the list is ordered by [completed_at], latest first,
    the runs without one (the cancelled runs) last.  No run left out was
    completed later than a listed one. *)
Theorem recent_completed_is_top_five rm :
  let recent := ss_recent_completed (get_system_status rm) in
  length recent = (5 `min` size (completed_runs rm))%nat
  ∧ (∀ info, info ∈ recent →
       ∃ rd, completed_runs rm !! ci_run_id info = Some rd
             ∧ ci_status info = rd_status rd
             ∧ ci_completed_at info = rd_completed_at rd)
  ∧ NoDup (List.map ci_run_id recent)
  ∧ StronglySorted not_later recent
  ∧ (∀ run_id rd info,
       completed_runs rm !! run_id = Some rd →
       run_id ∉ List.map ci_run_id recent →
       info ∈ recent →
       key_le (rd_completed_at rd) (ci_completed_at info) = true).
Proof.
  cbv zeta. unfold get_system_status. simpl.
  set (all := sorted_desc (map_to_list (completed_runs rm))).
  set (f := fun e : string * run_data => _).
  assert (all ≡ₚ map_to_list (completed_runs rm)) as Hperm
    by apply sorted_desc_perm.
  assert (StronglySorted desc all) as Hsorted by apply sorted_desc_sorted.
  assert (∀ e, ci_run_id (f e) = fst e) as Hid by done.
  assert (List.map ci_run_id (List.map f (take 5 all))
          = List.map fst (take 5 all)) as Hids.
  { rewrite List.map_map. by apply List.map_ext. }
  assert (NoDup (List.map fst all)) as Hnd.
  { rewrite (Permutation_map fst Hperm). apply NoDup_fst_map_to_list. }
  split; [|split; [|split; [|split]]].
  - rewrite length_map, length_take.
    by rewrite (Permutation_length Hperm), length_map_to_list.
  - intros info Hin.
    apply list_elem_of_In, List.in_map_iff in Hin as ([id rd] & <- & Hin).
    apply list_elem_of_In in Hin.
    assert ((id, rd) ∈ all) as Hall.
    { rewrite <- (take_drop 5 all). apply elem_of_app. by left. }
    rewrite Hperm in Hall. apply elem_of_map_to_list in Hall.
    exists rd. by simpl.
  - rewrite Hids. rewrite <- (take_drop 5 all), List.map_app in Hnd.
    by apply NoDup_app in Hnd as [? _].
  - apply (StronglySorted_fmap f desc not_later); [by intros x y|].
    rewrite <- (take_drop 5 all) in Hsorted.
    by apply StronglySorted_app_1_l in Hsorted.
  - intros run_id rd info Hrd Hnot Hin. rewrite Hids in Hnot.
    apply list_elem_of_In, List.in_map_iff in Hin as (e & <- & Hin).
    apply list_elem_of_In in Hin.
    assert ((run_id, rd) ∈ drop 5 all) as Hdrop.
    { assert ((run_id, rd) ∈ all) as Hall
        by (rewrite Hperm; by apply elem_of_map_to_list).
      rewrite <- (take_drop 5 all) in Hall.
      apply elem_of_app in Hall as [Htake|?]; [|done].
      exfalso. apply Hnot.
      apply list_elem_of_In, List.in_map_iff. exists (run_id, rd).
      split; [done|]. by apply list_elem_of_In. }
    rewrite <- (take_drop 5 all) in Hsorted.
    apply (StronglySorted_app_1_elem_of desc _ _ e (run_id, rd) Hsorted Hin Hdrop).
Qed.

End RegistryMore.

(** * Processes: signals, orphans, start and stop *)

Section Supervision.

Implicit Types (rm : RunManager) (sys : System) (run_id : string) (now : Z).

(** ** The termination protocol *)

Lemma rounds_S (n : nat) (pid : Z) :
  rounds (S n) pid = Os.Kill pid Os.SIG0 true :: Os.Sleep :: rounds n pid.
Proof. done. Qed.

Lemma wait_for_exit_shape os_kill (pid : Z) (n : nat) : ∀ history,
  let '(still_there, h) := Os.wait_for_exit os_kill n pid history in
  (still_there = true ∧ h = history ++ rounds n pid)
  ∨ (still_there = false
     ∧ ∃ k, (k < n)%nat
            ∧ h = history ++ rounds k pid ++ [Os.Kill pid Os.SIG0 false]).
Proof.
  induction n as [|n IH]; intros history; simpl.
  - left. split; [done|]. unfold rounds. simpl. by rewrite app_nil_r.
  - destruct (os_kill history pid Os.SIG0) eqn:E.
    + specialize (IH ((history ++ [Os.Kill pid Os.SIG0 true]) ++ [Os.Sleep])).
      destruct (Os.wait_for_exit os_kill n pid _) as [still h].
      destruct IH as [[-> ->]|(-> & k & Hk & ->)].
      * left. split; [done|]. rewrite rounds_S, <- !app_assoc. done.
      * right. split; [done|]. exists (S k). split; [lia|].
        rewrite rounds_S, <- !app_assoc. done.
    + right. split; [done|]. exists 0%nat. split; [lia|]. done.
Qed.

(** X4.  [kill_process] answers [True] on every path, as the short form
    used above has it.  It first sends SIGTERM; when that raises, nothing
    else is done.  Otherwise it probes the process up to [timeout * 10]
    times with a sleep after each probe that finds it running: it stops
    at the first probe that finds the process gone, and sends SIGKILL
    only when every one of the probes found it running (at once when
    [timeout] is zero or negative). *)
Theorem kill_process_protocol (os_kill : list Os.os_event → Z → Os.signal → bool)
    (pid timeout : Z) (history : list Os.os_event) :
  let n := Z.to_nat (timeout * 10) in
  let '(answer, h) := Os.kill_process os_kill pid timeout history in
  answer = true
  ∧ answer = fst (kill_process pid)
  ∧ ((os_kill history pid Os.SIGTERM = false
      ∧ h = history ++ [Os.Kill pid Os.SIGTERM false])
     ∨ (os_kill history pid Os.SIGTERM = true
        ∧ ((∃ k, (k < n)%nat
                 ∧ h = history ++ Os.Kill pid Os.SIGTERM true
                       :: rounds k pid ++ [Os.Kill pid Os.SIG0 false])
           ∨ (∃ delivered,
                h = history ++ Os.Kill pid Os.SIGTERM true
                      :: rounds n pid ++ [Os.Kill pid Os.SIGKILL delivered])))).
Proof.
  cbv zeta. unfold Os.kill_process.
  destruct (os_kill history pid Os.SIGTERM) eqn:E.
  - pose proof (wait_for_exit_shape os_kill pid (Z.to_nat (timeout * 10))
                  (history ++ [Os.Kill pid Os.SIGTERM true])) as H.
    destruct (Os.wait_for_exit os_kill _ pid _) as [still h].
    destruct H as [[-> ->]|(-> & k & Hk & ->)].
    + split; [done|]. split; [done|]. right. split; [done|]. right.
      eexists. rewrite <- !app_assoc. done.
    + split; [done|]. split; [done|]. right. split; [done|]. left.
      exists k. split; [done|]. by rewrite <- !app_assoc.
  - split; [done|]. split; [done|]. by left.
Qed.

(** ** Orphans *)

Lemma reap_orphans_events running (l : list (string * Z)) : ∀ acc,
  ∃ new,
    fold_left (reap_orphan running) l acc = acc ++ new
    ∧ (∀ e, e ∈ new → ∃ run_id pid, e = EvKill pid ∧ (run_id, pid) ∈ l)
    ∧ ∀ alive : Z → bool,
        (∀ evs pid, running evs pid = alive pid) →
        ∀ pid, EvKill pid ∈ new
               ↔ ∃ run_id, (run_id, pid) ∈ l ∧ alive pid = true.
Proof.
  induction l as [|[id p] l IH]; intros acc; simpl.
  - exists []. rewrite app_nil_r. split; [done|]. split.
    + intros e He. by apply elem_of_nil in He.
    + intros alive _ pid. split.
      * intros He. by apply elem_of_nil in He.
      * intros (r & Hr & _). by apply elem_of_nil in Hr.
  - destruct (IH (reap_orphan running acc (id, p))) as (new & Hf & Hin & Hst).
    unfold reap_orphan in *. simpl in *.
    destruct (running acc p) eqn:Er.
    + exists (EvKill p :: new). rewrite Hf, <- app_assoc. split; [done|]. split.
      * intros e [->|He]%elem_of_cons.
        -- exists id, p. split; [done|]. by left.
        -- destruct (Hin e He) as (r & q & -> & Hq).
           exists r, q. split; [done|]. by right.
      * intros alive Halive pid. rewrite elem_of_cons, (Hst alive Halive pid).
        split.
        -- intros [Heq|(r & Hr & Ha)].
           ++ injection Heq as ->. exists id. split; [by left|].
              by rewrite <- (Halive acc p).
           ++ exists r. split; [by right|done].
        -- intros (r & [Heq|Hr]%elem_of_cons & Ha).
           ++ injection Heq as -> ->. by left.
           ++ right. eauto.
    + exists new. split; [done|]. split.
      * intros e He. destruct (Hin e He) as (r & q & -> & Hq).
        exists r, q. split; [done|]. by right.
      * intros alive Halive pid. rewrite (Hst alive Halive pid). split.
        -- intros (r & Hr & Ha). exists r. split; [by right|done].
        -- intros (r & [Heq|Hr]%elem_of_cons & Ha).
           ++ injection Heq as -> ->. rewrite (Halive acc p) in Er. congruence.
           ++ eauto.
Qed.

(** X5.  [load_orphaned_pids] changes nothing when there is no pid file
    or when the file cannot be read.  Otherwise it removes the file and
    kills recorded processes only: every process killed is a recorded one
    that the liveness probe found running, and when the answer of the
    probe depends on the pid alone, these are exactly the processes
    killed.  The collections, the ceiling and the pid table in memory are
    left alone, and a second call finds nothing to do. *)
Theorem load_orphaned_pids_sweeps (readable : bool)
    (running : list event → Z → bool) rm :
  let '(rm', evs) := load_orphaned_pids readable running rm in
  max_concurrent rm' = max_concurrent rm
  ∧ active_runs rm' = active_runs rm
  ∧ completed_runs rm' = completed_runs rm
  ∧ process_pids rm' = process_pids rm
  ∧ match pid_file rm with
    | Some file =>
        if readable then
          pid_file rm' = None
          ∧ (∀ e, e ∈ evs →
               ∃ run_id pid, e = EvKill pid ∧ file !! run_id = Some pid)
          ∧ (∀ alive : Z → bool,
               (∀ evs' pid, running evs' pid = alive pid) →
               ∀ pid, EvKill pid ∈ evs
                      ↔ ∃ run_id, file !! run_id = Some pid
                                  ∧ alive pid = true)
        else rm' = rm ∧ evs = []
    | None => rm' = rm ∧ evs = []
    end
  ∧ load_orphaned_pids readable running rm' = (rm', []).
Proof.
  unfold load_orphaned_pids.
  destruct (pid_file rm) as [file|] eqn:Ef; [destruct readable|].
  - destruct (reap_orphans_events running (map_to_list file) [])
      as (new & Hf & Hin & Hst).
    simpl in Hf. rewrite Hf. simpl.
    repeat split; try done.
    + intros e He. destruct (Hin e He) as (r & p & -> & Hp).
      exists r, p. split; [done|]. by apply elem_of_map_to_list.
    + intros Hk. apply (Hst alive H pid) in Hk as (r & Hr & Ha).
      exists r. split; [by apply elem_of_map_to_list|done].
    + intros (r & Hr & Ha). apply (Hst alive H pid).
      exists r. split; [by apply elem_of_map_to_list|done].
  - rewrite Ef. done.
  - rewrite Ef. done.
Qed.

Lemma pid_file_current_lookup rm run_id (pid : Z) :
  pid_file_current rm →
  process_pids rm !! run_id = Some pid
  ↔ ∃ file, pid_file rm = Some file ∧ file !! run_id = Some pid.
Proof.
  intros [Hf|[Hf He]].
  - rewrite Hf. split; [eauto|]. by intros (file & [= <-] & ?).
  - rewrite Hf, He. split.
    + by rewrite lookup_empty.
    + by intros (file & ? & ?).
Qed.

(** X6.  A crash and a restart: after any calls on a fresh registry, a
    new registry that starts on the pid file left behind removes the file
    and kills exactly the processes that were registered when the first
    one stopped and that are still running. *)
Theorem restart_reaps_registered (c c' now : Z) (ops : list rm_op)
    (alive : Z → bool) :
  let rm := rm_run now ops (new_run_manager c) in
  let '(rm', evs) := init_run_manager c' (pid_file rm) true (fun _ => alive) in
  pid_file rm' = None
  ∧ process_pids rm' = ∅
  ∧ active_runs rm' = ∅
  ∧ (∀ pid, EvKill pid ∈ evs
            ↔ ∃ run_id, process_pids rm !! run_id = Some pid
                        ∧ alive pid = true)
  ∧ ∀ e, e ∈ evs → ∃ pid, e = EvKill pid.
Proof.
  cbv zeta. set (rm := rm_run now ops (new_run_manager c)).
  assert (pid_file_current rm) as Hcur
    by apply rm_run_pid_file, new_run_manager_pid_file.
  unfold init_run_manager.
  unfold load_orphaned_pids. simpl.
  destruct (pid_file rm) as [file|] eqn:Ef.
  - destruct (reap_orphans_events (fun _ => alive) (map_to_list file) [])
      as (new & Hf & Hin & Hst).
    simpl in Hf. rewrite Hf. simpl.
    split; [done|]. split; [done|]. split; [done|]. split.
    + intros pid. rewrite (Hst alive (fun _ _ => eq_refl) pid).
      split.
      * intros (r & Hr%elem_of_map_to_list & Ha). exists r. split; [|done].
        apply (pid_file_current_lookup rm r pid Hcur). rewrite Ef. eauto.
      * intros (r & Hr & Ha). exists r. split; [|done].
        apply elem_of_map_to_list.
        apply (pid_file_current_lookup rm r pid Hcur) in Hr
          as (file' & Hf' & Hr).
        rewrite Ef in Hf'. by injection Hf' as <-.
    + intros e He. destruct (Hin e He) as (r & p & -> & _). eauto.
  - simpl. split; [done|]. split; [done|]. split; [done|]. split.
    + intros pid. split.
      * intros He. by apply elem_of_nil in He.
      * intros (r & Hr & _).
        apply (pid_file_current_lookup rm r pid Hcur) in Hr
          as (file & Hf & _).
        rewrite Ef in Hf. done.
    + intros e He. by apply elem_of_nil in He.
Qed.

(** ** Stopping the service *)

Lemma kill_all_events (l : list (string * Z)) (e : event) :
  e ∈ List.flat_map (fun x : string * Z => snd (kill_process (snd x))) l
  ↔ ∃ run_id pid, e = EvKill pid ∧ (run_id, pid) ∈ l.
Proof.
  rewrite list_elem_of_In, List.in_flat_map. split.
  - intros ([r p] & Hin & He). simpl in He. destruct He as [<-|[]].
    exists r, p. split; [done|]. by apply list_elem_of_In.
  - intros (r & p & -> & Hin). exists (r, p). split.
    + by apply list_elem_of_In.
    + simpl. by left.
Qed.

(** X7.  When the service stops, every process that is registered is
    killed, and no other; the pid file is removed, so that the next start
    finds no orphan to reap.  The hub, the input queues and the two
    collections of runs are left as they are. *)
Theorem shutdown_kills_registered sys :
  let sys' := shutdown sys in
  (∃ new, trace (world sys') = trace (world sys) ++ new
          ∧ ∀ e, e ∈ new
                 ↔ ∃ run_id pid,
                     e = EvKill pid
                     ∧ process_pids (run_manager sys) !! run_id = Some pid)
  ∧ pid_file (run_manager sys') = None
  ∧ (∀ c readable running,
       init_run_manager c (pid_file (run_manager sys')) readable running
       = (new_run_manager c, []))
  ∧ ws_manager sys' = ws_manager sys
  ∧ input_queues sys' = input_queues sys
  ∧ active_runs (run_manager sys') = active_runs (run_manager sys)
  ∧ completed_runs (run_manager sys') = completed_runs (run_manager sys).
Proof.
  cbv zeta. unfold shutdown. simpl. split; [|done].
  eexists. split; [done|]. intros e. rewrite kill_all_events.
  split; intros (r & p & -> & Hin); exists r, p; (split; [done|]);
    by apply elem_of_map_to_list.
Qed.

End Supervision.

(** * Starting a run and its completion *)

Section Orchestration.

Implicit Types (rm : RunManager) (sys : System) (run_id : string) (now : Z).

(** X8.  [start_run] answers 202 when the number of active runs is below
    the ceiling and 503 otherwise.  With 202 the run is running and has an
    input queue; when the id was active already, the number of active runs
    does not grow.  With 503 nothing at all has changed: no run is
    recorded and no input queue created.  The hub and the sockets are not
    touched in either case. *)
Theorem start_run_answers run_id (job : message) now sys :
  let '(code, result, sys') := start_run run_id job now sys in
  (code = 202
   ↔ Z.of_nat (size (active_runs (run_manager sys)))
     < max_concurrent (run_manager sys))
  ∧ (code = 503
     ↔ max_concurrent (run_manager sys)
       ≤ Z.of_nat (size (active_runs (run_manager sys))))
  ∧ (code = 202 →
     result = Started run_id
     ∧ get_run_status run_id (run_manager sys') = "running"
     ∧ run_id ∈ input_queues sys'
     ∧ (is_Some (active_runs (run_manager sys) !! run_id) →
        size (active_runs (run_manager sys'))
        = size (active_runs (run_manager sys))))
  ∧ (code = 503 → sys' = sys)
  ∧ ws_manager sys' = ws_manager sys
  ∧ world sys' = world sys.
Proof.
  unfold start_run, add_run.
  destruct (Z.ltb_spec (Z.of_nat (size (active_runs (run_manager sys))))
              (max_concurrent (run_manager sys))) as [Hlt|Hge]; simpl.
  - split; [done|]. split; [split; [done|lia]|].
    split; [|done]. intros _. split; [done|]. split; [|split].
    + unfold get_run_status. simpl. by rewrite lookup_insert_eq.
    + set_solver.
    + intros Hact. by rewrite map_size_insert_Some.
  - split; [split; [done|lia]|]. split; [done|]. split; [done|].
    split; [|done]. intros _. by destruct sys.
Qed.

Lemma complete_run_lookup run_id (success : bool) now rm other :
  other ≠ run_id →
  active_runs (complete_run run_id success now rm) !! other
    = active_runs rm !! other
  ∧ completed_runs (complete_run run_id success now rm) !! other
    = completed_runs rm !! other.
Proof.
  intros Hne. unfold complete_run.
  destruct (active_runs rm !! run_id); simpl; [|done].
  by rewrite lookup_delete_ne, lookup_insert_ne.
Qed.

(** X9.  When the launch is over, no pid is registered for the run,
    and the other runs, the hub and the sockets are not touched.  When the
    launch returned, or raised an exception that [except Exception]
    catches, the run is no longer active and its input queue is gone: a
    run that was still active is now ["completed"] when the launch
    returned a true [success], and ["failed"] otherwise (the launch
    raised, [success] is missing or false); a run that was no longer
    active (cancelled in between) keeps the status it had.  When the
    launch was cancelled ([asyncio.CancelledError] is not caught), the
    run is not completed and keeps its input queue: both collections of
    runs and the input queues are as before, so a run that was active
    stays active. *)
Theorem run_with_completion_settles run_id (outcome : launch_outcome) now sys :
  let sys' := run_with_completion run_id outcome now sys in
  process_pids (run_manager sys') !! run_id = None
  ∧ (outcome ≠ LaunchCancelled →
     active_runs (run_manager sys') !! run_id = None
     ∧ (run_id ∉ input_queues sys')
     ∧ (is_Some (active_runs (run_manager sys) !! run_id) →
        get_run_status run_id (run_manager sys')
        = if launch_succeeded outcome then "completed" else "failed")
     ∧ (active_runs (run_manager sys) !! run_id = None →
        completed_runs (run_manager sys') = completed_runs (run_manager sys)
        ∧ get_run_status run_id (run_manager sys')
          = match completed_runs (run_manager sys) !! run_id with
            | Some rd => RunStatus_value (rd_status rd)
            | None => "not_found"
            end))
  ∧ (outcome = LaunchCancelled →
     active_runs (run_manager sys') = active_runs (run_manager sys)
     ∧ completed_runs (run_manager sys') = completed_runs (run_manager sys)
     ∧ input_queues sys' = input_queues sys
     ∧ get_run_status run_id (run_manager sys')
       = get_run_status run_id (run_manager sys))
  ∧ (∀ other, other ≠ run_id →
       active_runs (run_manager sys') !! other
         = active_runs (run_manager sys) !! other
       ∧ completed_runs (run_manager sys') !! other
         = completed_runs (run_manager sys) !! other
       ∧ process_pids (run_manager sys') !! other
         = process_pids (run_manager sys) !! other)
  ∧ ws_manager sys' = ws_manager sys
  ∧ world sys' = world sys.
Proof.
  cbv zeta.
  set (rm1 := match outcome with
              | LaunchReturned (Some p) _ =>
                  register_process run_id p (run_manager sys)
              | _ => run_manager sys
              end).
  set (rm2 := unregister_process run_id rm1).
  assert (active_runs rm1 = active_runs (run_manager sys)) as Ha1
    by (unfold rm1; by destruct outcome as [| |[p|] ?]).
  assert (completed_runs rm1 = completed_runs (run_manager sys)) as Hc1
    by (unfold rm1; by destruct outcome as [| |[p|] ?]).
  assert (∀ other, other ≠ run_id →
            process_pids rm1 !! other = process_pids (run_manager sys) !! other)
    as Hp1.
  { intros other Hne. unfold rm1.
    destruct outcome as [| |[p|] ?]; simpl; try done.
    by rewrite lookup_insert_ne. }
  assert (active_runs rm2 = active_runs (run_manager sys)) as Ha2
    by (unfold rm2; by rewrite unregister_process_active).
  assert (completed_runs rm2 = completed_runs (run_manager sys)) as Hc2
    by (unfold rm2; by rewrite unregister_process_completed).
  assert (process_pids rm2 = delete run_id (process_pids rm1)) as Hp2
    by apply unregister_process_pids.
  assert (outcome = LaunchCancelled ∨ outcome ≠ LaunchCancelled) as [E|Hnc]
    by (destruct outcome; [by right|by left|by right]).
  - assert (run_with_completion run_id outcome now sys
            = {| run_manager := rm2; ws_manager := ws_manager sys;
                 input_queues := input_queues sys; world := world sys |}) as ->.
    { unfold rm2, rm1. by rewrite E. }
    cbn [run_manager ws_manager input_queues world].
    split; [rewrite Hp2; apply lookup_delete_eq|].
    split; [done|]. split.
    { intros _. split; [done|]. split; [done|]. split; [done|].
      unfold get_run_status. by rewrite Ha2, Hc2. }
    split; [|done]. intros other Hne. rewrite Ha2, Hc2, Hp2.
    rewrite lookup_delete_ne by done. by rewrite Hp1.
  - set (success := launch_succeeded outcome).
    assert (run_with_completion run_id outcome now sys
            = {| run_manager := complete_run run_id success now rm2;
                 ws_manager := ws_manager sys;
                 input_queues := input_queues sys ∖ {[run_id]};
                 world := world sys |}) as ->.
    { unfold rm2, rm1, success. by destruct outcome as [| |[p|] [v|]]. }
    cbn [run_manager ws_manager input_queues world].
    assert (process_pids (complete_run run_id success now rm2)
            = process_pids rm2) as Hp3.
    { unfold complete_run. by destruct (active_runs rm2 !! run_id). }
    split; [rewrite Hp3, Hp2; apply lookup_delete_eq|].
    split.
    { intros _. split; [|split; [|split]].
      - unfold complete_run. destruct (active_runs rm2 !! run_id) eqn:E; simpl.
        + apply lookup_delete_eq.
        + done.
      - set_solver.
      - intros [rd Hrd]. unfold get_run_status, complete_run.
        rewrite Ha2, Hrd. simpl. rewrite lookup_delete_eq, lookup_insert_eq.
        simpl. by destruct success.
      - intros Hn. unfold get_run_status, complete_run.
        rewrite Ha2, Hn, Ha2, Hn, Hc2. done. }
    split; [done|]. split; [|done].
    intros other Hne.
    destruct (complete_run_lookup run_id success now rm2 other Hne) as [-> ->].
    rewrite Ha2, Hc2, Hp3, Hp2. rewrite lookup_delete_ne by done.
    by rewrite Hp1.
Qed.

End Orchestration.

(** * More on the monitor *)

Section MonitorMore.

Implicit Types (h : WebSocketManager) (w : World) (sys : System)
  (run_id : string) (ws : nat) (now : Z).

(** ** The idle status *)

Lemma exceeds_timeout_lt (d : Q) (timeout : Z) :
  exceeds_timeout d timeout = true ↔ (inject_Z timeout < d)%Q.
Proof.
  unfold exceeds_timeout. rewrite negb_true_iff.
  destruct (Qle_bool d (inject_Z timeout)) eqn:E.
  - apply Qle_bool_iff in E. split; [done|]. intros H. lra.
  - split; [intros _|done].
    destruct (Qlt_le_dec (inject_Z timeout) d) as [?|Hle]; [done|].
    apply Qle_bool_iff in Hle. congruence.
Qed.

Lemma will_timeout_in_nonneg (timeout : Z) (idle : Q) :
  (0 <= will_timeout_in timeout idle)%Q
  ∧ ((0 < will_timeout_in timeout idle)%Q ↔ (idle < inject_Z timeout)%Q).
Proof.
  unfold will_timeout_in. cbv zeta.
  destruct (Qle_bool (inject_Z timeout - idle) 0) eqn:E.
  - apply Qle_bool_iff in E. split; [lra|]. split; intros; lra.
  - assert (¬ (inject_Z timeout - idle <= 0)%Q) as Hn.
    { intros H. apply Qle_bool_iff in H. congruence. }
    split; [lra|]. split; intros; lra.
Qed.

Lemma has_viewers_size h run_id :
  (0 < size (default (∅ : gset nat) (_conns h !! run_id)))%nat
  ↔ ∃ s : gset nat, _conns h !! run_id = Some s ∧ s ≠ ∅.
Proof.
  destruct (_conns h !! run_id) as [s|]; cbn [from_option id].
  - split.
    + intros Hs. exists s. split; [done|]. intros ->.
      rewrite size_empty in Hs. lia.
    + intros (s' & [= <-] & Hne).
      destruct (decide (size s = 0%nat)) as [E|E]; [|lia].
      by apply size_empty_inv, leibniz_equiv in E.
  - rewrite size_empty. split; [lia|]. by intros (s & ? & _).
Qed.

(** X10.  The idle status lists exactly the runs that have an
    activity-clock entry.  The time left before the timeout is never
    negative, and it is positive exactly as long as the idle time is below
    the timeout.  The monitor picks a run in its scan exactly when the
    status shows an idle time above the timeout and at least one
    connection; a run with time left is never picked. *)
Theorem idle_status_tells_monitor now h run_id :
  (is_Some (get_idle_status now h !! run_id)
   ↔ is_Some (_last_activity h !! run_id))
  ∧ ∀ info,
      get_idle_status now h !! run_id = Some info →
      (0 <= ii_will_timeout_in info)%Q
      ∧ ((0 < ii_will_timeout_in info)%Q
         ↔ (ii_idle_seconds info < inject_Z (IDLE_TIMEOUT_SECONDS h))%Q)
      ∧ ((run_id, ii_idle_seconds info) ∈ find_idle_runs now h
         ↔ (inject_Z (IDLE_TIMEOUT_SECONDS h) < ii_idle_seconds info)%Q
           ∧ (0 < ii_connection_count info)%nat)
      ∧ (run_id ∈ List.map fst (find_idle_runs now h)
         ↔ (inject_Z (IDLE_TIMEOUT_SECONDS h) < ii_idle_seconds info)%Q
           ∧ (0 < ii_connection_count info)%nat)
      ∧ ((0 < ii_will_timeout_in info)%Q →
         run_id ∉ List.map fst (find_idle_runs now h)).
Proof.
  unfold get_idle_status. rewrite map_lookup_imap. split.
  - destruct (_last_activity h !! run_id); simpl; split; intros [? ?]; eauto;
      done.
  - intros info Hinfo.
    destruct (_last_activity h !! run_id) as [last|] eqn:El; [|done].
    simpl in Hinfo. injection Hinfo as <-. simpl.
    destruct (will_timeout_in_nonneg (IDLE_TIMEOUT_SECONDS h)
                (idle_duration now last)) as [Hnn Hpos].
    assert ((run_id, idle_duration now last) ∈ find_idle_runs now h
            ↔ (inject_Z (IDLE_TIMEOUT_SECONDS h) < idle_duration now last)%Q
              ∧ (0 < size (default (∅ : gset nat) (_conns h !! run_id)))%nat)
      as Hpick.
    { rewrite elem_of_find_idle_runs, has_viewers_size. split.
      - intros (last' & Hl & _ & Hidle). rewrite El in Hl. injection Hl as <-.
        unfold is_idle in Hidle. simpl in Hidle.
        apply andb_true_iff in Hidle as [Hex Hv].
        apply exceeds_timeout_lt in Hex. split; [done|].
        destruct (_conns h !! run_id) as [s|]; [|done].
        exists s. split; [done|].
        by apply negb_true_iff, bool_decide_eq_false in Hv.
      - intros [Hlt (s & Hs & Hne)]. exists last. split; [done|]. split; [done|].
        unfold is_idle. simpl. apply andb_true_iff. split.
        + by apply exceeds_timeout_lt.
        + rewrite Hs. by apply negb_true_iff, bool_decide_eq_false. }
    assert (run_id ∈ List.map fst (find_idle_runs now h)
            ↔ (run_id, idle_duration now last) ∈ find_idle_runs now h)
      as Hfst.
    { rewrite list_elem_of_In, List.in_map_iff. split.
      - intros ([id d] & Heq & Hin). simpl in Heq. subst id.
        apply list_elem_of_In in Hin.
        pose proof Hin as Hin'.
        apply elem_of_find_idle_runs in Hin' as (last' & Hl & -> & _).
        rewrite El in Hl. by injection Hl as <-.
      - intros Hin. exists (run_id, idle_duration now last).
        split; [done|]. by apply list_elem_of_In. }
    split; [done|]. split; [done|]. split; [done|].
    split; [by rewrite Hfst|].
    intros Hleft. rewrite Hfst, Hpick. intros [Hlt _].
    apply Hpos in Hleft. lra.
Qed.

(** ** Runs the monitor leaves alone *)

Lemma cancel_idle_runs_buffers now (l : list (string * Q)) : ∀ sys other,
  other ∉ List.map fst l →
  _buffers (ws_manager (cancel_idle_runs now l sys)) !! other
  = _buffers (ws_manager sys) !! other.
Proof.
  induction l as [|r l IH]; intros sys other Hnin; simpl; [done|].
  simpl in Hnin. apply not_elem_of_cons in Hnin as [Hne Hnin].
  rewrite (IH (cancel_idle_run now r sys) other Hnin).
  destruct (cancel_idle_run_hub now r sys) as ((_ & _ & Ho) & _).
  by destruct (Ho other Hne) as (_ & _ & ->).
Qed.

Lemma not_in_scan now h run_id :
  (∀ last, _last_activity h !! run_id = Some last →
           now - last ≤ IDLE_TIMEOUT_SECONDS h * 1000000
           ∨ default (∅ : gset nat) (_conns h !! run_id) = ∅) →
  run_id ∉ List.map fst (find_idle_runs now h).
Proof.
  intros Hfresh Hin.
  apply list_elem_of_In, List.in_map_iff in Hin as ([id d] & Heq & Hin).
  simpl in Heq. subst id.
  apply list_elem_of_In, elem_of_find_idle_runs in Hin
    as (last & Hl & _ & Hidle).
  apply is_idle_spec in Hidle as (Hold & s & Hs & Hne).
  destruct (Hfresh last Hl) as [Hle|He]; [lia|].
  rewrite Hs in He. simpl in He. done.
Qed.

(** X11.  A cycle of the monitor, in whatever order it takes the idle
    runs, leaves alone every run that has no activity-clock entry, or
    whose last activity is not older than the timeout, or that has no
    connection: the connection set, the clock entry and the buffer of the
    run, and its entries in the registry, are as before, and
    [cancel_run] is not entered for it. *)
Theorem monitor_leaves_fresh_runs now sys (order : list (string * Q)) run_id :
  order ≡ₚ find_idle_runs now (ws_manager sys) →
  (∀ last, _last_activity (ws_manager sys) !! run_id = Some last →
           now - last ≤ IDLE_TIMEOUT_SECONDS (ws_manager sys) * 1000000
           ∨ default (∅ : gset nat) (_conns (ws_manager sys) !! run_id) = ∅) →
  let sys' := cancel_idle_runs now order sys in
  _conns (ws_manager sys') !! run_id = _conns (ws_manager sys) !! run_id
  ∧ _last_activity (ws_manager sys') !! run_id
    = _last_activity (ws_manager sys) !! run_id
  ∧ _buffers (ws_manager sys') !! run_id = _buffers (ws_manager sys) !! run_id
  ∧ active_runs (run_manager sys') !! run_id
    = active_runs (run_manager sys) !! run_id
  ∧ completed_runs (run_manager sys') !! run_id
    = completed_runs (run_manager sys) !! run_id
  ∧ ∀ delta, trace (world sys') = trace (world sys) ++ delta →
             EvCancelRun run_id ∉ delta.
Proof.
  intros Hperm Hfresh. cbv zeta.
  assert (run_id ∉ List.map fst order) as Hnin.
  { rewrite (Permutation_map fst Hperm). by apply not_in_scan. }
  destruct (cancel_idle_runs_frame now order sys run_id Hnin)
    as (Hc & Hl & Ha & Hd & _).
  split; [done|]. split; [done|].
  split; [by apply cancel_idle_runs_buffers|]. split; [done|]. split; [done|].
  destruct (cancel_idle_runs_trace now order sys) as (delta0 & Ht & Hd0).
  intros delta Hdelta. rewrite Ht in Hdelta.
  apply app_inv_head in Hdelta as <-. intros Hin. by apply Hnin, Hd0.
Qed.

(** Run "x" of [idle_example] seen at 500 s, before its timeout. *)
Lemma monitor_leaves_fresh_runs_witness :
  let sys' := monitor_cycle 500000000 idle_example in
  _conns (ws_manager sys') !! "x" = _conns (ws_manager idle_example) !! "x"
  ∧ _last_activity (ws_manager sys') !! "x" = Some 1.
Proof.
  cbv zeta.
  destruct (monitor_leaves_fresh_runs 500000000 idle_example
              (find_idle_runs 500000000 (ws_manager idle_example)) "x"
              (reflexivity _)) as (Hc & Hl & _).
  - intros last Hlast. left.
    assert (_last_activity (ws_manager idle_example) !! "x" = Some 1) as E
      by (vm_compute; reflexivity).
    rewrite E in Hlast. injection Hlast as <-. vm_compute. discriminate.
  - split; [exact Hc|]. unfold monitor_cycle. rewrite Hl.
    vm_compute. reflexivity.
Defined.

(** ** After a cycle *)


Lemma filter_nil_all {A : Type} (P : A → bool) (l : list A) :
  (∀ x, x ∈ l → P x = false) → List.filter P l = [].
Proof.
  induction l as [|x l IH]; intros H; simpl; [done|].
  rewrite (H x) by (by left). apply IH. intros y Hy. apply H. by right.
Qed.


End MonitorMore.

(** * More on the hub *)

Section HubMore.

Implicit Types (h : WebSocketManager) (w : World) (sys : System)
  (run_id reason : string) (ws : nat) (now : Z).

(** ** [close_all_connections] whatever the state of the sockets *)

Lemma close_event_after_close ws p reason reason' w :
  p ≠ ws →
  close_event ws reason (snd (ws_close p 1001 reason' w))
  = close_event ws reason w.
Proof.
  intros Hne. unfold close_event. rewrite usable_after_close.
  destruct (Nat.eqb_spec p ws) as [E|_]; [done|].
  by rewrite andb_true_r.
Qed.

Lemma close_each_any_world run_id reason (l : list nat) : ∀ h w,
  NoDup l →
  let w' := snd (close_each run_id reason l h w) in
  trace w' = trace w ++ List.map (fun ws => close_event ws reason w) l
  ∧ failing w' = failing w
  ∧ pending w' = pending w
  ∧ (∀ ws, usable ws w' = usable ws w && negb (bool_decide (ws ∈ l))).
Proof.
  induction l as [|p l IH]; intros h w Hnd; cbv zeta.
  - cbn [close_each snd List.map]. rewrite app_nil_r. repeat split; try done.
    intros ws. rewrite bool_decide_eq_false_2 by apply not_elem_of_nil.
    by rewrite andb_true_r.
  - apply NoDup_cons in Hnd as [Hp Hnd]. cbn [close_each snd List.map].
    destruct (IH (disconnect run_id p h) (snd (ws_close p 1001 reason w)) Hnd)
      as (Ht & Hf & Hpe & Hu).
    split; [|split; [|split]].
    + rewrite Ht.
      assert (trace (snd (ws_close p 1001 reason w))
              = trace w ++ [close_event p reason w]) as ->.
      { unfold ws_close, close_event. by destruct (usable p w). }
      rewrite <- app_assoc. simpl. do 2 f_equal.
      apply map_ext_in. intros ws Hws. apply close_event_after_close.
      intros ->. by apply Hp, list_elem_of_In.
    + rewrite Hf. unfold ws_close. by destruct (usable p w).
    + rewrite Hpe. unfold ws_close. by destruct (usable p w).
    + intros ws. rewrite Hu, usable_after_close.
      destruct (Nat.eqb_spec p ws) as [->|Hne].
      * rewrite (bool_decide_eq_true_2 (ws ∈ ws :: l)) by (by left).
        destruct (usable ws w); simpl; by rewrite ?andb_false_r.
      * rewrite andb_true_r. f_equal. f_equal. apply bool_decide_ext.
        rewrite elem_of_cons. naive_solver.
Qed.

(** X13.  [close_all_connections] tries to close every connection of the
    run exactly once, with code 1001 and the given reason, in the order of
    the copied list, and a close that fails stops nothing.  Afterwards
    none of these sockets is usable, the run has no connection entry, and
    when it had a connection its activity clock and its buffer are gone;
    the other runs and the close tasks are as before. *)
Theorem close_all_connections_closes_each run_id reason h w :
  let s := default (∅ : gset nat) (_conns h !! run_id) in
  let h' := fst (close_all_connections run_id reason h w) in
  let w' := snd (close_all_connections run_id reason h w) in
  trace w' = trace w ++ List.map (fun ws => close_event ws reason w) (elements s)
  ∧ (∀ ws, usable ws w' = usable ws w && negb (bool_decide (ws ∈ s)))
  ∧ failing w' = failing w
  ∧ pending w' = pending w
  ∧ _conns h' !! run_id = None
  ∧ _last_activity h' !! run_id
    = (if bool_decide (s = ∅) then _last_activity h !! run_id else None)
  ∧ _buffers h' !! run_id
    = (if bool_decide (s = ∅) then _buffers h !! run_id else None)
  ∧ hub_frame run_id h h'.
Proof.
  cbv zeta.
  pose proof (close_all_connections_conns run_id reason h w) as Hc.
  pose proof (hub_frame_close_all_connections run_id reason h w) as Hfr.
  unfold close_all_connections in *.
  destruct (_conns h !! run_id) as [s|] eqn:E; cbn [from_option id].
  - pose proof (close_each_any_world run_id reason (elements s) h w
                  (NoDup_elements s)) as Hw.
    pose proof (close_each_hub run_id reason (elements s) h w) as Hh.
    destruct (close_each run_id reason (elements s) h w) as [h1 w1].
    cbv zeta in Hw. cbn [fst snd] in *.
    destruct Hw as (Ht & Hf & Hp & Hu).
    split; [done|]. split.
    { intros ws. rewrite Hu. do 2 f_equal. apply bool_decide_ext.
      apply elem_of_elements. }
    split; [done|]. split; [done|]. split; [done|].
    assert (_last_activity h1 !! run_id
            = (if bool_decide (s = ∅) then _last_activity h !! run_id else None)
            ∧ _buffers h1 !! run_id
              = (if bool_decide (s = ∅) then _buffers h !! run_id else None))
      as [Hl Hb].
    { subst h1. destruct (elements s) as [|p l] eqn:El.
      - apply elements_empty_inv, leibniz_equiv in El. subst s.
        by rewrite bool_decide_eq_true_2.
      - rewrite (bool_decide_eq_false_2 (s = ∅)).
        2:{ intros ->. by rewrite elements_empty in El. }
        rewrite disconnect_all_cons, E. cbn [from_option id].
        rewrite <- El.
        assert (s ∖ list_to_set (elements s) = (∅ : gset nat)) as ->.
        { apply set_eq. intros x.
          rewrite elem_of_difference, elem_of_list_to_set, elem_of_elements.
          split; [tauto|]. by intros ?%elem_of_empty. }
        unfold drop_viewers. cbn [_last_activity _buffers].
        rewrite bool_decide_eq_true_2 by done.
        by rewrite !lookup_delete_eq. }
    done.
  - cbn [fst snd]. rewrite elements_empty. simpl. rewrite app_nil_r.
    rewrite bool_decide_eq_true_2 by done.
    repeat split; try done.
    intros ws. rewrite bool_decide_eq_false_2 by apply not_elem_of_empty.
    by rewrite andb_true_r.
Qed.

(** ** [disconnect] *)

Lemma drop_viewers_swap run_id (s1 s2 : gset nat) h :
  drop_viewers run_id s2 (drop_viewers run_id s1 h)
  = drop_viewers run_id s2
      (if bool_decide (s1 = ∅) then drop_viewers run_id ∅ h else h).
Proof.
  unfold drop_viewers. simpl.
  destruct (bool_decide (s1 = ∅)) eqn:E1; simpl.
  - rewrite !insert_insert_eq. by rewrite (bool_decide_eq_true_2 (∅ = ∅)).
  - by rewrite insert_insert_eq.
Qed.

(** X14.  [disconnect] takes the socket out of the connection set of the
    run and leaves the other runs alone.  Disconnecting the same socket
    again changes nothing, and two sockets can be disconnected in either
    order.  The buffer and the activity clock of the run are deleted
    exactly when no connection is left, also when the socket was not
    connected. *)
Theorem disconnect_settles run_id ws ws' h :
  let h' := disconnect run_id ws h in
  let left := default (∅ : gset nat) (_conns h !! run_id) ∖ {[ws]} in
  _conns h' !! run_id = Some left
  ∧ _buffers h' !! run_id
    = (if bool_decide (left = ∅) then None else _buffers h !! run_id)
  ∧ _last_activity h' !! run_id
    = (if bool_decide (left = ∅) then None else _last_activity h !! run_id)
  ∧ hub_frame run_id h h'
  ∧ disconnect run_id ws h' = h'
  ∧ disconnect run_id ws' h' = disconnect run_id ws (disconnect run_id ws' h).
Proof.
  cbv zeta. rewrite !disconnect_eq.
  set (s := default (∅ : gset nat) (_conns h !! run_id)).
  split; [|split; [|split; [|split; [|split]]]].
  - simpl. apply lookup_insert_eq.
  - simpl. destruct (bool_decide (s ∖ {[ws]} = ∅)); [apply lookup_delete_eq|done].
  - simpl. destruct (bool_decide (s ∖ {[ws]} = ∅)); [apply lookup_delete_eq|done].
  - apply hub_frame_drop_viewers.
  - cbn [_conns drop_viewers].
    rewrite lookup_insert_eq. cbn [from_option id].
    rewrite drop_viewers_twice by set_solver.
    f_equal. set_solver.
  - cbn [_conns drop_viewers].
    rewrite !lookup_insert_eq. cbn [from_option id]. fold s.
    rewrite !drop_viewers_twice by set_solver.
    f_equal. set_solver.
Qed.

End HubMore.


(** * The client side of a connection *)

Section Handler.

Implicit Types (h : WebSocketManager) (w : World) (sys : System)
  (run_id : string) (ws : nat) (now : Z) (send_failure : exn).

Lemma receive_activity_twice run_id now h :
  receive_activity run_id now (receive_activity run_id now h)
  = receive_activity run_id now h.
Proof.
  unfold receive_activity, with_last_activity. simpl.
  by rewrite insert_insert_eq.
Qed.


Lemma trace_reply send_failure ws m h sys :
  reply send_failure ws m h sys
  = (if usable ws (world sys) then Continue else Raised send_failure,
     with_hub_world h (emit [send_event ws m (world sys)] (world sys)) sys).
Proof. unfold reply. rewrite ws_send_json_eq. done. Qed.


(** The two ways a turn of the handler can end. *)
Lemma client_text_cases send_failure run_id ws now parsed sys :
  let h1 := receive_activity run_id now (ws_manager sys) in
  ∃ (sent : option message) (put : option json),
    let w1 :=
      match sent with
      | Some m => emit [send_event ws m (world sys)] (world sys)
      | None => world sys
      end in
    (client_text send_failure run_id ws now parsed sys
     = (true, put, with_hub_world h1 w1 sys)
     ∧ (sent = None ∨ usable ws (world sys) = true)
     ∧ (is_Some put → sent = None ∧ run_id ∈ input_queues sys)
     ∧ (parsed = None ∨ ∃ d, parsed = Some (JObj d)))
    ∨ (∃ e, client_text send_failure run_id ws now parsed sys
            = (false, None, on_exception e run_id ws (with_hub_world h1 w1 sys))
       ∧ ((is_Some sent ∧ usable ws (world sys) = false)
          ∨ (sent = None ∧ ∃ v, parsed = Some v ∧ ∀ d, v ≠ JObj d))).
Proof.
  cbv zeta. unfold client_text, on_text. rewrite !trace_reply.
  destruct parsed as [v|].
  - destruct v as [| | | | | |d];
      try (exists None, None; right; exists OtherException;
           split; [done|]; right; split; [done|]; eexists; by split).
    destruct (get_is_str "type" d "input").
    + destruct (bool_decide (run_id ∈ input_queues sys)) eqn:Hq.
      * apply bool_decide_eq_true in Hq.
        exists None. eexists. left. split; [done|]. split; [by left|].
        split; [done|]. right. by eexists.
      * eexists (Some _), None. destruct (usable ws (world sys)) eqn:Hu.
        -- left. split; [done|]. split; [by right|].
           split; [by intros [? ?]|]. right. by eexists.
        -- right. eexists. split; [done|]. left. by split.
    + destruct (get_is_str "type" d "ping").
      * eexists (Some _), None. destruct (usable ws (world sys)) eqn:Hu.
        -- left. cbn [ws_manager world with_hub_world run_manager input_queues].
           rewrite receive_activity_twice.
           split; [done|]. split; [by right|].
           split; [by intros [? ?]|]. right. by eexists.
        -- right. eexists. split; [done|]. left. by split.
      * exists None, None. left. split; [done|]. split; [by left|].
        split; [by intros [? ?]|]. right. by eexists.
  - eexists (Some _), None. destruct (usable ws (world sys)) eqn:Hu.
    + left. split; [done|]. split; [by right|].
      split; [by intros [? ?]|]. by left.
    + right. eexists. split; [done|]. left. by split.
Qed.




Lemma client_left_last_viewer run_id ws sys :
  default (∅ : gset nat) (_conns (ws_manager sys) !! run_id) ⊆ {[ws]} →
  run_id ∉ input_queues (client_left run_id ws sys).
Proof.
  intros Hsub. unfold client_left, on_exception. cbn [input_queues].
  rewrite disconnect_eq. cbn [_conns drop_viewers].
  rewrite lookup_insert_eq.
  rewrite (bool_decide_eq_true_2
             (default (∅ : gset nat) (_conns (ws_manager sys) !! run_id)
              ∖ {[ws]} = ∅)) by set_solver.
  destruct (bool_decide (run_id ∈ input_queues sys)) eqn:Hq; simpl.
  - set_solver.
  - by apply bool_decide_eq_false in Hq.
Qed.

(** X16.  When the only viewer of a run leaves, the input queue of the
    run is deleted, whatever the state of the run in the registry, which
    is not touched.  A client that connects afterwards and sends input is
    answered with the error [Run not found or not ready for input]: the
    input is not queued, and the handler goes on. *)
Theorem last_viewer_takes_input_queue send_failure run_id ws ws2 now now2 d sys :
  default (∅ : gset nat) (_conns (ws_manager sys) !! run_id) ⊆ {[ws]} →
  usable ws2 (world sys) = true →
  get_is_str "type" d "input" = true →
  let sys1 := client_left run_id ws sys in
  let sys2 := snd (run_logs_ws_connect run_id ws2 now sys1) in
  let r := client_text send_failure run_id ws2 now2 (Some (JObj d)) sys2 in
  (run_id ∉ input_queues sys1)
  ∧ run_manager (snd r) = run_manager sys
  ∧ fst (run_logs_ws_connect run_id ws2 now sys1) = true
  ∧ fst r = (true, None)
  ∧ trace (world (snd r))
    = trace (world sys2)
      ++ [EvSend ws2 (error_message "Run not found or not ready for input")].
Proof.
  intros Hsub Hu Hin. cbv zeta.
  pose proof (client_left_last_viewer run_id ws sys Hsub) as Hq.
  split; [done|].
  unfold run_logs_ws_connect.
  assert (usable ws2 (world (client_left run_id ws sys)) = true) as Hu1 by done.
  rewrite (connect_usable _ _ _ _ _ Hu1). cbn [fst snd].
  unfold client_text, on_text. rewrite Hin. cbn [input_queues].
  rewrite (bool_decide_eq_false_2 _ Hq). rewrite trace_reply.
  cbn [world]. rewrite usable_emit, Hu1. cbn [fst snd].
  split; [done|]. split; [done|]. split; [done|].
  unfold send_event. by rewrite usable_emit, Hu1.
Qed.

(** Run "x" is started and watched by socket 3, which leaves; socket 8
    comes later. *)
Lemma last_viewer_takes_input_queue_witness :
  let sys :=
    snd (run_logs_ws_connect "x" 3 1
           (snd (start_run "x" [] 0 (new_system 1 600)))) in
  let sys1 := client_left "x" 3 sys in
  ("x" ∈ input_queues sys)
  ∧ ("x" ∉ input_queues sys1)
  ∧ is_Some (active_runs (run_manager sys1) !! "x").
Proof.
  cbv zeta.
  destruct (last_viewer_takes_input_queue OtherException "x" 3 8 5 6
              [("type", JStr "input"); ("data", JStr "yes")]
              (snd (run_logs_ws_connect "x" 3 1
                      (snd (start_run "x" [] 0 (new_system 1 600))))))
    as (Hq & _).
  - vm_compute. intros x Hx. exact Hx.
  - vm_compute. reflexivity.
  - vm_compute. reflexivity.
  - split; [apply (bool_decide_unpack _); vm_compute; exact I|].
    split; [exact Hq|]. vm_compute. eexists. reflexivity.
Defined.

End Handler.

(** * The service as a whole *)

Section Service.

Implicit Types (h : WebSocketManager) (w : World) (sys : System)
  (rm : RunManager) (run_id : string) (ws : nat) (now c : Z)
  (send_failure : exn).

Lemma no_signal_app (a b : list event) :
  no_signal (a ++ b) ↔ no_signal a ∧ no_signal b.
Proof.
  unfold no_signal. split.
  - intros H. split; intros pid Hin; apply (H pid), elem_of_app; auto.
  - intros [Ha Hb] pid Hin. apply elem_of_app in Hin as [Hin|Hin];
      [by apply (Ha pid)|by apply (Hb pid)].
Qed.

Lemma no_signal_nil : no_signal [].
Proof. intros pid Hin. by apply elem_of_nil in Hin. Qed.

Lemma no_signal_map {A : Type} (f : A → event) (l : list A) :
  (∀ x, is_kill (f x) = false) → no_signal (List.map f l).
Proof.
  intros Hf pid Hin. apply list_elem_of_In, List.in_map_iff in Hin
    as (x & Hx & _). specialize (Hf x). by rewrite Hx in Hf.
Qed.

Lemma is_kill_send_event ws (m : message) w : is_kill (send_event ws m w) = false.
Proof. unfold send_event. by destruct (usable ws w). Qed.

Lemma is_kill_close_event ws reason w : is_kill (close_event ws reason w) = false.
Proof. unfold close_event. by destruct (usable ws w). Qed.

Lemma no_signal_send_log run_id (m : message) now h w :
  no_signal (trace w) → no_signal (trace (snd (send_log run_id m now h w))).
Proof.
  intros Hw. rewrite send_log_trace. apply no_signal_app. split; [done|].
  apply no_signal_map. intros ws. apply is_kill_send_event.
Qed.

Lemma no_signal_close_tasks (l : list nat) : ∀ w,
  no_signal (trace w) →
  no_signal (trace (fold_left (fun w' p => _close_connection p w') l w)).
Proof.
  induction l as [|p l IH]; intros w Hw; simpl; [done|].
  apply IH. unfold _close_connection, ws_close.
  destruct (usable p w); simpl; apply no_signal_app; split; try done;
    intros pid Hin; apply list_elem_of_singleton in Hin; discriminate.
Qed.

Lemma no_signal_connect run_id ws now h w :
  no_signal (trace w) →
  no_signal (trace (snd (connect run_id ws now h w))).
Proof.
  intros Hw. destruct (usable ws w) eqn:Hu.
  - rewrite connect_usable by done. simpl. apply no_signal_app. split; [done|].
    intros pid Hin. apply elem_of_cons in Hin as [?|Hin]; [done|].
    apply elem_of_cons in Hin as [?|Hin]; [done|].
    apply list_elem_of_In, List.in_map_iff in Hin as (x & ? & _). done.
  - by rewrite connect_unusable.
Qed.

Lemma no_signal_close_all run_id reason h w :
  no_signal (trace w) →
  no_signal (trace (snd (close_all_connections run_id reason h w))).
Proof.
  intros Hw. unfold close_all_connections.
  destruct (_conns h !! run_id) as [s|]; [|done].
  pose proof (close_each_any_world run_id reason (elements s) h w
                (NoDup_elements s)) as Hc.
  destruct (close_each run_id reason (elements s) h w) as [h1 w1].
  cbv zeta in Hc. cbn [snd] in *. destruct Hc as (-> & _).
  apply no_signal_app. split; [done|].
  apply no_signal_map. intros ws. apply is_kill_close_event.
Qed.

Lemma cancel_run_quiet run_id now rm :
  process_pids rm = ∅ →
  snd (cancel_run run_id now rm) = [EvCancelRun run_id]
  ∧ process_pids (snd (fst (cancel_run run_id now rm))) = ∅
  ∧ pid_file (snd (fst (cancel_run run_id now rm))) = pid_file rm
  ∧ max_concurrent (snd (fst (cancel_run run_id now rm))) = max_concurrent rm
  ∧ (size (active_runs (snd (fst (cancel_run run_id now rm))))
     ≤ size (active_runs rm))%nat.
Proof.
  intros Hp. unfold cancel_run. rewrite Hp, lookup_empty.
  destruct (active_runs rm !! run_id) eqn:E; simpl; rewrite ?Hp;
    repeat split; try done.
  rewrite map_size_delete, E. lia.
Qed.

Lemma between_steps_cancel_idle_run c now (r : string * Q) sys :
  between_steps c sys → between_steps c (cancel_idle_run now r sys).
Proof.
  intros (Hc & Hp & Hf & Hs & Hq).
  destruct (cancel_run_quiet (fst r) now (run_manager sys) Hp)
    as (Hev & Hp' & Hf' & Hc' & Hs').
  unfold cancel_idle_run.
  pose proof (no_signal_send_log (fst r)
                (idle_timeout_message (IDLE_TIMEOUT_SECONDS (ws_manager sys))
                   (snd r) (fst r)) now (ws_manager sys) (world sys) Hq) as Hq1.
  destruct (send_log _ _ _ _ _) as [h1 w1]. cbn [snd] in Hq1.
  destruct (cancel_run (fst r) now (run_manager sys)) as [[ok rm'] evs].
  cbn [fst snd] in *. subst evs.
  destruct (_run_manager h1).
  - pose proof (no_signal_close_all (fst r) "Idle timeout" h1
                  (emit [EvCancelRun (fst r)] w1)) as Hq2.
    destruct (close_all_connections _ _ _ _) as [h2 w3]. cbn [snd] in Hq2.
    unfold between_steps. cbn [run_manager world].
    rewrite Hc', Hp', Hf'. repeat split; try done; [lia|].
    apply Hq2. simpl. apply no_signal_app. split; [done|].
    intros pid Hin. apply list_elem_of_singleton in Hin. discriminate.
  - pose proof (no_signal_close_all (fst r) "Idle timeout" h1 w1 Hq1) as Hq2.
    destruct (close_all_connections _ _ _ _) as [h2 w3]. cbn [snd] in Hq2.
    by unfold between_steps.
Qed.

Lemma between_steps_completion c run_id (outcome : launch_outcome) now sys :
  between_steps c sys →
  between_steps c (run_with_completion run_id outcome now sys).
Proof.
  intros (Hc & Hp & Hf & Hs & Hq). unfold run_with_completion.
  assert (∀ (success : bool) rm2,
            max_concurrent rm2 = c → process_pids rm2 = ∅ →
            (pid_file rm2 = None ∨ pid_file rm2 = Some ∅) →
            active_runs rm2 = active_runs (run_manager sys) →
            between_steps c
              {| run_manager := complete_run run_id success now rm2;
                 ws_manager := ws_manager sys;
                 input_queues := input_queues sys ∖ {[run_id]};
                 world := world sys |}) as Hdone.
  { intros success rm2 Hc2 Hp2 Hf2 Ha2. unfold between_steps, complete_run.
    cbn [run_manager world].
    destruct (active_runs rm2 !! run_id) eqn:E; cbn; rewrite ?Hc2, ?Hp2.
    - repeat split; try done. rewrite map_size_delete, E, Ha2. lia.
    - repeat split; try done. by rewrite Ha2. }
  assert (unregister_process run_id (run_manager sys) = run_manager sys) as Hun.
  { unfold unregister_process. by rewrite Hp, lookup_empty. }
  destruct outcome as [| |[p|] success].
  - rewrite Hun. by apply Hdone.
  - rewrite Hun. by unfold between_steps.
  - apply Hdone; unfold unregister_process, register_process; simpl;
      rewrite ?lookup_insert_eq; simpl; try done.
    + by rewrite Hp, delete_insert_eq, delete_empty.
    + right. by rewrite Hp, delete_insert_eq, delete_empty.
  - rewrite Hun. by apply Hdone.
Qed.

Lemma between_steps_step c send_failure now (op : server_op) sys :
  between_steps c sys → between_steps c (server_step send_failure now op sys).
Proof.
  intros Hb. pose proof Hb as (Hc & Hp & Hf & Hs & Hq).
  destruct op as [run_id job|run_id outcome|run_id|run_id ws|run_id ws parsed
                 |run_id ws|run_id m| | |ws]; cbn [server_step].
  - unfold start_run, add_run.
    destruct (Z.ltb_spec (Z.of_nat (size (active_runs (run_manager sys))))
                (max_concurrent (run_manager sys))) as [Hlt|Hge]; simpl; [|done].
    unfold between_steps. simpl. repeat split; try done.
    pose proof (map_size_insert run_id
                  {| rd_run_id := run_id; rd_status := RUNNING;
                     rd_started_at := now; rd_job_data := job;
                     rd_completed_at := None; rd_cancelled_at := None |}
                  (active_runs (run_manager sys))) as Hsz.
    destruct (active_runs (run_manager sys) !! run_id); unfold id in Hsz; lia.
  - by apply between_steps_completion.
  - unfold cancel_run_endpoint.
    destruct (cancel_run_quiet run_id now (run_manager sys) Hp)
      as (Hev & Hp' & Hf' & Hc' & Hs').
    destruct (cancel_run run_id now (run_manager sys)) as [[ok rm'] evs].
    cbn [fst snd] in *. subst evs.
    assert (no_signal (trace (emit [EvCancelRun run_id] (world sys)))) as Hq1.
    { simpl. apply no_signal_app. split; [done|].
      intros pid Hin. apply list_elem_of_singleton in Hin. discriminate. }
    destruct ok.
    + pose proof (no_signal_send_log run_id (run_cancelled_message run_id) now
                    (ws_manager sys) _ Hq1) as Hq2.
      destruct (send_log _ _ _ _ _) as [h1 w2]. cbn [snd] in *.
      unfold between_steps. cbn [run_manager world].
      rewrite Hc', Hp', Hf'. repeat split; try done. lia.
    + cbn [snd]. unfold between_steps. cbn [run_manager world].
      rewrite Hc', Hp', Hf'. repeat split; try done. lia.
  - unfold run_logs_ws_connect.
    pose proof (no_signal_connect run_id ws now (ws_manager sys) (world sys) Hq)
      as Hq1.
    destruct (connect _ _ _ _ _) as [[ok h1] w1]. done.
  - destruct (client_text_cases send_failure run_id ws now parsed sys)
      as (sent & put & [(-> & _)|(e & -> & _)]); cbn [snd].
    + unfold between_steps. cbn [run_manager world with_hub_world].
      repeat split; try done. destruct sent as [m|]; [|done].
      simpl. apply no_signal_app. split; [done|].
      intros pid Hin. apply list_elem_of_singleton in Hin.
      pose proof (is_kill_send_event ws m (world sys)) as Hk.
      by rewrite <- Hin in Hk.
    + unfold between_steps, on_exception. cbn [run_manager world with_hub_world].
      repeat split; try done. destruct sent as [m|]; [|done].
      simpl. apply no_signal_app. split; [done|].
      intros pid Hin. apply list_elem_of_singleton in Hin.
      pose proof (is_kill_send_event ws m (world sys)) as Hk.
      by rewrite <- Hin in Hk.
  - done.
  - pose proof (no_signal_send_log run_id m now (ws_manager sys) (world sys) Hq)
      as Hq1.
    destruct (send_log _ _ _ _ _) as [h1 w1]. done.
  - unfold monitor_cycle, cancel_idle_runs.
    generalize (find_idle_runs now (ws_manager sys)). intros l.
    revert sys Hb Hc Hp Hf Hs Hq.
    induction l as [|r l IH]; intros sys Hb _ _ _ _ _; simpl; [done|].
    pose proof (between_steps_cancel_idle_run c now r sys Hb) as Hb'.
    pose proof Hb' as (? & ? & ? & ? & ?). by apply IH.
  - unfold event_loop_turn, between_steps. cbn [run_manager world].
    repeat split; try done. unfold run_pending.
    by apply no_signal_close_tasks.
  - done.
Qed.

Lemma between_steps_run c send_failure (ops : list server_op) : ∀ now sys,
  between_steps c sys → between_steps c (server_run send_failure now ops sys).
Proof.
  induction ops as [|op ops IH]; intros now sys Hb; simpl; [done|].
  by apply IH, between_steps_step.
Qed.

(** X17.  The service never sends a signal to a process.  From a fresh
    start and through any sequence of requests, client texts, ends of
    launches, broadcasts, monitor cycles and losses of peers, the pid
    table is empty between two steps: a pid is registered only when the
    launch has returned, and unregistered in the same step.  So every
    cancellation, by the endpoint or by the monitor, finds no pid and
    kills nothing, the pid file lists no process, and the number of active
    runs stays within the ceiling. *)
Theorem service_never_signals send_failure now (ops : list server_op) c timeout :
  let sys' := server_run send_failure now ops (new_system c timeout) in
  process_pids (run_manager sys') = ∅
  ∧ no_signal (trace (world sys'))
  ∧ (∀ run_id now', snd (cancel_run run_id now' (run_manager sys'))
                    = [EvCancelRun run_id])
  ∧ (pid_file (run_manager sys') = None ∨ pid_file (run_manager sys') = Some ∅)
  ∧ Z.of_nat (size (active_runs (run_manager sys'))) ≤ Z.max 0 c.
Proof.
  cbv zeta.
  assert (between_steps c (new_system c timeout)) as Hb.
  { unfold between_steps. simpl. repeat split; try done; [by left| |].
    - rewrite map_size_empty. lia.
    - apply no_signal_nil. }
  destruct (between_steps_run c send_failure ops now _ Hb)
    as (Hc & Hp & Hf & Hs & Hq).
  split; [done|]. split; [done|]. split; [|done].
  intros run_id now'. by apply cancel_run_quiet.
Qed.

End Service.

(** * The hub of ws_manager_cancel_run.py *)

Section Variant.

Implicit Types (h : CancelRun.WebSocketManager) (w : World)
  (run_id : string) (ws : nat) (m : message).

Lemma variant_deliver_eq ws m w :
  CancelRun.deliver ws m w
  = (negb (usable ws w && plain m), emit [send_event ws m w] w).
Proof.
  unfold CancelRun.deliver, plain. rewrite ws_send_json_eq.
  destruct (usable ws w); simpl; [|done].
  by destruct (close_signal m) as [[|]|].
Qed.

Lemma variant_deliver_all_eq m (l : list nat) : ∀ w,
  CancelRun.deliver_all m l w =
  (List.filter (fun ws => negb (usable ws w && plain m)) l,
   emit (List.map (fun ws => send_event ws m w) l) w).
Proof.
  induction l as [|ws l IH]; intros w;
    cbn [CancelRun.deliver_all List.filter List.map].
  - by rewrite emit_nil.
  - rewrite variant_deliver_eq, IH, emit_emit.
    by destruct (negb (usable ws w && plain m)).
Qed.

Lemma variant_disconnect_buffers (d : list nat) run_id : ∀ h,
  CancelRun._buffers
    (fold_left (fun h' ws => CancelRun.disconnect run_id ws h') d h)
  = CancelRun._buffers h.
Proof. induction d as [|ws d IH]; intros h; simpl; [done|]. by rewrite IH. Qed.

Lemma variant_disconnect_conns (d : list nat) run_id : ∀ h,
  CancelRun._conns
    (fold_left (fun h' ws => CancelRun.disconnect run_id ws h') d h)
    !! run_id
  = match d with
    | [] => CancelRun._conns h !! run_id
    | _ => Some (default (∅ : gset nat) (CancelRun._conns h !! run_id)
                 ∖ list_to_set d)
    end.
Proof.
  induction d as [|ws d IH]; intros h; [done|].
  cbn [fold_left]. rewrite IH. destruct d as [|ws' d].
  - simpl. rewrite lookup_insert_eq. f_equal. set_solver.
  - cbn [CancelRun.disconnect CancelRun._conns].
    rewrite lookup_insert_eq. cbn [from_option id]. f_equal. set_solver.
Qed.

Lemma variant_connect_eq run_id ws h w :
  default [] (CancelRun._buffers h !! run_id) = [] →
  snd (CancelRun.connect run_id ws h w)
  = (if usable ws w
     then emit [EvAccept ws; EvSend ws (connection_ack run_id)] w
     else w)
  ∧ ∀ other,
      default [] (CancelRun._buffers
                    (snd (fst (CancelRun.connect run_id ws h w)))
                  !! other)
      = default [] (CancelRun._buffers h !! other).
Proof.
  intros Hb. unfold CancelRun.connect, ws_accept.
  destruct (usable ws w) eqn:Hu; simpl; [|done].
  rewrite ws_send_json_eq, usable_emit, Hu. simpl. rewrite Hb. simpl.
  unfold send_event. rewrite usable_emit, Hu, emit_emit. split; [done|].
  intros other. destruct (decide (other = run_id)) as [->|Hne].
  - by rewrite lookup_insert_eq.
  - by rewrite lookup_insert_ne.
Qed.

Lemma variant_no_backlog (ops : list CancelRun.hub_op) : ∀ h w,
  (∀ run_id, default [] (CancelRun._buffers h !! run_id) = []) →
  ∀ run_id,
    default []
      (CancelRun._buffers (fst (CancelRun.hub_run ops (h, w))) !! run_id)
    = [].
Proof.
  unfold CancelRun.hub_run.
  induction ops as [|op ops IH]; intros h w Hb; [done|].
  cbn [fold_left].
  destruct (CancelRun.hub_step op (h, w)) as [h1 w1] eqn:E. apply IH.
  intros run_id.
  destruct op as [r ws|r ws|r m]; cbn [CancelRun.hub_step fst snd] in E.
  - destruct (variant_connect_eq r ws h w (Hb r)) as [_ Hbuf].
    destruct (CancelRun.connect r ws h w) as [[ok h'] w'].
    cbn [fst snd] in *. simplify_eq. by rewrite Hbuf.
  - simplify_eq. apply Hb.
  - unfold CancelRun.send_log in E.
    destruct (CancelRun._conns h !! r) as [s|]; [|by simplify_eq].
    destruct (CancelRun.deliver_all m (elements s) w) as [d w'].
    simplify_eq. rewrite variant_disconnect_buffers. apply Hb.
Qed.

(** X18.  The hub of ws_manager_cancel_run.py replays nothing.  Its
    [send_log] does not store the message, so after any calls on a fresh
    hub every backlog is empty, and a socket that connects receives the
    acknowledgement alone, whatever was broadcast to the run before. *)
Theorem variant_hub_replays_nothing (ops : list CancelRun.hub_op) w run_id ws :
  let h' := fst (CancelRun.hub_run ops (CancelRun.new_ws_manager, w)) in
  let w' := snd (CancelRun.hub_run ops (CancelRun.new_ws_manager, w)) in
  default [] (CancelRun._buffers h' !! run_id) = []
  ∧ snd (CancelRun.connect run_id ws h' w')
    = (if usable ws w'
       then emit [EvAccept ws; EvSend ws (connection_ack run_id)] w'
       else w')
  ∧ received ws (trace (snd (CancelRun.connect run_id ws h' w')))
    = received ws (trace w')
      ++ (if usable ws w' then [connection_ack run_id] else []).
Proof.
  cbv zeta.
  set (st := CancelRun.hub_run ops (CancelRun.new_ws_manager, w)).
  assert (default [] (CancelRun._buffers (fst st) !! run_id) = []) as Hb.
  { apply variant_no_backlog. intros r. simpl. by rewrite lookup_empty. }
  destruct (variant_connect_eq run_id ws _ (snd st) Hb) as [Hc _].
  split; [done|]. split; [done|]. rewrite Hc.
  destruct (usable ws _).
  - simpl. rewrite received_app. simpl. by rewrite Nat.eqb_refl.
  - by rewrite app_nil_r.
Qed.

Lemma is_close_send_event ws m w : is_close (send_event ws m w) = false.
Proof. unfold send_event. by destruct (usable ws w). Qed.

(** X19.  The hub of ws_manager_cancel_run.py closes nothing.  Its
    [send_log] sends the message to every connection of the run, in the
    order of the set, and never closes a socket or creates a close task,
    also for the cancellation signal: then every connection of the run is
    dropped from the set, and those that took the message stay open. *)
Theorem variant_send_log_closes_nothing run_id m h w :
  let s := default (∅ : gset nat) (CancelRun._conns h !! run_id) in
  let h' := fst (CancelRun.send_log run_id m h w) in
  let w' := snd (CancelRun.send_log run_id m h w) in
  w' = emit (List.map (fun ws => send_event ws m w) (elements s)) w
  ∧ pending w' = pending w
  ∧ closed w' = closed w
  ∧ (∀ ws, usable ws w' = usable ws w)
  ∧ List.filter is_close (trace w') = List.filter is_close (trace w)
  ∧ CancelRun._buffers h' = CancelRun._buffers h
  ∧ (closing m = true →
     default (∅ : gset nat) (CancelRun._conns h' !! run_id) = ∅)
  ∧ (plain m = true →
     ∀ ws, ws ∈ default (∅ : gset nat) (CancelRun._conns h' !! run_id)
           ↔ ws ∈ s ∧ usable ws w = true).
Proof.
  cbv zeta. unfold CancelRun.send_log.
  destruct (CancelRun._conns h !! run_id) as [s|] eqn:E;
    cbn [from_option id].
  - rewrite variant_deliver_all_eq. cbn [fst snd].
    split; [done|]. split; [done|]. split; [done|]. split; [done|]. split.
    { simpl. rewrite List.filter_app.
      rewrite (filter_nil_all is_close (List.map _ _)); [by rewrite app_nil_r|].
      intros e He. apply list_elem_of_In, List.in_map_iff in He as (x & <- & _).
      apply is_close_send_event. }
    split; [apply variant_disconnect_buffers|].
    rewrite variant_disconnect_conns, E. cbn [from_option id].
    split.
    + intros Hcl.
      assert (plain m = false) as Hpl.
      { unfold plain, closing in *. by destruct (close_signal m) as [[|]|]. }
      assert (List.filter (fun ws => negb (usable ws w && plain m)) (elements s)
              = elements s) as ->.
      { rewrite Hpl. induction (elements s) as [|x l IH]; simpl; [done|].
        rewrite andb_false_r. simpl. by rewrite IH. }
      destruct (elements s) as [|x l] eqn:El.
      * simpl. by apply elements_empty_inv, leibniz_equiv in El.
      * cbn [from_option id]. rewrite <- El. apply set_eq. intros y.
        rewrite elem_of_difference, elem_of_list_to_set, elem_of_elements.
        split; [tauto|]. by intros ?%elem_of_empty.
    + intros Hpl ws.
      assert (∀ y, y ∈ List.filter (fun ws => negb (usable ws w && plain m))
                         (elements s)
                   ↔ y ∈ s ∧ usable y w = false) as Hd.
      { intros y. rewrite list_elem_of_In, List.filter_In, <- list_elem_of_In.
        rewrite elem_of_elements, Hpl, andb_true_r, negb_true_iff. done. }
      destruct (List.filter _ (elements s)) as [|x l] eqn:El.
      * simpl. split.
        -- intros Hin. split; [done|].
           destruct (usable ws w) eqn:Hu; [done|].
           exfalso. apply (not_elem_of_nil ws). apply Hd. by split.
        -- by intros [? _].
      * cbn [from_option id].
        rewrite elem_of_difference, elem_of_list_to_set, Hd. split.
        -- intros [Hin Hn]. split; [done|].
           destruct (usable ws w); [done|]. exfalso. by apply Hn.
        -- intros [Hin Hu]. split; [done|]. intros [_ Hf]. congruence.
  - cbn [fst snd]. rewrite elements_empty. simpl. rewrite emit_nil, E. simpl.
    repeat split; try done; set_solver.
Qed.

End Variant.

(** * The repository-analysis endpoints *)

Section RepositoryAnalysis.

Implicit Types (run_id : string) (found : option (option message)).

(** X20.  [POST /api/repository-analysis] answers 201 or 500 and never
    400: for an environment other than ["local"] and ["testnet"] the
    answer is 500, and nothing is created.  It answers 201 exactly when
    the environment is known and the record that was created has a run
    id.  [PUT /api/repository-analysis/{run_id}] does answer 400 for such
    an environment given for an analysis that exists, and updates
    nothing. *)
Theorem create_never_answers_400 (request : RepositoryAnalysisRequest)
    (created : option message) :
  let r := create_repository_analysis_endpoint request created in
  (status_code_of (fst r) = 201 ∨ status_code_of (fst r) = 500)
  ∧ (unknown_environment (environment request) = true →
     r = (HTTPException 500, []))
  ∧ (status_code_of (fst r) = 201
     ↔ unknown_environment (environment request) = false
       ∧ ∃ analysis_record id,
           created = Some analysis_record
           ∧ dict_get "run_id" analysis_record = Some id)
  ∧ (∀ run_id (upd : RepositoryUpdateRequest) existing e updated found_again,
       upd_environment upd = Some e →
       unknown_environment e = true →
       no_analysis existing = false →
       update_repository_analysis_endpoint run_id upd (Some existing)
         updated found_again
       = (HTTPException 400, [GetRepositoryAnalysis run_id])).
Proof.
  cbv zeta. unfold create_repository_analysis_endpoint.
  split; [|split; [|split]].
  - destruct (unknown_environment _); [by right|].
    destruct created as [a|]; [|by right].
    destruct (dict_get "run_id" a); [by left|by right].
  - by intros ->.
  - destruct (unknown_environment _); simpl.
    { split; [done|]. by intros [? _]. }
    destruct created as [a|]; simpl.
    + destruct (dict_get "run_id" a) as [id|] eqn:E; simpl.
      * split; [|done]. intros _. split; [done|]. by exists a, id.
      * split; [done|]. intros [_ (a' & id & ? & ?)]. simplify_eq.
    + split; [done|]. by intros [_ (a' & id & ? & ?)].
  - intros run_id upd existing e updated found_again He Hu Hex.
    unfold update_repository_analysis_endpoint, update_data_of.
    by rewrite Hex, He, Hu.
Qed.

(** X21.  The endpoints that read, update and delete an analysis answer
    404 exactly when [get_repository_analysis] returns nothing or an empty
    record, and then they make no other call: nothing is updated or
    deleted. *)
Theorem missing_analysis_is_404 run_id found (request : RepositoryUpdateRequest)
    (updated : bool) (found_again : option (option message))
    (deleted : option bool) :
  let missing := ∃ analysis, found = Some analysis ∧ no_analysis analysis = true in
  let read := get_repository_analysis_endpoint run_id found in
  let update :=
    update_repository_analysis_endpoint run_id request found updated
      found_again in
  let delete := delete_repository_analysis_endpoint run_id found deleted in
  (status_code_of (fst read) = 404 ↔ missing)
  ∧ (status_code_of (fst update) = 404 ↔ missing)
  ∧ (status_code_of (fst delete) = 404 ↔ missing)
  ∧ (missing →
     snd read = [GetRepositoryAnalysis run_id]
     ∧ snd update = [GetRepositoryAnalysis run_id]
     ∧ snd delete = [GetRepositoryAnalysis run_id]).
Proof.
  cbv zeta.
  unfold get_repository_analysis_endpoint, update_repository_analysis_endpoint,
    delete_repository_analysis_endpoint.
  destruct found as [analysis|].
  - destruct (no_analysis analysis) eqn:E.
    + repeat split; try done; intros _; by exists analysis.
    + assert (¬ ∃ a, Some analysis = Some a ∧ no_analysis a = true) as Hn.
      { intros (a & ? & ?). simplify_eq. congruence. }
      split; [split; [done|by intros ?%Hn]|].
      split; [|split; [|by intros ?%Hn]].
      * split; [|by intros ?%Hn].
        destruct (update_data_of request); [|done].
        destruct (dict_get "status" _); [|done].
        destruct updated; [|done]. by destruct found_again.
      * split; [|by intros ?%Hn]. by destruct deleted as [[|]|].
  - assert (¬ ∃ a, @None (option message) = Some a ∧ no_analysis a = true) as Hn
      by (by intros (a & ? & ?)).
    repeat split; try done; by intros ?%Hn.
Qed.

(** ** The name of a repository *)

Lemma split_not_nil sep (s : string) : split sep s ≠ [].
Proof.
  destruct s as [|c s]; simpl; [done|].
  destruct (Ascii.eqb c sep); [done|]. by destruct (split sep s).
Qed.

Lemma split_join sep (s : string) :
  s = String.concat "" (List.map (fun x => x +:+ String sep "")
                          (removelast (split sep s)))
      +:+ List.last (split sep s) "".
Proof.
  induction s as [|c s IH]; [done|].
  cbn [split]. destruct (Ascii.eqb_spec c sep) as [->|Hne].
  - pose proof (split_not_nil sep s) as Hnn.
    destruct (split sep s) as [|x xs] eqn:E; [done|].
    change (removelast ("" :: x :: xs)) with ("" :: removelast (x :: xs)).
    change (List.last ("" :: x :: xs) "") with (List.last (x :: xs) "").
    cbn [List.map]. rewrite IH at 1.
    destruct (removelast (x :: xs)); reflexivity.
  - destruct (split sep s) as [|x [|y ys]] eqn:E.
    + by destruct (split_not_nil sep s).
    + simpl in *. by rewrite IH at 1.
    + change (removelast (String c x :: y :: ys))
        with (String c x :: removelast (y :: ys)).
      change (removelast (x :: y :: ys)) with (x :: removelast (y :: ys)) in IH.
      change (List.last (String c x :: y :: ys) "")
        with (List.last (y :: ys) "").
      change (List.last (x :: y :: ys) "") with (List.last (y :: ys) "") in IH.
      cbn [List.map] in *. rewrite IH at 1.
      destruct (removelast (y :: ys)); reflexivity.
Qed.

Lemma split_free sep (s : string) :
  Forall (fun x => free_of sep x = true) (split sep s).
Proof.
  induction s as [|c s IH]; simpl; [by constructor|].
  destruct (Ascii.eqb c sep) eqn:E; [by constructor|].
  destruct (split sep s) as [|x xs]; simpl.
  - constructor; [|done]. simpl. by rewrite E.
  - inversion IH; subst. constructor; [|done]. simpl. by rewrite E.
Qed.

Lemma closed_by_app sep (a b : string) :
  closed_by sep b = true → b ≠ "" → closed_by sep (a +:+ b) = true.
Proof.
  intros Hb Hne. induction a as [|c a IH]; simpl; [done|].
  destruct (a +:+ b) eqn:E; [|done].
  destruct a; simpl in E; [by subst|done].
Qed.

Lemma closed_by_join sep (l : list string) :
  closed_by sep
    (String.concat "" (List.map (fun x => x +:+ String sep "") l)) = true.
Proof.
  induction l as [|x l IH]; [done|].
  cbn [List.map]. destruct l as [|y l].
  - simpl. apply closed_by_app; [|done]. simpl. apply Ascii.eqb_refl.
  - change (String.concat "" ((x +:+ String sep "")
                              :: List.map (fun x => x +:+ String sep "") (y :: l)))
      with ((x +:+ String sep "") +:+ ""
            +:+ String.concat ""
                  (List.map (fun x => x +:+ String sep "") (y :: l))).
    simpl ("" +:+ _).
    apply closed_by_app; [done|].
    cbn [List.map]. destruct (List.map _ l); simpl; by destruct y.
Qed.

Lemma split_whole sep (s : string) :
  free_of sep s = true → split sep s = [s].
Proof.
  induction s as [|c s IH]; simpl; [done|].
  intros [Hc Hf]%andb_true_iff. apply negb_true_iff in Hc.
  by rewrite Hc, IH.
Qed.

Lemma split_trailing sep (s : string) :
  ∃ l, l ≠ [] ∧ split sep (s +:+ String sep "") = l ++ [""].
Proof.
  induction s as [|c s (l & Hl & IH)]; simpl.
  - rewrite Ascii.eqb_refl. by exists [""].
  - rewrite IH. destruct (Ascii.eqb c sep).
    + by exists ("" :: l).
    + destruct l as [|x l]; [done|]. by exists (String c x :: l).
Qed.

(** X22.  The name shown for a repository is the part of its URL after
    the last ["/"]: the URL is a prefix that is empty or ends with ["/"],
    followed by the name, and the name holds no ["/"].  So a URL that
    ends with ["/"] gets the empty name, and a URL without ["/"] is its
    own name.  An empty or missing URL gets the name ["Unknown"]. *)
Theorem repository_name_is_last_segment (s : string) :
  repository_name (JStr "") = Some "Unknown"
  ∧ repository_name JNull = Some "Unknown"
  ∧ (s ≠ "" →
     ∃ prefix name,
       repository_name (JStr s) = Some name
       ∧ s = prefix +:+ name
       ∧ closed_by "/" prefix = true
       ∧ free_of "/" name = true)
  ∧ (free_of "/" s = true → s ≠ "" → repository_name (JStr s) = Some s)
  ∧ (s ≠ "" → repository_name (JStr (s +:+ "/")) = Some "").
Proof.
  split; [done|]. split; [done|].
  assert (∀ t : string, t ≠ "" →
            repository_name (JStr t) = Some (List.last (split "/" t) ""))
    as Hname.
  { intros t Ht. unfold repository_name. simpl. by destruct t. }
  split; [|split].
  - intros Hs. eexists _, _. split; [by apply Hname|].
    split; [apply (split_join "/" s)|]. split; [apply closed_by_join|].
    pose proof (split_free "/" s) as Hf.
    pose proof (split_not_nil "/" s) as Hnn.
    rewrite Forall_forall in Hf. apply Hf.
    destruct (split "/" s) as [|x xs]; [done|].
    apply list_elem_of_In. apply (@exists_last _ (x :: xs)) in Hnn
      as (l' & a & ->). rewrite List.last_last. apply in_app_iff. right. by left.
  - intros Hf Hs. rewrite Hname by done. by rewrite split_whole.
  - intros Hs. rewrite Hname by (by destruct s).
    destruct (split_trailing "/" s) as (l & _ & ->).
    by rewrite List.last_last.
Qed.

(** X23.  [GET /api/my-repositories] answers 200 or 500.  It answers 200
    exactly when the listing returned and every row has the six keys that
    are read and a URL that is a string or false; the answer then has one
    entry per row, in the order of the rows.  One row that lacks a key
    makes the whole answer 500. *)
Theorem my_repositories_all_or_nothing (user : string) (limit : Z)
    (listed : option (list message)) :
  let r := get_my_repositories user limit listed in
  snd r = [ListUserAnalyses user limit]
  ∧ (status_code_of (fst r) = 200 ∨ status_code_of (fst r) = 500)
  ∧ (status_code_of (fst r) = 200
     ↔ ∃ repositories,
         listed = Some repositories
         ∧ Forall (fun repo => is_Some (format_repo repo)) repositories)
  ∧ (∀ repositories formatted,
       listed = Some repositories →
       format_repos repositories = Some formatted →
       fst r = JSONResponse 200
                 [("success", JBool true);
                  ("data", JArr (List.map JObj formatted))]
       ∧ List.map Some formatted = List.map format_repo repositories).
Proof.
  cbv zeta. unfold get_my_repositories.
  assert (∀ l, (∃ fs, format_repos l = Some fs
                      ∧ List.map Some fs = List.map format_repo l)
               ∨ (format_repos l = None
                  ∧ ¬ Forall (fun repo => is_Some (format_repo repo)) l))
    as Hall.
  { induction l as [|repo l IH]; [left; by exists []|].
    simpl. destruct (format_repo repo) as [f|] eqn:Ef.
    - destruct IH as [(fs & -> & Hm)|[-> Hn]].
      + left. exists (f :: fs). split; [done|]. simpl. by rewrite Hm.
      + right. split; [done|]. intros Hf. inversion Hf. done.
    - right. split; [done|]. intros Hf. inversion Hf as [|? ? [? Hx] ?].
      congruence. }
  destruct listed as [repositories|].
  - destruct (Hall repositories) as [(fs & Hfs & Hm)|[Hnone Hn]].
    + rewrite Hfs. split; [done|]. split; [by left|]. split.
      * split; [|done]. intros _. exists repositories. split; [done|].
        apply Forall_forall. intros repo Hin.
        apply list_elem_of_In, (List.in_map format_repo) in Hin.
        rewrite <- Hm in Hin. apply List.in_map_iff in Hin as (f & <- & _).
        by eexists.
      * intros ? formatted [= <-] Hf. rewrite Hfs in Hf. by simplify_eq.
    + rewrite Hnone. split; [done|]. split; [by right|]. split.
      * split; [done|]. intros (l & [= <-] & Hf). done.
      * intros ? formatted [= <-] Hf. congruence.
  - split; [done|]. split; [by right|]. split; [|done].
    split; [done|]. by intros (l & ? & _).
Qed.

(** The request was not carried out: no analysis, no status, an unknown
    environment or a call that raised. *)
Ltac not_carried_out :=
  intros (? & ? & ? & ? & ? & ? & ? & ? & ?); simplify_eq/=; congruence.

(** X24.  When [PUT /api/repository-analysis/{run_id}] updates, it passes
    the status the analysis has, and an entry for each field of the
    request that is given and for no other; it is called once, between
    two reads.  It answers 200 exactly when the analysis exists and has a
    status, the environment is known when given, and the update and the
    second read return. *)
Theorem update_passes_given_fields run_id (request : RepositoryUpdateRequest)
    found (updated : bool) (found_again : option (option message)) :
  let r :=
    update_repository_analysis_endpoint run_id request found updated
      found_again in
  (∀ id status update_data,
     UpdateAnalysisStatus id status update_data ∈ snd r →
     id = run_id
     ∧ (∃ existing, found = Some (Some existing)
                    ∧ dict_get "status" existing = Some status)
     ∧ dict_get "repository_url" update_data
       = JStr <$> upd_repository_url request
     ∧ dict_get "project_description" update_data
       = JStr <$> upd_project_description request
     ∧ dict_get "environment" update_data = JStr <$> upd_environment request
     ∧ dict_get "reference_files" update_data
       = (fun l => JArr (List.map JStr l)) <$> upd_reference_files request
     ∧ dict_get "status" update_data = None
     ∧ (∃ tail, snd r = GetRepositoryAnalysis run_id
                        :: UpdateAnalysisStatus id status update_data :: tail
                ∧ (tail = [] ∨ tail = [GetRepositoryAnalysis run_id])))
  ∧ (status_code_of (fst r) = 200
     ↔ ∃ existing status update_data updated_analysis,
         found = Some (Some existing)
         ∧ dict_get "status" existing = Some status
         ∧ update_data_of request = Some update_data
         ∧ updated = true
         ∧ found_again = Some updated_analysis).
Proof.
  cbv zeta. unfold update_repository_analysis_endpoint.
  assert (∀ d, update_data_of request = Some d →
            dict_get "repository_url" d = JStr <$> upd_repository_url request
            ∧ dict_get "project_description" d
              = JStr <$> upd_project_description request
            ∧ dict_get "environment" d = JStr <$> upd_environment request
            ∧ dict_get "reference_files" d
              = (fun l => JArr (List.map JStr l)) <$> upd_reference_files request
            ∧ dict_get "status" d = None) as Hdata.
  { intros d. unfold update_data_of.
    destruct request as [[u|] [p|] [e|] [l|]]; simpl;
      try destruct (unknown_environment e); intros Hd; simplify_eq; done. }
  assert (∀ id st ud, UpdateAnalysisStatus id st ud
                      ∉ [GetRepositoryAnalysis run_id]) as Hnone.
  { intros id st ud Hin. by apply list_elem_of_singleton in Hin. }
  destruct found as [[existing|]|]; cbn [no_analysis].
  2,3: (split; [intros id st ud Hin; by destruct (Hnone id st ud)|];
        split; [done|not_carried_out]).
  destruct existing as [|kv existing].
  { split; [intros id st ud Hin; by destruct (Hnone id st ud)|].
    split; [done|not_carried_out]. }
  cbn [from_option id].
  destruct (update_data_of request) as [d|] eqn:Ed.
  2:{ split; [intros id st ud Hin; by destruct (Hnone id st ud)|].
      split; [done|not_carried_out]. }
  destruct (dict_get "status" (kv :: existing)) as [status|] eqn:Es.
  2:{ split; [intros id st ud Hin; by destruct (Hnone id st ud)|].
      split; [done|not_carried_out]. }
  assert (∀ tail id st ud,
            (tail = [] ∨ tail = [GetRepositoryAnalysis run_id]) →
            UpdateAnalysisStatus id st ud
            ∈ GetRepositoryAnalysis run_id
              :: UpdateAnalysisStatus run_id status d :: tail →
            id = run_id ∧ st = status ∧ ud = d) as Hin.
  { intros tail id st ud Htail Hin.
    apply elem_of_cons in Hin as [?|Hin]; [done|].
    apply elem_of_cons in Hin as [?|Hin]; [by simplify_eq|].
    destruct Htail as [->| ->].
    - by apply elem_of_nil in Hin.
    - by apply list_elem_of_singleton in Hin. }
  destruct (Hdata d eq_refl) as (H1 & H2 & H3 & H4 & H5).
  assert (∀ tail,
            (tail = [] ∨ tail = [GetRepositoryAnalysis run_id]) →
            ∀ id st ud,
              UpdateAnalysisStatus id st ud
              ∈ GetRepositoryAnalysis run_id
                :: UpdateAnalysisStatus run_id status d :: tail →
              id = run_id
              ∧ (∃ existing0, Some (Some (kv :: existing)) = Some (Some existing0)
                              ∧ dict_get "status" existing0 = Some st)
              ∧ dict_get "repository_url" ud
                = JStr <$> upd_repository_url request
              ∧ dict_get "project_description" ud
                = JStr <$> upd_project_description request
              ∧ dict_get "environment" ud = JStr <$> upd_environment request
              ∧ dict_get "reference_files" ud
                = (fun l => JArr (List.map JStr l))
                    <$> upd_reference_files request
              ∧ dict_get "status" ud = None
              ∧ (∃ tail0,
                   GetRepositoryAnalysis run_id
                   :: UpdateAnalysisStatus run_id status d :: tail
                   = GetRepositoryAnalysis run_id
                     :: UpdateAnalysisStatus id st ud :: tail0
                   ∧ (tail0 = [] ∨ tail0 = [GetRepositoryAnalysis run_id])))
    as Hcall.
  { intros tail Htail id st ud Hi.
    destruct (Hin tail id st ud Htail Hi) as (-> & -> & ->).
    split; [done|]. split; [by eexists|].
    repeat (split; [done|]). by exists tail. }
  destruct updated; cbn [negb].
  - destruct found_again as [again|]; cbn [fst snd status_code_of].
    + split; [apply Hcall; by right|]. split; [|done].
      intros _. by exists (kv :: existing), status, d, again.
    + split; [apply Hcall; by right|]. split; [done|not_carried_out].
  - cbn [fst snd status_code_of].
    split; [apply Hcall; by left|]. split; [done|not_carried_out].
Qed.

End RepositoryAnalysis.

(** * Activity and the monitor *)

Section KeepAlive.

Implicit Types (sys : System) (run_id : string) (ws : nat) (now t : Z)
  (send_failure : exn).

(** X25.  A text from a client keeps its run alive.  When the handler
    has gone on after a text received at time [t], a cycle of the monitor
    that runs no later than the timeout after [t] leaves the run alone:
    its connections, buffer and registry entry are as before the text,
    its clock shows [t], and [cancel_run] is not entered for it. *)
Theorem client_text_keeps_run_alive send_failure run_id ws t
    (parsed : option json) sys now :
  fst (fst (client_text send_failure run_id ws t parsed sys)) = true →
  now - t ≤ IDLE_TIMEOUT_SECONDS (ws_manager sys) * 1000000 →
  let sys1 := snd (client_text send_failure run_id ws t parsed sys) in
  let sys2 := monitor_cycle now sys1 in
  _conns (ws_manager sys2) !! run_id = _conns (ws_manager sys) !! run_id
  ∧ _last_activity (ws_manager sys2) !! run_id = Some t
  ∧ _buffers (ws_manager sys2) !! run_id = _buffers (ws_manager sys) !! run_id
  ∧ active_runs (run_manager sys2) !! run_id
    = active_runs (run_manager sys) !! run_id
  ∧ ∀ delta, trace (world sys2) = trace (world sys1) ++ delta →
             EvCancelRun run_id ∉ delta.
Proof.
  intros Hon Hfresh. cbv zeta.
  destruct (client_text_cases send_failure run_id ws t parsed sys)
    as (sent & put & [(E & _)|(e & E & _)]); rewrite E in *; [|done].
  cbn [fst snd].
  set (sys1 := with_hub_world (receive_activity run_id t (ws_manager sys)) _ sys).
  assert (_last_activity (ws_manager sys1) !! run_id = Some t) as Hl
    by apply lookup_insert_eq.
  assert (run_id ∉ List.map fst (find_idle_runs now (ws_manager sys1))) as Hnin.
  { apply not_in_scan. intros last Hlast. left.
    rewrite Hl in Hlast. by injection Hlast as <-. }
  unfold monitor_cycle.
  destruct (cancel_idle_runs_frame now _ sys1 run_id Hnin)
    as (Hc & Hl' & Ha & _).
  rewrite Hc, Hl', Ha, (cancel_idle_runs_buffers now _ sys1 run_id Hnin).
  split; [done|]. split; [done|]. split; [done|]. split; [done|].
  destruct (cancel_idle_runs_trace now
              (find_idle_runs now (ws_manager sys1)) sys1) as (delta0 & Ht & Hd0).
  intros delta Hdelta. rewrite Ht in Hdelta.
  apply app_inv_head in Hdelta as <-. intros Hin. by apply Hnin, Hd0.
Qed.

(** A ping at 7 µs on run "x"; the monitor runs at 600 s. *)
Lemma client_text_keeps_run_alive_witness :
  let sys := snd (run_logs_ws_connect "x" 3 1 (new_system 1 600)) in
  let sys1 :=
    snd (client_text OtherException "x" 3 7
           (Some (JObj [("type", JStr "ping")])) sys) in
  _conns (ws_manager (monitor_cycle 600000000 sys1)) !! "x"
  = _conns (ws_manager sys) !! "x"
  ∧ _last_activity (ws_manager (monitor_cycle 600000000 sys1)) !! "x" = Some 7.
Proof.
  cbv zeta.
  destruct (client_text_keeps_run_alive OtherException "x" 3 7
              (Some (JObj [("type", JStr "ping")]))
              (snd (run_logs_ws_connect "x" 3 1 (new_system 1 600)))
              600000000) as (Hc & Hl & _).
  - vm_compute. reflexivity.
  - vm_compute. discriminate.
  - split; [exact Hc|exact Hl].
Defined.

End KeepAlive.
